(** * DebatES: merge-and-aggregate engine

    A shallow embedding of the three scripts that build, annotate and
    aggregate the debate documents:

    - [compile_xml.py]: the temporal assignment functions and the assembly
      of one intervention ([Module CompileXml]);
    - [classify_emotions.py]: the reduced document sent to the classifier
      and the merge of the classifier's answer ([Module ClassifyEmotions]);
    - [generate_html_reports.py]: the accumulation of the per-speaker,
      per-party and per-debate metrics ([Module HtmlReports]).

    Python values are modelled as follows.  A [float] is a primitive
    binary64 float, compared with the IEEE comparisons Python uses.  A [str]
    is a [string], read as its sequence of code points (code points below
    256).  [None] is the [None] of an [option].  A [dict] is a [gmap], a
    [set] a [gset].  An [xml.etree.ElementTree.Element] is an [element]: a
    tag, an attribute dictionary, an optional text and the list of children
    in document order.  A raised exception is a result [None] of the
    function that raises. *)

From Stdlib Require Import ZArith Ascii String Floats.
From stdpp Require Import base option list gmap sets strings pretty sorting.

Set Warnings "-inexact-float,-register-all".

(** ** Python strings *)

Module PyStr.

(** [str.isspace] on one code point below 256. *)
Definition isspace (c : ascii) : bool :=
  let n := N_of_ascii c in
  ((9 <=? n) && (n <=? 13) || (28 <=? n) && (n <=? 32)
   || (n =? 133) || (n =? 160))%N.

Fixpoint lstrip (s : string) : string :=
  match s with
  | String c s' => if isspace c then lstrip s' else s
  | EmptyString => EmptyString
  end.

Definition rstrip (s : string) : string :=
  String.rev (lstrip (String.rev s)).

(** [s.strip()] *)
Definition strip (s : string) : string := rstrip (lstrip s).

(** Truth value of a [str]: the empty string is false. *)
Definition truthy (s : string) : bool :=
  match s with EmptyString => false | _ => true end.

(** Truth value of a value that is [None] or a [str]. *)
Definition truthy_opt (o : option string) : bool :=
  match o with Some s => truthy s | None => false end.

(** [sep.join(l)] *)
Fixpoint join (sep : string) (l : list string) : string :=
  match l with
  | [] => ""
  | [s] => s
  | s :: l' => s +:+ sep +:+ join sep l'
  end.

(** [s.split(sep)] for a non-empty [sep]: the pieces between the
    occurrences of [sep], found from the left and not overlapping.  [skip]
    counts the characters of the separator still to pass, [cur] holds the
    current piece in reverse. *)
Fixpoint split_go (sep : string) (skip : nat) (cur s : string) : list string :=
  match s with
  | EmptyString => [String.rev cur]
  | String c s' =>
      match skip with
      | S k => split_go sep k cur s'
      | O =>
          if String.prefix sep s
          then String.rev cur :: split_go sep (String.length sep - 1) "" s'
          else split_go sep 0 (String c cur) s'
      end
  end.

Definition split (sep s : string) : list string := split_go sep 0 "" s.

(** [str(o)] inside an f-string, for a value that is [None] or a [str]. *)
Definition format_opt (o : option string) : string :=
  match o with Some s => s | None => "None" end.

(** [f"{n:03d}"]: decimal, padded with zeros on the left to three digits. *)
Definition format_03d (n : nat) : string :=
  let d := pretty n in
  String.concat "" (replicate (3 - String.length d) "0") +:+ d.

End PyStr.

(** ** ElementTree elements *)

(** The attribute values of a parsed document are strings.  [Element.set]
    stores whatever it is given, so a tree under construction may hold
    [None]; the type of the values is a parameter. *)
Inductive element (V : Type) : Type :=
  Element (tag : string) (attrib : gmap string V) (text : option string)
          (children : list (element V)).
Arguments Element {V} tag attrib text children.

Definition tag {V} (e : element V) : string :=
  let 'Element t _ _ _ := e in t.
Definition attrib {V} (e : element V) : gmap string V :=
  let 'Element _ a _ _ := e in a.
Definition text {V} (e : element V) : option string :=
  let 'Element _ _ x _ := e in x.
Definition children {V} (e : element V) : list (element V) :=
  let 'Element _ _ _ cs := e in cs.

(** A tree whose attribute values are a [str] or [None]. *)
Abbreviation tree := (element (option string)).

Module ET.

Definition has_tag {V} (t : string) (e : element V) : bool :=
  bool_decide (tag e = t).

(** [e.get(k)] on a parsed element. *)
Definition get (e : element string) (k : string) : option string :=
  attrib e !! k.

(** [e.get(k, d)] on a parsed element. *)
Definition get_default (e : element string) (k d : string) : string :=
  default d (attrib e !! k).

(** [e.attrib.get(k)] on a tree under construction: a stored [None] and a
    missing key both read as [None]. *)
Definition tget (e : tree) (k : string) : option string :=
  mjoin (attrib e !! k).

(** [e.set(k, v)] *)
Definition set {V} (e : element V) (k : string) (v : V) : element V :=
  Element (tag e) (<[k := v]> (attrib e)) (text e) (children e).

Definition with_children {V} (e : element V) (cs : list (element V)) : element V :=
  Element (tag e) (attrib e) (text e) cs.

(** [e.findall(t)]: the children with tag [t], in document order. *)
Definition findall {V} (e : element V) (t : string) : list (element V) :=
  filter (λ c, tag c = t) (children e).

(** [e.find(t)]: the first child with tag [t]. *)
Definition find {V} (e : element V) (t : string) : option (element V) :=
  head (findall e t).

(** All elements below [e], on all levels, in document order. *)
Fixpoint descendants {V} (e : element V) : list (element V) :=
  let 'Element _ _ _ cs := e in
  (fix go (l : list (element V)) : list (element V) :=
     match l with
     | [] => []
     | c :: l' => c :: descendants c ++ go l'
     end) cs.

(** [e.findall(".//" + t)] *)
Definition findall_deep {V} (e : element V) (t : string) : list (element V) :=
  filter (λ c, tag c = t) (descendants e).

(** [ET.tostring] and [tree.write] raise [TypeError] on an attribute whose
    value is [None]; otherwise the tree written is the tree itself. *)
Definition str_attrib (a : gmap string (option string)) : option (gmap string string) :=
  if decide (map_Forall (λ _ v, is_Some v) a) then Some (omap id a) else None.

Fixpoint serialize (e : tree) : option (element string) :=
  let 'Element t a x cs := e in
  a' ← str_attrib a;
  cs' ← (fix go (l : list tree) : option (list (element string)) :=
           match l with
           | [] => Some []
           | c :: l' => c' ← serialize c; r ← go l'; Some (c' :: r)
           end) cs;
  Some (Element t a' x cs').

(** A parsed element seen as a tree under construction. *)
Fixpoint lift (e : element string) : tree :=
  let 'Element t a x cs := e in
  Element t (Some <$> a) x (lift <$> cs).

End ET.

(** ** compile_xml.py *)

Module CompileXml.

(** The loaders return lists of tuples: [(label, start)] for blocks and
    topics, [(time, payload)] for entities, proposals and fact checks.
    [parse_time] and the loaders read text; their results are the inputs
    of the functions below. *)

(** The loop [for i in range(len(blocks) - 1)] of [assign_block]: [i] is
    the current index, [n] the number of indices still to visit. *)
Fixpoint assign_scan (time : float) (blocks : list (string * float))
    (i n : nat) : option string :=
  match n with
  | O => None
  | S n' =>
      match blocks !! i, blocks !! S i with
      | Some (label, start), Some (_, next) =>
          if PrimFloat.leb start time && PrimFloat.ltb time next
          then Some label
          else assign_scan time blocks (S i) n'
      | _, _ => None
      end
  end.

(** [return blocks[-1][0] if blocks else None] after the loop. *)
Definition assign_block (time : float) (blocks : list (string * float))
    : option string :=
  match assign_scan time blocks 0 (length blocks - 1) with
  | Some label => Some label
  | None => fst <$> last blocks
  end.

Definition assign_topic (time : float) (topics : list (string * float))
    : option string :=
  match assign_scan time topics 0 (length topics - 1) with
  | Some label => Some label
  | None => fst <$> last topics
  end.

Fixpoint assign_entities (time : float)
    (entities : list (float * list (string * string)))
    : list (string * string) :=
  match entities with
  | [] => []
  | (entity_time, entity_list) :: rest =>
      if PrimFloat.eqb entity_time time then entity_list
      else assign_entities time rest
  end.

Fixpoint assign_proposals (time : float)
    (proposals : list (float * list string)) : option (list string) :=
  match proposals with
  | [] => None
  | (fc_time, datos) :: rest =>
      if PrimFloat.eqb fc_time time then Some datos
      else assign_proposals time rest
  end.

Fixpoint assign_fact_checking (time : float)
    (fact_checking : list (float * list string)) : option (list string) :=
  match fact_checking with
  | [] => None
  | (fc_time, datos) :: rest =>
      if PrimFloat.eqb fc_time time then Some datos
      else assign_fact_checking time rest
  end.

(** The order of the sort key [(x[0], x[1])]: tuples of strings compare
    on the first component where they differ. *)
Definition mention_le (a b : string * string) : Prop :=
  if decide (a.1 = b.1) then String.le a.2 b.2 else String.le a.1 b.1.

Global Instance mention_le_dec : RelDecision mention_le.
Proof. intros a b. unfold mention_le. destruct (decide (a.1 = b.1)); apply _. Defined.

(** [sorted({(type, nombre) for type, nombre in entidades_asignadas},
    key=lambda x: (x[0], x[1]))] *)
Definition sorted_mentions (entidades : list (string * string))
    : list (string * string) :=
  merge_sort mention_le
    (elements (list_to_set entidades : gset (string * string))).

(** One row of the segments table: the parsed start time, the speaker,
    the text, and the attributes of its linguistic-stats element (the
    eight ratios, each already through [str]). *)
Record row := Row {
  inicio : float;
  nombre : string;
  texto : string;
  ling_stats : gmap string string
}.

Definition mention_element (entidad_id : nat) (m : string * string) : tree :=
  Element "mention"
    (<["id" := Some ("e" +:+ pretty entidad_id)]>
       (<["type" := Some m.1]> (<["text" := Some m.2]> ∅)))
    None [].

Definition proposal_element (proposal_id : nat) (resumen : string) : tree :=
  Element "proposal" {["id" := Some ("pr" +:+ pretty proposal_id)]}
    (Some resumen) [].

Definition claim_element (claim_id : nat) (statement : string) : tree :=
  Element "claim" {["id" := Some ("r" +:+ pretty claim_id)]}
    (Some statement) [].

(** [for sent_id, sentence in enumerate(row["texto"].split(". "))]:
    an empty piece gives no element but uses up its number. *)
Definition sentence_elements (texto : string) : list tree :=
  omap (λ '(sent_id, sentence),
          if PyStr.truthy sentence
          then Some (Element "sentence" {["id" := Some ("s" +:+ pretty sent_id)]}
                       (Some (PyStr.strip sentence)) [])
          else None)
       (imap pair (PyStr.split ". " texto)).

(** The body of [if block_topic:]: the intervention element of one row,
    its sub-elements in the order in which they are appended. *)
Definition intervention_element (intervention_global_id : nat)
    (participant_id : string) (topic_asignado : option string)
    (entidades_asignadas : list (string * string))
    (proposals_asignadas fact_checking_asignado : option (list string))
    (r : row) : tree :=
  Element "intervention"
    (<["id" := Some ("i" +:+ PyStr.format_03d intervention_global_id)]>
       (<["participant-id" := Some participant_id]>
          (<["topic" := topic_asignado]> ∅)))
    None
    ((match entidades_asignadas with
      | [] => []
      | _ => [Element "mentions" ∅ None (imap mention_element entidades_asignadas)]
      end)
     ++ (match proposals_asignadas with
         | Some (p :: ps) =>
             [Element "proposals" ∅ None (imap proposal_element (p :: ps))]
         | _ => []
         end)
     ++ (match fact_checking_asignado with
         | Some (c :: cs) =>
             [Element "claims" ∅ None (imap claim_element (c :: cs))]
         | _ => []
         end)
     ++ [Element "linguistic-stats" (Some <$> ling_stats r) None []]
     ++ [Element "sentences" ∅ None (sentence_elements (texto r))]).

(** [blocks_dict]: a dictionary comprehension over [enumerate(blocks)],
    here with the position of the block element instead of the element; a
    label that occurs again replaces the earlier entry. *)
Definition blocks_dict (blocks : list (string * float)) : gmap string nat :=
  foldl (λ d '(block_id, (block_topic, _)), <[block_topic := block_id]> d)
        ∅ (imap pair blocks).

(** One pass of [for i, row in df.iterrows()].  The state is the counter
    [intervention_global_id] and the interventions appended so far, each
    with the key of [interventions_dict] under which it was appended.
    [participants_dict[row["nombre"]]] raises [KeyError] for a speaker
    that is not registered. *)
Definition place_turn (blocks topics : list (string * float))
    (entities : list (float * list (string * string)))
    (proposals fact_checking : list (float * list string))
    (participants_dict : gmap string string)
    (st : nat * list (string * tree)) (r : row)
    : option (nat * list (string * tree)) :=
  let seg_time := inicio r in
  let block_topic := assign_block seg_time blocks in
  let topic_asignado := assign_topic seg_time topics in
  let entidades_asignadas := sorted_mentions (assign_entities seg_time entities) in
  let proposals_asignadas := assign_proposals seg_time proposals in
  let fact_checking_asignado := assign_fact_checking seg_time fact_checking in
  match block_topic with
  | Some label =>
      if PyStr.truthy label then
        participant_id ← participants_dict !! nombre r;
        Some (S st.1,
              st.2 ++ [(label,
                        intervention_element st.1 participant_id topic_asignado
                          entidades_asignadas proposals_asignadas
                          fact_checking_asignado r)])
      else Some st
  | None => Some st
  end.

End CompileXml.

(** ** classify_emotions.py *)

Module ClassifyEmotions.

(** The reduced document built for the classifier: per intervention of
    the input (on any level), a new element with its [id]; per sentence
    below it with a non-empty text, a new element with its [id] and the
    stripped text. *)
Definition new_sentence (sentence : element string) : option tree :=
  match text sentence with
  | Some x =>
      if PyStr.truthy x
      then Some (Element "sentence"
                   {["id" := Some (ET.get_default sentence "id" "")]}
                   (Some (PyStr.strip x)) [])
      else None
  | None => None
  end.

Definition new_intervention (intervention : element string) : tree :=
  Element "intervention"
    {["id" := Some (ET.get_default intervention "id" "")]}
    None
    (omap new_sentence (ET.findall_deep intervention "sentence")).

Definition filtered_root (root : element string) : tree :=
  Element "debate" ∅ None
    (new_intervention <$> ET.findall_deep root "intervention").

(** [for sentence in intervention.findall("sentence")]: the first
    sentence child whose [id] is [sent_id] gets the attribute, and the
    [break] ends the loop. *)
Fixpoint tag_sentence (sent_id tags : option string) (cs : list tree)
    : list tree :=
  match cs with
  | [] => []
  | sentence :: rest =>
      if ET.has_tag "sentence" sentence
         && bool_decide (ET.tget sentence "id" = sent_id)
      then ET.set sentence "emotions" tags :: rest
      else sentence :: tag_sentence sent_id tags rest
  end.

(** The body of [for intervention in filtered_root.findall("intervention")]. *)
Definition visit_intervention (int_id sent_id tags : option string)
    (c : tree) : tree :=
  if ET.has_tag "intervention" c && bool_decide (ET.tget c "id" = int_id)
  then ET.with_children c (tag_sentence sent_id tags (children c))
  else c.

(** One parsed line of the answer, merged into the tree. *)
Definition merge_record (emotion_elem : element string) (root : tree) : tree :=
  let int_id := ET.get emotion_elem "int_id" in
  let sent_id := ET.get emotion_elem "sent_id" in
  let tags := ET.get emotion_elem "tags" in
  ET.with_children root
    (visit_intervention int_id sent_id tags <$> children root).

(** [for line in model_response_text.splitlines()]: each entry of [lines]
    is the element parsed from one stripped line, or [None] for a line
    that is blank or does not parse, which is skipped. *)
Definition merge_back (lines : list (option (element string))) (root : tree)
    : tree :=
  foldl (λ root line,
           match line with
           | Some emotion_elem => merge_record emotion_elem root
           | None => root
           end) root lines.

(** The document written to [output_path], for the answer [lines] of
    the classifier. *)
Definition generate_emotions (root : element string)
    (lines : list (option (element string))) : option (element string) :=
  ET.serialize (merge_back lines (filtered_root root)).

End ClassifyEmotions.

(** ** generate_html_reports.py *)

Module HtmlReports.

(** The accumulators are modelled with the keys the properties below
    read: the counts of interventions, sentences, claims, proposals and
    fallacies, the three text dictionaries, the participants of a party
    and the debates seen.  The other keys (words and the length lists,
    linguistic statistics, emotions, topics, mentions, block topics) are
    each written by statements of their own and are left out. *)

Record participant := Participant { full_name : string; party : string }.

Definition parse_participants (participants_node : option (element string))
    : gmap (option string) participant :=
  match participants_node with
  | None => ∅
  | Some node =>
      foldl (λ participants_mapping p,
               <[ET.get p "id" :=
                   Participant
                     (PyStr.strip (ET.get_default p "full-name" "Unknown"))
                     (PyStr.strip (ET.get_default p "party" "No party"))]>
                 participants_mapping)
            ∅ (ET.findall node "participant")
  end.

(** The value of a text dictionary of a speaker or party:
    [(d_id, i_id, full_text)]. *)
Abbreviation origin := (string * option string * string)%type.

(** The value of a text dictionary of a debate:
    [(d_id, i_id, full_text, speaker_name)]. *)
Abbreviation debate_origin := (string * option string * string * string)%type.

(** An entry of the lists [claims_texts], [proposals_texts] and
    [fallacies_texts]:
    [(formatted, debate_id, intervention_id, full_text, speaker_name)]. *)
Record text_entry := TextEntry {
  te_formatted : string;
  te_debate : string;
  te_intervention : option string;
  te_full_text : string;
  te_speaker : string
}.

(** The keys that a speaker dictionary and a party dictionary share. *)
Record totals := Totals {
  interventions : nat;
  sentences : nat;
  claims : nat;
  proposals : nat;
  fallacies : nat;
  claims_texts : gmap string origin;
  proposals_texts : gmap string origin;
  fallacies_texts : gmap string origin;
  debates : gset string
}.

Definition new_totals : totals := Totals 0 0 0 0 0 ∅ ∅ ∅ ∅.

Record speaker_acc := SpeakerAcc {
  sp_full_name : string;
  sp_party : string;
  sp_totals : totals
}.

Record party_acc := PartyAcc {
  pt_participants : gset string;
  pt_totals : totals
}.

(** The dictionary that [process_intervention] returns. *)
Record info := Info {
  intervention_id : option string;
  speaker_key : string;
  party_key : string;
  full_intervention_text : string;
  intervention_sentence_count : nat;
  num_claims : nat;
  num_proposals : nat;
  num_fallacies : nat;
  info_claims_texts : list text_entry;
  info_proposals_texts : list text_entry;
  info_fallacies_texts : list text_entry
}.

(** [x.text.strip() if x.text else ""] *)
Definition item_text (e : element string) : string :=
  match text e with
  | Some x => if PyStr.truthy x then PyStr.strip x else ""
  | None => ""
  end.

(** [speaker_name not in ["MODERADOR", "DECLARACIONES"]] *)
Definition not_pseudo_speaker (speaker_name : string) : bool :=
  negb (bool_decide (speaker_name ∈ ["MODERADOR"; "DECLARACIONES"])).

(** [for claim in claims_texts: m[formatted] = (d_id, i_id, full_text)] *)
Definition record_texts (m : gmap string origin) (l : list text_entry)
    : gmap string origin :=
  foldl (λ m e, <[te_formatted e := (te_debate e, te_intervention e, te_full_text e)]> m)
        m l.

(** The writes of one intervention to the shared keys of a speaker or
    party dictionary. *)
Definition add_intervention (debate_id : string) (i : info) (t : totals) : totals :=
  Totals (interventions t + 1)
         (sentences t + intervention_sentence_count i)
         (claims t + num_claims i)
         (proposals t + num_proposals i)
         (fallacies t + num_fallacies i)
         (record_texts (claims_texts t) (info_claims_texts i))
         (record_texts (proposals_texts t) (info_proposals_texts i))
         (record_texts (fallacies_texts t) (info_fallacies_texts i))
         (debates t ∪ {[debate_id]}).

(** What [process_intervention] computes from the intervention alone.
    A missing [sentences] child raises [AttributeError] (the emotions
    are read from [sentences_node.findall]). *)
Definition intervention_info
    (intervention : element string)
    (participants_mapping : gmap (option string) participant)
    (debate_id : string) : option info :=
  let intervention_id := ET.get intervention "id" in
  let pid := ET.get intervention "participant-id" in
  let speaker_name :=
    from_option full_name "Unknown" (participants_mapping !! pid) in
  let speaker_key :=
    if PyStr.truthy (PyStr.strip speaker_name)
    then PyStr.strip speaker_name else "Unknown" in
  let party :=
    PyStr.strip (from_option party "No party" (participants_mapping !! pid)) in
  let party_key := if PyStr.truthy party then party else "No party" in
  sentences_node ← ET.find intervention "sentences";
  let sentences_list := ET.findall sentences_node "sentence" in
  let full_intervention_text :=
    PyStr.join " "
      (omap (λ sentence,
               match text sentence with
               | Some x => if PyStr.truthy x then Some (PyStr.strip x) else None
               | None => None
               end) sentences_list) in
  let claims :=
    from_option (λ claims_node, ET.findall claims_node "claim") []
                (ET.find intervention "claims") in
  let claims_texts :=
    omap (λ claim,
            let claim_text := item_text claim in
            if PyStr.truthy claim_text && PyStr.truthy_opt intervention_id
               && not_pseudo_speaker speaker_name
            then Some (TextEntry (speaker_name +:+ ": " +:+ claim_text)
                         debate_id intervention_id full_intervention_text
                         speaker_name)
            else None) claims in
  let proposals :=
    from_option (λ proposals_node, ET.findall proposals_node "proposal") []
                (ET.find intervention "proposals") in
  let proposals_texts :=
    omap (λ proposal,
            let prop_text := item_text proposal in
            if PyStr.truthy prop_text && PyStr.truthy_opt intervention_id
               && not_pseudo_speaker speaker_name
            then Some (TextEntry (speaker_name +:+ ": " +:+ prop_text)
                         debate_id intervention_id full_intervention_text
                         speaker_name)
            else None) proposals in
  let fallacies :=
    from_option (λ fallacies_node, ET.findall fallacies_node "fallacy") []
                (ET.find intervention "fallacies") in
  let fallacies_texts :=
    (λ fallacy,
       TextEntry (speaker_name +:+ " ("
                    +:+ PyStr.format_opt (ET.get fallacy "category")
                    +:+ "): " +:+ item_text fallacy)
         debate_id intervention_id full_intervention_text speaker_name)
      <$> fallacies in
  Some (Info intervention_id speaker_key party_key full_intervention_text
          (length sentences_list) (length claims) (length proposals)
          (length fallacies) claims_texts proposals_texts fallacies_texts).

(** The party stored when a speaker dictionary is created. *)
Definition stored_party
    (intervention : element string)
    (participants_mapping : gmap (option string) participant) : string :=
  PyStr.strip (from_option party "No party"
                 (participants_mapping !! ET.get intervention "participant-id")).

Definition process_intervention
    (intervention : element string)
    (participants_mapping : gmap (option string) participant)
    (speaker_metrics : gmap string speaker_acc)
    (party_metrics : gmap string party_acc)
    (debate_id : string)
    : option (info * gmap string speaker_acc * gmap string party_acc) :=
  i ← intervention_info intervention participants_mapping debate_id;
  let sp :=
    default (SpeakerAcc (speaker_key i)
               (stored_party intervention participants_mapping) new_totals)
            (speaker_metrics !! speaker_key i) in
  let pt :=
    default (PartyAcc ∅ new_totals) (party_metrics !! party_key i) in
  Some (i,
        <[speaker_key i :=
            SpeakerAcc (sp_full_name sp) (sp_party sp)
              (add_intervention debate_id i (sp_totals sp))]> speaker_metrics,
        <[party_key i :=
            PartyAcc (pt_participants pt ∪ {[speaker_key i]})
              (add_intervention debate_id i (pt_totals pt))]> party_metrics).

(** What [debates_info[debate_id]] holds. *)
Record debate_info := DebateInfo {
  d_debate_id : string;
  d_blocks : nat;
  d_interventions : nat;
  d_sentences : nat;
  d_claims_texts : gmap string debate_origin;
  d_proposals_texts : gmap string debate_origin;
  d_fallacies_texts : gmap string debate_origin;
  d_num_claims : nat;
  d_num_proposals : nat;
  d_num_fallacies : nat
}.

Record global_acc := GlobalAcc {
  g_debates : nat;
  g_blocks : nat;
  g_interventions : nat;
  g_sentences : nat;
  g_claims : nat;
  g_proposals : nat;
  g_fallacies : nat;
  debates_info : gmap string debate_info
}.

(** The three dictionaries that [main] creates and every call updates. *)
Record state := State {
  global_metrics : global_acc;
  speaker_metrics : gmap string speaker_acc;
  party_metrics : gmap string party_acc
}.

Definition initial_state : state :=
  State (GlobalAcc 0 0 0 0 0 0 0 ∅) ∅ ∅.

(** The writes of [process_block] to [global_metrics] after one
    intervention. *)
Definition count_intervention (i : info) (g : global_acc) : global_acc :=
  GlobalAcc (g_debates g) (g_blocks g)
    (g_interventions g + 1)
    (g_sentences g + intervention_sentence_count i)
    (g_claims g + num_claims i)
    (g_proposals g + num_proposals i)
    (g_fallacies g + num_fallacies i)
    (debates_info g).

(** [for intervention in interventions] of [process_block]. *)
Fixpoint process_interventions (interventions : list (element string))
    (participants_mapping : gmap (option string) participant)
    (debate_id : string) (block_interventions_info : list info) (st : state)
    : option (list info * state) :=
  match interventions with
  | [] => Some (block_interventions_info, st)
  | intervention :: rest =>
      '(i, sm, pm) ← process_intervention intervention participants_mapping
                        (speaker_metrics st) (party_metrics st) debate_id;
      process_interventions rest participants_mapping debate_id
        (block_interventions_info ++ [i])
        (State (count_intervention i (global_metrics st)) sm pm)
  end.

Definition process_block (block : element string)
    (participants_mapping : gmap (option string) participant)
    (debate_id : string) (st : state) : option (list info * state) :=
  match ET.find block "interventions" with
  | None => Some ([], st)
  | Some interventions_node =>
      process_interventions (ET.findall interventions_node "intervention")
        participants_mapping debate_id [] st
  end.

(** [for block in blocks] of [process_xml]. *)
Fixpoint process_blocks (blocks : list (element string))
    (participants_mapping : gmap (option string) participant)
    (debate_id : string) (local_interventions_info : list info) (st : state)
    : option (list info * state) :=
  match blocks with
  | [] => Some (local_interventions_info, st)
  | block :: rest =>
      '(block_interventions, st') ←
        process_block block participants_mapping debate_id st;
      process_blocks rest participants_mapping debate_id
        (local_interventions_info ++ block_interventions) st'
  end.

(** [for ... in info[...]: local_mapping[text] = (d_id, i_id, full_text,
    speaker_name)], over all interventions of the debate. *)
Definition local_mapping (proj : info → list text_entry)
    (local_interventions_info : list info) : gmap string debate_origin :=
  foldl (λ m i,
           foldl (λ m e,
                    <[te_formatted e :=
                        (te_debate e, te_intervention e, te_full_text e,
                         te_speaker e)]> m)
                 m (proj i))
        ∅ local_interventions_info.

(** [root.findall("blocks/block")] *)
Definition blocks_of (root : element string) : list (element string) :=
  blocks_node ← ET.findall root "blocks"; ET.findall blocks_node "block".

(** [process_xml] on a file that parsed to [root]; [basename] is
    [os.path.basename(file_path)]. *)
Definition process_xml (basename : string) (root : element string)
    (st : state) : option state :=
  let g := global_metrics st in
  let debate_id := ET.get_default root "date" basename in
  let participants_mapping :=
    parse_participants (ET.find root "participants") in
  let blocks := blocks_of root in
  let g1 := GlobalAcc (g_debates g + 1) (g_blocks g + length blocks)
              (g_interventions g) (g_sentences g) (g_claims g)
              (g_proposals g) (g_fallacies g) (debates_info g) in
  '(local_interventions_info, st') ←
    process_blocks blocks participants_mapping debate_id []
      (State g1 (speaker_metrics st) (party_metrics st));
  let g2 := global_metrics st' in
  let d :=
    DebateInfo debate_id (length blocks)
      (length local_interventions_info)
      (sum_list (intervention_sentence_count <$> local_interventions_info))
      (local_mapping info_claims_texts local_interventions_info)
      (local_mapping info_proposals_texts local_interventions_info)
      (local_mapping info_fallacies_texts local_interventions_info)
      (sum_list (num_claims <$> local_interventions_info))
      (sum_list (num_proposals <$> local_interventions_info))
      (sum_list (num_fallacies <$> local_interventions_info)) in
  Some (State
          (GlobalAcc (g_debates g2) (g_blocks g2) (g_interventions g2)
             (g_sentences g2) (g_claims g2) (g_proposals g2)
             (g_fallacies g2) (<[debate_id := d]> (debates_info g2)))
          (speaker_metrics st') (party_metrics st')).

(** The loop of [main] over the files found: each with its base name
    and the parsed root, or [None] when [ET.parse] fails, in which case
    [process_xml] returns before any write. *)
Fixpoint process_files (files : list (string * option (element string)))
    (st : state) : option state :=
  match files with
  | [] => Some st
  | (basename, Some root) :: rest =>
      st' ← process_xml basename root st; process_files rest st'
  | (_, None) :: rest => process_files rest st
  end.

Definition main (files : list (string * option (element string)))
    : option state :=
  process_files files initial_state.

End HtmlReports.

(** * Properties *)

(** ** Order of binary64 floats

    The comparisons of primitive floats are specified by [SFcompare] on
    their decoded form; the facts below are the usual laws of an order, for
    operands that compare at all (a NaN compares with nothing). *)

Section float_order.

Local Ltac split_compare :=
  repeat match goal with
  | |- context [(?a ?= ?b)%Z] => destruct (Z.compare_spec a b)
  | H : context [(?a ?= ?b)%Z] |- _ => destruct (Z.compare_spec a b)
  | |- context [(?a ?= ?b)%positive] => destruct (Pos.compare_spec a b)
  | H : context [(?a ?= ?b)%positive] |- _ => destruct (Pos.compare_spec a b)
  end.

Lemma SFcompare_antisym a b :
  SFcompare b a = CompOpp <$> SFcompare a b.
Proof.
  destruct a as [[]|[]| |[] m1 e1], b as [[]|[]| |[] m2 e2];
    simpl; try reflexivity;
    change (Pos.compare_cont Eq) with Pos.compare;
    rewrite (Z.compare_antisym e1 e2), (Pos.compare_antisym m1 m2);
    destruct (e1 ?= e2)%Z; simpl; try reflexivity;
    destruct (m1 ?= m2)%positive; reflexivity.
Qed.

Lemma SFcompare_trans a b c x y :
  SFcompare a b = Some x → SFcompare b c = Some y → x ≠ Gt → y ≠ Gt →
  SFcompare a c = Some (match x with Eq => y | _ => Lt end).
Proof.
  destruct a as [[]|[]| |[] m1 e1], b as [[]|[]| |[] m2 e2],
           c as [[]|[]| |[] m3 e3];
    simpl; intros Hx Hy Nx Ny; try discriminate;
    injection Hx as <-; injection Hy as <-;
    try reflexivity; try (exfalso; congruence);
    f_equal;
    change (Pos.compare_cont Eq) with Pos.compare in *;
    split_compare; simpl in *; try reflexivity; try congruence; try lia.
Qed.

Lemma SFcompare_comparable a b c x y :
  SFcompare a b = Some x → SFcompare a c = Some y →
  is_Some (SFcompare b c).
Proof.
  destruct a as [[]|[]| |[] m1 e1], b as [[]|[]| |[] m2 e2],
           c as [[]|[]| |[] m3 e3];
    simpl; intros; try discriminate; eauto.
Qed.

Lemma leb_compare a b :
  PrimFloat.leb a b = true ↔
  ∃ x, SFcompare (Prim2SF a) (Prim2SF b) = Some x ∧ x ≠ Gt.
Proof.
  rewrite leb_spec. unfold SFleb.
  destruct (SFcompare _ _) as [[]|]; split; intros H; try done; eauto;
    destruct H as (x & [= <-] & ?); done.
Qed.

Lemma ltb_compare a b :
  PrimFloat.ltb a b = true ↔ SFcompare (Prim2SF a) (Prim2SF b) = Some Lt.
Proof.
  rewrite ltb_spec. unfold SFltb.
  destruct (SFcompare _ _) as [[]|]; split; intros H; done.
Qed.

Lemma float_le_trans a b c :
  PrimFloat.leb a b = true → PrimFloat.leb b c = true →
  PrimFloat.leb a c = true.
Proof.
  rewrite !leb_compare. intros (x & Hx & ?) (y & Hy & ?).
  rewrite (SFcompare_trans _ _ _ _ _ Hx Hy) by done.
  eexists; split; [done|]. by destruct x.
Qed.

Lemma float_lt_le_trans a b c :
  PrimFloat.ltb a b = true → PrimFloat.leb b c = true →
  PrimFloat.ltb a c = true.
Proof.
  rewrite !ltb_compare, leb_compare. intros Hx (y & Hy & ?).
  by rewrite (SFcompare_trans _ _ _ _ _ Hx Hy).
Qed.

Lemma float_lt_not_le a b :
  PrimFloat.ltb a b = true → PrimFloat.leb b a = false.
Proof.
  rewrite ltb_compare. intros H. rewrite leb_spec. unfold SFleb.
  by rewrite SFcompare_antisym, H.
Qed.

Lemma float_le_refl_l a b :
  PrimFloat.leb a b = true → PrimFloat.leb a a = true.
Proof.
  rewrite !leb_compare. intros (x & Hx & ?).
  pose proof (SFcompare_antisym (Prim2SF a) (Prim2SF b)) as Hba.
  rewrite Hx in Hba. simpl in Hba.
  destruct (SFcompare_comparable _ _ _ _ _ Hba Hba) as [z Hz].
  pose proof (SFcompare_antisym (Prim2SF a) (Prim2SF a)) as Ha.
  rewrite Hz in Ha. exists z. split; [done|].
  intros ->. simpl in Ha. discriminate.
Qed.

Lemma float_not_lt_le s t s' :
  PrimFloat.leb s t = true → PrimFloat.leb s s' = true →
  PrimFloat.ltb t s' = false → PrimFloat.leb s' t = true.
Proof.
  rewrite !leb_compare. intros (x & Hx & _) (y & Hy & _) Hlt.
  destruct (SFcompare_comparable _ _ _ _ _ Hx Hy) as [z Hz].
  rewrite ltb_spec in Hlt. unfold SFltb in Hlt. rewrite Hz in Hlt.
  rewrite SFcompare_antisym, Hz. simpl.
  exists (CompOpp z). split; [done|]. by destruct z.
Qed.

End float_order.

(** ** Temporal assignment *)

Section temporal.
Import CompileXml.

(** The list is sorted ascending by start time. *)
Definition sorted_by_start (L : list (string * float)) : Prop :=
  ∀ i j a b, i < j → L !! i = Some a → L !! j = Some b →
             PrimFloat.leb a.2 b.2 = true.

(** The scan as a recursion on the list: the first entry whose interval
    [[start, next)] holds the time, else the last entry. *)
Fixpoint assign_from (time : float) (l : list (string * float))
    : option string :=
  match l with
  | [] => None
  | (label, start) :: rest =>
      match rest with
      | [] => Some label
      | (_, next) :: _ =>
          if PrimFloat.leb start time && PrimFloat.ltb time next
          then Some label
          else assign_from time rest
      end
  end.

Lemma assign_scan_from time pre l :
  l ≠ [] →
  match assign_scan time (pre ++ l) (length pre) (length l - 1) with
  | Some label => Some label
  | None => fst <$> last (pre ++ l)
  end = assign_from time l.
Proof.
  revert pre. induction l as [|[label start] [|[label' next] l'] IH];
    intros pre Hne; [done| |].
  - simpl. by rewrite last_snoc.
  - change (length ((label, start) :: (label', next) :: l') - 1)
      with (S (length l')).
    cbn [assign_scan assign_from].
    rewrite (lookup_app_r pre) by lia.
    replace (length pre - length pre) with 0 by lia.
    rewrite (lookup_app_r pre) by lia.
    replace (S (length pre) - length pre) with 1 by lia.
    cbn [lookup list_lookup].
    destruct (PrimFloat.leb start time && PrimFloat.ltb time next); [done|].
    specialize (IH (pre ++ [(label, start)])).
    rewrite <- (assoc_L (++)), length_app in IH. simpl in IH.
    replace (length pre + 1) with (S (length pre)) in IH by lia.
    rewrite Nat.sub_0_r in IH. by apply IH.
Qed.

Lemma assign_block_from time blocks :
  assign_block time blocks = assign_from time blocks.
Proof.
  destruct blocks as [|b l]; [done|].
  by apply (assign_scan_from time []).
Qed.

Lemma assign_topic_block time topics :
  assign_topic time topics = assign_block time topics.
Proof. done. Qed.

Lemma sorted_by_start_tail a l :
  sorted_by_start (a :: l) → sorted_by_start l.
Proof. intros H i j x y ? Hi Hj. apply (H (S i) (S j)); [lia|done..]. Qed.

Lemma assign_from_spec t l first :
  l !! 0 = Some first → sorted_by_start l →
  PrimFloat.leb first.2 t = true →
  ∃ i label start,
    l !! i = Some (label, start) ∧ assign_from t l = Some label
    ∧ PrimFloat.leb start t = true
    ∧ ∀ j e, i < j → l !! j = Some e → PrimFloat.ltb t e.2 = true.
Proof.
  revert first. induction l as [|[label start] [|[label' next] l'] IH];
    intros first Hfirst Hsorted Hle; [done| |].
  - injection Hfirst as <-. exists 0, label, start.
    split_and!; [done..|]. intros [|[|j]] e ? He; by try lia.
  - injection Hfirst as <-. simpl in Hle.
    cbn [assign_from]. rewrite Hle. simpl.
    destruct (PrimFloat.ltb t next) eqn:Hlt.
    + exists 0, label, start. split_and!; [done..|].
      intros [|[|j]] e ? He; [lia|by injection He as <-|].
      apply float_lt_le_trans with next; [done|].
      by apply (Hsorted 1 (S (S j)) (label', next) e); [lia|..].
    + destruct (IH (label', next)) as (i & lb & st & Hi & Hres & Hst & Hafter);
        [done|by eapply sorted_by_start_tail|..].
      { simpl. apply float_not_lt_le with start; [done| |done].
        by apply (Hsorted 0 1 (label, start) (label', next)); [lia|..]. }
      exists (S i), lb, st. split_and!; [done..|].
      intros [|j] e ? He; [lia|]. apply (Hafter j); [lia|done].
Qed.

Lemma assign_from_cons t label start label' next l' :
  assign_from t ((label, start) :: (label', next) :: l')
  = if PrimFloat.leb start t && PrimFloat.ltb t next then Some label
    else assign_from t ((label', next) :: l').
Proof. done. Qed.



Definition example_blocks : list (string * float) :=
  [("Economy", 0.0%float); ("Health", 120.0%float)].

(** C1.  On a non-empty list sorted by start time and a time not before
    the first start, [assign_block] and [assign_topic] return the label
    of the entry at the greatest position whose start is at most the
    time: its start is at most the time, every later start is above the
    time, and no entry with a start at most the time comes later or
    starts later.  On the blocks Economy at 0 and Health at 120, the time
    119.9 gives Economy, 120.0 gives Health and 500.0 gives Health. *)
Theorem assign_block_greatest_start :
  (∀ (t : float) (L : list (string * float)) (first : string * float),
     L !! 0 = Some first → sorted_by_start L →
     PrimFloat.leb first.2 t = true →
     ∃ i label start,
       L !! i = Some (label, start)
       ∧ assign_block t L = Some label ∧ assign_topic t L = Some label
       ∧ PrimFloat.leb start t = true
       ∧ (∀ j e, i < j → L !! j = Some e → PrimFloat.ltb t e.2 = true)
       ∧ (∀ j e, L !! j = Some e → PrimFloat.leb e.2 t = true →
                 j ≤ i ∧ PrimFloat.leb e.2 start = true))
  ∧ assign_block 119.9%float example_blocks = Some "Economy"
  ∧ assign_block 120.0%float example_blocks = Some "Health"
  ∧ assign_block 500.0%float example_blocks = Some "Health"
  ∧ assign_topic 119.9%float example_blocks = Some "Economy"
  ∧ assign_topic 120.0%float example_blocks = Some "Health"
  ∧ assign_topic 500.0%float example_blocks = Some "Health".
Proof.
  split; [|by vm_compute].
  intros t L first Hfirst Hsorted Hle.
  destruct (assign_from_spec t L first Hfirst Hsorted Hle)
    as (i & label & start & Hi & Hres & Hstart & Hafter).
  exists i, label, start.
  change (assign_topic t L) with (assign_block t L).
  rewrite assign_block_from.
  split_and!; [done..|].
  intros j e Hj Hej.
  assert (j ≤ i) as Hji.
  { destruct (decide (j ≤ i)) as [|Hn]; [done|].
    rewrite (float_lt_not_le _ _ (Hafter j e ltac:(lia) Hj)) in Hej.
    discriminate. }
  split; [done|].
  destruct (decide (j = i)) as [->|].
  - rewrite Hi in Hj. injection Hj as <-. simpl.
    by apply float_le_refl_l with t.
  - by apply (Hsorted j i e (label, start)); [lia|..].
Qed.

Lemma example_blocks_sorted : sorted_by_start example_blocks.
Proof.
  intros [|[|i]] [|[|j]] a b ? Hi Hj; simplify_eq/=; try lia; reflexivity.
Defined.

Lemma assign_block_greatest_start_witness :
  ∃ i label start,
    example_blocks !! i = Some (label, start)
    ∧ assign_block 120.0%float example_blocks = Some label
    ∧ assign_topic 120.0%float example_blocks = Some label
    ∧ PrimFloat.leb start 120.0%float = true
    ∧ (∀ j e, i < j → example_blocks !! j = Some e →
              PrimFloat.ltb 120.0%float e.2 = true)
    ∧ (∀ j e, example_blocks !! j = Some e →
              PrimFloat.leb e.2 120.0%float = true →
              j ≤ i ∧ PrimFloat.leb e.2 start = true).
Proof.
  apply (proj1 assign_block_greatest_start 120.0%float example_blocks
           ("Economy", 0.0%float)).
  - reflexivity.
  - exact example_blocks_sorted.
  - reflexivity.
Defined.









End temporal.

(** ** Mentions of one intervention *)

Section mentions.
Import CompileXml.

(** Strictly below in the lexicographic order of [(type, text)]. *)
Definition mention_lt (a b : string * string) : Prop :=
  strict String.le a.1 b.1 ∨ (a.1 = b.1 ∧ strict String.le a.2 b.2).

Global Instance mention_le_total : Total mention_le.
Proof.
  intros a b. unfold mention_le.
  destruct (decide (a.1 = b.1)) as [Heq|Hne].
  - rewrite decide_True by done. apply (total String.le).
  - rewrite (decide_False (P := b.1 = a.1)) by done. apply (total String.le).
Qed.

Global Instance mention_le_trans : Transitive mention_le.
Proof.
  intros a b c. unfold mention_le.
  destruct (decide (a.1 = b.1)) as [Hab|Hab], (decide (b.1 = c.1)) as [Hbc|Hbc].
  - rewrite decide_True by congruence. by etrans.
  - rewrite decide_False by congruence. by rewrite Hab.
  - rewrite decide_False by congruence. by rewrite Hbc.
  - intros H1 H2. destruct (decide (a.1 = c.1)) as [Hac|Hac].
    + exfalso. apply Hbc. rewrite Hac in H1.
      by apply (anti_symm String.le).
    + by etrans.
Qed.

Lemma mention_le_lt a b : mention_le a b → a ≠ b → mention_lt a b.
Proof.
  unfold mention_le, mention_lt. destruct a as [a1 a2], b as [b1 b2]. simpl.
  destruct (decide (a1 = b1)) as [->|Hne]; intros Hle Hab.
  - right. split; [done|]. apply strict_spec_alt. split; [done|congruence].
  - left. apply strict_spec_alt. by split.
Qed.

Lemma StronglySorted_strict (l : list (string * string)) :
  StronglySorted mention_le l → NoDup l → StronglySorted mention_lt l.
Proof.
  induction 1 as [|a l Hl IH Hall]; intros Hnd; [constructor|].
  apply NoDup_cons in Hnd as [Ha Hnd]. constructor; [by apply IH|].
  apply Forall_forall. intros b Hb.
  apply mention_le_lt; [by eapply Forall_forall in Hall|].
  intros ->. done.
Qed.

Lemma sorted_mentions_perm entidades :
  sorted_mentions entidades
  ≡ₚ elements (list_to_set entidades : gset (string * string)).
Proof. apply merge_sort_Permutation. Qed.

(** The mentions of the intervention, read back as [(id, type, text)]. *)
Definition mention_triples (intervention : tree)
    : list (option string * option string * option string) :=
  node ← option_list (ET.find intervention "mentions");
  (λ m, (ET.tget m "id", ET.tget m "type", ET.tget m "text"))
    <$> ET.findall node "mention".

(** The interventions appended so far, each as its key and mentions. *)
Definition placed_mentions (st : nat * list (string * tree))
    : list (string * list (option string * option string * option string)) :=
  (λ p : string * tree, (p.1, mention_triples p.2)) <$> st.2.

Definition example_entities : list (float * list (string * string)) :=
  [(62.5%float, [("PER", "Ana"); ("PER", "Ana"); ("ORG", "X")])].

Definition example_row : row :=
  Row 62.5%float "Ana" "Hola. Buenas noches" ∅.

(** C8.  The mentions of one intervention are the distinct [(type, text)]
    pairs of the entities found for its time, in strictly ascending
    lexicographic order of [(type, text)]; the intervention has one
    [mentions] child whose [k]-th child carries the [k]-th pair with the
    identifier [e] followed by [k].  For the entities PER Ana, PER Ana,
    ORG X at one time the intervention holds the two mentions ORG X and
    PER Ana, in this order, numbered e0 and e1. *)
Theorem mentions_dedup_sorted :
  (∀ entidades : list (string * string),
     NoDup (sorted_mentions entidades)
     ∧ (∀ m, m ∈ sorted_mentions entidades ↔ m ∈ entidades)
     ∧ StronglySorted mention_lt (sorted_mentions entidades))
  ∧ (∀ id pid topic entidades props fcs r k m,
       sorted_mentions entidades !! k = Some m →
       ∃ node,
         ET.find (intervention_element id pid topic
                    (sorted_mentions entidades) props fcs r) "mentions"
         = Some node
         ∧ length (children node) = length (sorted_mentions entidades)
         ∧ children node !! k = Some (mention_element k m)
         ∧ tag (mention_element k m) = "mention"
         ∧ ET.tget (mention_element k m) "id" = Some ("e" +:+ pretty k)
         ∧ ET.tget (mention_element k m) "type" = Some m.1
         ∧ ET.tget (mention_element k m) "text" = Some m.2)
  ∧ sorted_mentions (assign_entities 62.5%float example_entities)
    = [("ORG", "X"); ("PER", "Ana")]
  ∧ placed_mentions
      <$> place_turn [("Economy", 0.0%float)] [("Pensiones", 0.0%float)]
            example_entities [] [] {["Ana" := "p0"]} (0, []) example_row
    = Some [("Economy",
             [(Some "e0", Some "ORG", Some "X");
              (Some "e1", Some "PER", Some "Ana")])].
Proof.
  split_and!; [| |by vm_compute..].
  - intros entidades.
    assert (NoDup (sorted_mentions entidades)) as Hnd.
    { rewrite sorted_mentions_perm. apply NoDup_elements. }
    split_and!; [done| |].
    + intros m. rewrite sorted_mentions_perm, elem_of_elements.
      apply elem_of_list_to_set.
    + apply StronglySorted_strict; [|done].
      apply StronglySorted_merge_sort; apply _.
  - intros id pid topic entidades props fcs r k m Hk.
    destruct (sorted_mentions entidades) as [|m0 ms] eqn:Hms; [done|].
    eexists. split; [reflexivity|]. simpl.
    split_and!; try done.
    + by rewrite length_imap.
    + destruct k as [|k]; simpl in *; [by simplify_eq|].
      rewrite list_lookup_imap, Hk. done.
Qed.

Lemma mentions_dedup_sorted_witness :
  ∃ node,
    ET.find (intervention_element 0 "p0" None
               (sorted_mentions [("PER", "Ana"); ("PER", "Ana"); ("ORG", "X")])
               None None example_row) "mentions"
    = Some node
    ∧ length (children node)
      = length (sorted_mentions [("PER", "Ana"); ("PER", "Ana"); ("ORG", "X")])
    ∧ children node !! 1 = Some (mention_element 1 ("PER", "Ana"))
    ∧ tag (mention_element 1 ("PER", "Ana")) = "mention"
    ∧ ET.tget (mention_element 1 ("PER", "Ana")) "id" = Some ("e" +:+ pretty 1)
    ∧ ET.tget (mention_element 1 ("PER", "Ana")) "type" = Some "PER"
    ∧ ET.tget (mention_element 1 ("PER", "Ana")) "text" = Some "Ana".
Proof.
  apply (proj1 (proj2 mentions_dedup_sorted) 0 "p0" None
           [("PER", "Ana"); ("PER", "Ana"); ("ORG", "X")] None None
           example_row 1 ("PER", "Ana")).
  reflexivity.
Defined.
End mentions.

(** ** Merge of the classifier's answer *)

Section merge_back.
Import ClassifyEmotions.

(** The tests of the two loops of the merge. *)
Definition hits_sentence (sent_id : option string) (s : tree) : bool :=
  ET.has_tag "sentence" s && bool_decide (ET.tget s "id" = sent_id).

Definition hits_intervention (int_id : option string) (c : tree) : bool :=
  ET.has_tag "intervention" c && bool_decide (ET.tget c "id" = int_id).

Lemma hits_sentence_set sent_id s v :
  hits_sentence sent_id (ET.set s "emotions" v) = hits_sentence sent_id s.
Proof.
  destruct s as [t a x cs]. unfold hits_sentence, ET.tget, ET.set. simpl.
  by rewrite lookup_insert_ne.
Qed.

Lemma set_set {V} (s : element V) k v v' :
  ET.set (ET.set s k v) k v' = ET.set s k v'.
Proof. destruct s. unfold ET.set. simpl. by rewrite insert_insert_eq. Qed.

Lemma with_children_id {V} (e : element V) :
  ET.with_children e (children e) = e.
Proof. by destruct e. Qed.

Lemma length_tag_sentence sent_id tags cs :
  length (tag_sentence sent_id tags cs) = length cs.
Proof.
  induction cs as [|s cs IH]; simpl; [done|].
  destruct (_ && _); simpl; by rewrite ?IH.
Qed.

(** Position [j] holds the first sentence of [cs] that the record hits. *)
Definition first_hit (sent_id : option string) (cs : list tree) (j : nat) : Prop :=
  (∃ s, cs !! j = Some s ∧ hits_sentence sent_id s = true)
  ∧ ∀ j' s', j' < j → cs !! j' = Some s' → hits_sentence sent_id s' = false.

Lemma tag_sentence_lookup sent_id tags cs j s :
  cs !! j = Some s →
  (first_hit sent_id cs j →
   tag_sentence sent_id tags cs !! j = Some (ET.set s "emotions" tags))
  ∧ (¬ first_hit sent_id cs j →
     tag_sentence sent_id tags cs !! j = Some s).
Proof.
  revert j. induction cs as [|s0 cs IH]; intros j Hj; [done|].
  simpl. fold (hits_sentence sent_id s0).
  destruct (hits_sentence sent_id s0) eqn:Hs0.
  - destruct j as [|j]; simpl in *.
    + injection Hj as ->. split; [done|]. intros Hn. exfalso. apply Hn.
      split; [by exists s|]. intros; lia.
    + split; [|done]. intros [_ Hbefore].
      specialize (Hbefore 0 s0 ltac:(lia) eq_refl). congruence.
  - destruct j as [|j]; simpl in *.
    + injection Hj as ->. split; [|done].
      intros [(s' & [= <-] & Hs') _]. congruence.
    + destruct (IH j Hj) as [IH1 IH2]. split; intros Hf.
      * apply IH1. destruct Hf as [Hhit Hbefore]. split; [done|].
        intros j' s' ? Hj'. apply (Hbefore (S j')); [lia|done].
      * apply IH2. intros [Hhit Hbefore]. apply Hf. split; [done|].
        intros [|j'] s' ? Hj'; simpl in Hj'; [congruence|].
        apply (Hbefore j'); [lia|done].
Qed.

(** The parsed lines as triples [(int_id, sent_id, tags)]. *)
Definition record_of (e : element string)
    : option string * option string * option string :=
  (ET.get e "int_id", ET.get e "sent_id", ET.get e "tags").

Definition records (lines : list (option (element string)))
    : list (option string * option string * option string) :=
  omap (fmap record_of) lines.

Definition visit (r : option string * option string * option string)
    (c : tree) : tree :=
  visit_intervention r.1.1 r.1.2 r.2 c.

(** All records on one child of the root. *)
Definition visit_all
    (rs : list (option string * option string * option string)) (c : tree)
    : tree :=
  foldl (λ c r, visit r c) c rs.

(** The records that hit the intervention [c], as [(sent_id, tags)]. *)
Definition ops_for (c : tree)
    (rs : list (option string * option string * option string))
    : list (option string * option string) :=
  (λ r, (r.1.2, r.2)) <$> filter (λ r, hits_intervention r.1.1 c = true) rs.

Definition tag_all (ops : list (option string * option string))
    (cs : list tree) : list tree :=
  foldl (λ cs op, tag_sentence op.1 op.2 cs) cs ops.

(** The writes to one sentence, which the test [h] selects. *)
Definition set_all (h : option string → bool)
    (ops : list (option string * option string)) (s : tree) : tree :=
  foldl (λ x op, if h op.1 then ET.set x "emotions" op.2 else x) s ops.

Definition last_hit (h : option string → bool)
    (ops : list (option string * option string)) : option (option string) :=
  last (snd <$> filter (λ op, h op.1 = true) ops).

Lemma merge_back_records lines root :
  merge_back lines root
  = foldl (λ root r,
             ET.with_children root (visit r <$> children root))
          root (records lines).
Proof.
  unfold merge_back, records. revert root.
  induction lines as [|[e|] lines IH]; intros root; simpl; [done| |];
    by rewrite IH.
Qed.

Lemma merge_back_children lines root :
  merge_back lines root
  = ET.with_children root (visit_all (records lines) <$> children root).
Proof.
  rewrite merge_back_records. generalize (records lines). intros rs.
  revert root. induction rs as [|r rs IH]; intros root; simpl.
  - destruct root as [t a x cs]. unfold ET.with_children. simpl.
    by rewrite list_fmap_id.
  - rewrite IH. destruct root as [t a x cs]. unfold ET.with_children. simpl.
    by rewrite <- list_fmap_compose.
Qed.

Lemma hits_intervention_with_children int_id c cs :
  hits_intervention int_id (ET.with_children c cs) = hits_intervention int_id c.
Proof. reflexivity. Qed.

Lemma ops_for_with_children c cs rs :
  ops_for (ET.with_children c cs) rs = ops_for c rs.
Proof.
  reflexivity.
Qed.

Lemma visit_all_children rs c :
  visit_all rs c = ET.with_children c (tag_all (ops_for c rs) (children c)).
Proof.
  revert c. induction rs as [|[[int_id sent_id] tags] rs IH]; intros c.
  - by destruct c.
  - change (visit_all ((int_id, sent_id, tags) :: rs) c)
      with (visit_all rs (visit_intervention int_id sent_id tags c)).
    unfold visit_intervention. fold (hits_intervention int_id c).
    unfold ops_for. destruct (hits_intervention int_id c) eqn:Hc.
    + rewrite filter_cons_True by done. rewrite IH.
      rewrite ops_for_with_children. by destruct c.
    + rewrite filter_cons_False by (simpl; congruence). apply IH.
Qed.

Lemma tag_all_cons h ops s rest :
  (∀ sid, hits_sentence sid s = h sid) →
  tag_all ops (s :: rest)
  = set_all h ops s :: tag_all (filter (λ op, h op.1 = false) ops) rest.
Proof.
  revert s rest. induction ops as [|[sid tags] ops IH]; intros s rest Hh;
    [done|].
  change (tag_all ((sid, tags) :: ops) (s :: rest))
    with (tag_all ops (tag_sentence sid tags (s :: rest))).
  simpl. fold (hits_sentence sid s). rewrite Hh.
  destruct (h sid) eqn:Hsid.
  - rewrite filter_cons_False by (simpl; congruence).
    rewrite (IH (ET.set s "emotions" tags) rest).
    + unfold set_all. simpl. by rewrite ?Hsid.
    + intros sid'. by rewrite hits_sentence_set.
  - rewrite filter_cons_True by done.
    rewrite (IH s (tag_sentence sid tags rest)) by done.
    unfold set_all. simpl. by rewrite ?Hsid.
Qed.

Lemma set_all_last_hit h ops s :
  set_all h ops s
  = match last_hit h ops with
    | Some tags => ET.set s "emotions" tags
    | None => s
    end.
Proof.
  revert s. induction ops as [|[sid tags] ops IH]; intros s; [done|].
  change (set_all h ((sid, tags) :: ops) s)
    with (set_all h ops (if h sid then ET.set s "emotions" tags else s)).
  rewrite IH. unfold last_hit. destruct (h sid) eqn:Hsid.
  - rewrite filter_cons_True by done. rewrite fmap_cons, last_cons.
    destruct (last _); [|done]. by rewrite set_set.
  - by rewrite filter_cons_False by (simpl; congruence).
Qed.

Lemma hits_sentence_set_all h ops s sid :
  hits_sentence sid (set_all h ops s) = hits_sentence sid s.
Proof.
  rewrite set_all_last_hit. destruct (last_hit h ops); [|done].
  apply hits_sentence_set.
Qed.

Lemma set_all_idemp h ops s :
  set_all h ops (set_all h ops s) = set_all h ops s.
Proof.
  rewrite !set_all_last_hit. destruct (last_hit h ops); [|done].
  by rewrite set_set.
Qed.

Lemma tag_all_idemp ops cs :
  tag_all ops (tag_all ops cs) = tag_all ops cs.
Proof.
  revert ops. induction cs as [|s rest IH]; intros ops.
  - assert (∀ o, tag_all o [] = []) as Hnil by (by induction o).
    by rewrite !Hnil.
  - rewrite (tag_all_cons (λ sid, hits_sentence sid s) ops s rest) by done.
    rewrite (tag_all_cons (λ sid, hits_sentence sid s)).
    + by rewrite set_all_idemp, IH.
    + intros sid. apply hits_sentence_set_all.
Qed.

(** C5.  Merging the same answer a second time changes nothing: the
    tree after two merges is the tree after one.  This holds for every
    tree and every list of lines, well-formed or not. *)
Theorem merge_back_idempotent
    (lines : list (option (element string))) (root : tree) :
  merge_back lines (merge_back lines root) = merge_back lines root.
Proof.
  rewrite (merge_back_children lines (merge_back lines root)).
  rewrite (merge_back_children lines root).
  destruct root as [t a x cs]. unfold ET.with_children. simpl. f_equal.
  rewrite <- list_fmap_compose. apply list_fmap_ext. intros _ c _. simpl.
  rewrite (visit_all_children _ (visit_all _ c)).
  rewrite (visit_all_children _ c).
  rewrite ops_for_with_children.
  destruct c as [tc ac xc csc]. unfold ET.with_children. simpl.
  by rewrite tag_all_idemp.
Qed.

(** C6, as the code has it.  One record leaves the root and every child
    of the root as they are, up to the children of the interventions
    whose [id] equals [int_id]: in each of them the first sentence whose
    [id] equals [sent_id] gets the attribute, and every other sentence
    stays as it is.  Every intervention with that [id] is treated so. *)
Theorem merge_record_first_match_per_intervention
    (emotion_elem : element string) (root : tree) :
  let int_id := ET.get emotion_elem "int_id" in
  let sent_id := ET.get emotion_elem "sent_id" in
  let tags := ET.get emotion_elem "tags" in
  let root' := merge_record emotion_elem root in
  tag root' = tag root ∧ attrib root' = attrib root ∧ text root' = text root
  ∧ length (children root') = length (children root)
  ∧ ∀ i c, children root !! i = Some c →
      ∃ c', children root' !! i = Some c'
        ∧ tag c' = tag c ∧ attrib c' = attrib c ∧ text c' = text c
        ∧ length (children c') = length (children c)
        ∧ ∀ j s, children c !! j = Some s →
            (hits_intervention int_id c = true →
             first_hit sent_id (children c) j →
             children c' !! j = Some (ET.set s "emotions" tags))
            ∧ (¬ (hits_intervention int_id c = true
                  ∧ first_hit sent_id (children c) j) →
               children c' !! j = Some s).
Proof.
  intros int_id sent_id tags root'. subst root'. unfold merge_record.
  fold int_id sent_id tags. destruct root as [t a x cs]. simpl.
  split_and!; [done..|by rewrite length_fmap|].
  intros i c Hi. rewrite list_lookup_fmap, Hi. simpl.
  eexists. split; [done|]. unfold visit_intervention.
  fold (hits_intervention int_id c).
  destruct (hits_intervention int_id c) eqn:Hc.
  - destruct c as [tc ac xc csc]. simpl.
    split_and!; [done..|apply length_tag_sentence|].
    intros j s Hj.
    destruct (tag_sentence_lookup sent_id tags csc j s Hj) as [H1 H2].
    split; [by auto|]. intros Hn. apply H2. intros Hf. by apply Hn.
  - split_and!; [done..|]. intros j s Hj. split; [done|]. by intros _.
Qed.

(** A document in which two interventions carry the same [id]. *)
Definition duplicate_id_document : element string :=
  Element "debate" ∅ None
    [Element "blocks" ∅ None
       [Element "block" {["id" := "b0"]} None
          [Element "interventions" ∅ None
             [Element "intervention" {["id" := "i000"]} None
                [Element "sentences" ∅ None
                   [Element "sentence" {["id" := "s0"]} (Some "Buenas noches") []]];
              Element "intervention" {["id" := "i000"]} None
                [Element "sentences" ∅ None
                   [Element "sentence" {["id" := "s0"]} (Some "Muchas gracias") []]]]]]].

Definition joy_record : element string :=
  Element "emotion"
    (<["int_id" := "i000"]> (<["sent_id" := "s0"]> {["tags" := "joy"]}))
    None [].

(** The [emotions] attributes of the sentences of a written document,
    intervention by intervention. *)
Definition written_emotions (out : element string)
    : list (list (option string)) :=
  (λ c, (λ s, ET.get s "emotions") <$> children c) <$> children out.

(** C6 as stated fails: with two interventions of the same [id], one
    record tags a sentence in each, not only the first of the document. *)
Lemma merge_tags_every_intervention_with_the_id :
  written_emotions <$> generate_emotions duplicate_id_document [Some joy_record]
  = Some [[Some "joy"]; [Some "joy"]].
Proof. by vm_compute. Qed.
End merge_back.

(** ** What the merge leaves unchanged *)

Section merge_frame.
Import ClassifyEmotions.

Lemma element_ind' {V} (P : element V → Prop) :
  (∀ t a x cs, Forall P cs → P (Element t a x cs)) → ∀ e, P e.
Proof.
  intros H. fix IH 1. intros [t a x cs]. apply H.
  induction cs as [|c cs IHcs]; constructor; [apply IH|apply IHcs].
Qed.

(** The element without the [emotions] attribute of any sentence. *)
Fixpoint erase_emotions {V} (e : element V) : element V :=
  let 'Element t a x cs := e in
  Element t (if decide (t = "sentence") then delete "emotions" a else a) x
          (erase_emotions <$> cs).

Lemma erase_unfold {V} t (a : gmap string V) x cs :
  erase_emotions (Element t a x cs)
  = Element t (if decide (t = "sentence") then delete "emotions" a else a) x
            (erase_emotions <$> cs).
Proof. reflexivity. Qed.

Local Arguments erase_emotions : simpl never.
Local Arguments ET.lift : simpl never.

Lemma serialize_unfold t a x cs :
  ET.serialize (Element t a x cs)
  = a' ← ET.str_attrib a; cs' ← mapM ET.serialize cs;
    Some (Element t a' x cs').
Proof.
  reflexivity.
Qed.

Lemma str_attrib_lift a a' :
  ET.str_attrib a = Some a' → Some <$> a' = a.
Proof.
  unfold ET.str_attrib. destruct (decide _) as [Hall|]; [|done].
  intros [= <-]. apply map_eq. intros k.
  rewrite lookup_fmap, lookup_omap.
  destruct (a !! k) as [[v|]|] eqn:Hk; simpl; [done| |done].
  by destruct (Hall k None Hk).
Qed.

Lemma lift_unfold t a x cs :
  ET.lift (Element t a x cs) = Element t (Some <$> a) x (ET.lift <$> cs).
Proof. reflexivity. Qed.

Lemma serialize_lift w out :
  ET.serialize w = Some out → ET.lift out = w.
Proof.
  revert out. induction w as [t a x cs IH] using element_ind'.
  intros out. rewrite serialize_unfold.
  destruct (ET.str_attrib a) as [a'|] eqn:Ha; simpl; [|done].
  destruct (mapM ET.serialize cs) as [cs'|] eqn:Hcs; simpl; [|done].
  intros [= <-]. rewrite lift_unfold, (str_attrib_lift _ _ Ha). f_equal.
  apply mapM_Some in Hcs. clear Ha.
  induction Hcs as [|c c' cs cs' Hc Hcs IHcs]; [done|].
  apply Forall_cons in IH as [IHc IH]. rewrite fmap_cons.
  by rewrite (IHc _ Hc), IHcs.
Qed.

Lemma erase_set_sentence (s : tree) v :
  ET.has_tag "sentence" s = true →
  erase_emotions (ET.set s "emotions" v) = erase_emotions s.
Proof.
  destruct s as [t a x cs]. unfold ET.has_tag, ET.set. simpl.
  intros ->%bool_decide_eq_true. rewrite !erase_unfold. simpl.
  by rewrite delete_insert_eq.
Qed.

Lemma erase_tag_sentence sent_id tags cs :
  erase_emotions <$> tag_sentence sent_id tags cs = erase_emotions <$> cs.
Proof.
  induction cs as [|s cs IH]; [done|]. cbn [tag_sentence].
  destruct (ET.has_tag "sentence" s) eqn:Hs; cbn [andb].
  - destruct (bool_decide _); rewrite !fmap_cons; [|by rewrite IH].
    by rewrite erase_set_sentence.
  - by rewrite !fmap_cons, IH.
Qed.

Lemma erase_visit_intervention int_id sent_id tags c :
  erase_emotions (visit_intervention int_id sent_id tags c) = erase_emotions c.
Proof.
  unfold visit_intervention. destruct (_ && _); [|done].
  destruct c as [t a x cs]. unfold ET.with_children. simpl.
  by rewrite !erase_unfold, erase_tag_sentence.
Qed.

Lemma erase_merge_back lines root :
  erase_emotions (merge_back lines root) = erase_emotions root.
Proof.
  unfold merge_back. revert root.
  induction lines as [|[e|] lines IH]; intros root; simpl; [done| |apply IH].
  rewrite IH. unfold merge_record, ET.with_children.
  destruct root as [t a x cs]. simpl. rewrite !erase_unfold.
  f_equal. rewrite <- list_fmap_compose. apply list_fmap_ext.
  intros _ c _. apply erase_visit_intervention.
Qed.

Lemma new_sentence_shape sentence s :
  new_sentence sentence = Some s →
  erase_emotions s = s ∧ attrib s !! "emotions" = None.
Proof.
  unfold new_sentence. destruct (text sentence) as [x|]; [|done].
  destruct (PyStr.truthy x); [|done]. intros [= <-].
  rewrite erase_unfold. simpl. by rewrite delete_singleton_ne.
Qed.

Lemma erase_filtered_root root :
  erase_emotions (filtered_root root) = filtered_root root.
Proof.
  unfold filtered_root. rewrite erase_unfold. simpl. f_equal.
  rewrite <- list_fmap_compose. apply list_fmap_ext. intros _ iv _.
  unfold new_intervention. simpl. rewrite erase_unfold. simpl. f_equal.
  generalize (ET.findall_deep iv "sentence"). intros l.
  induction l as [|s l IH]; [done|]. simpl.
  destruct (new_sentence s) as [s'|] eqn:Hs; [|done]. simpl.
  f_equal; [by destruct (new_sentence_shape _ _ Hs)|exact IH].
Qed.

Lemma tag_all_nil ops : tag_all ops [] = [].
Proof. by induction ops. Qed.

Lemma tag_all_lookup ops cs j sw :
  tag_all ops cs !! j = Some sw →
  ∃ s, cs !! j = Some s
       ∧ (sw = s
          ∨ ∃ op, op ∈ ops ∧ hits_sentence op.1 s = true
                  ∧ sw = ET.set s "emotions" op.2).
Proof.
  revert ops j. induction cs as [|s rest IH]; intros ops j.
  { by rewrite tag_all_nil. }
  rewrite (tag_all_cons (λ sid, hits_sentence sid s)) by done.
  destruct j as [|j]; simpl.
  - intros [= <-]. exists s. split; [done|].
    rewrite set_all_last_hit. unfold last_hit.
    destruct (last _) as [tags|] eqn:Hlast; [|by left]. right.
    apply last_Some_elem_of, list_elem_of_fmap in Hlast
      as ([sid tags'] & -> & [Hhit Hop]%list_elem_of_filter).
    by exists (sid, tags').
  - intros Hj. destruct (IH _ _ Hj) as (s' & Hs' & [->|(op & Hop & ?)]).
    + exists s'. by split; [|left].
    + exists s'. split; [done|]. right. exists op.
      by apply list_elem_of_filter in Hop as [_ Hop].
Qed.

Lemma merge_back_lookup lines root i cw j sw :
  children (merge_back lines root) !! i = Some cw →
  children cw !! j = Some sw →
  ∃ c s, children root !! i = Some c ∧ children c !! j = Some s
         ∧ attrib cw = attrib c
         ∧ (sw = s
            ∨ ∃ e, Some e ∈ lines
                   ∧ hits_intervention (ET.get e "int_id") c = true
                   ∧ hits_sentence (ET.get e "sent_id") s = true
                   ∧ sw = ET.set s "emotions" (ET.get e "tags")).
Proof.
  rewrite merge_back_children. destruct root as [t a x cs]. simpl.
  rewrite list_lookup_fmap. destruct (cs !! i) as [c|] eqn:Hc; [|done].
  simpl. intros [= <-]. rewrite visit_all_children.
  destruct c as [tc ac xc csc]. simpl. intros Hsw.
  destruct (tag_all_lookup _ _ _ _ Hsw) as (s & Hs & Hcase).
  exists (Element tc ac xc csc), s. split_and!; [done..|].
  destruct Hcase as [->|(op & Hop & Hhit & ->)]; [by left|right].
  unfold ops_for in Hop.
  apply list_elem_of_fmap in Hop
    as ([[int_id sent_id] tags] & -> & [Hc' Hr]%list_elem_of_filter).
  unfold records in Hr. apply list_elem_of_omap in Hr as (line & Hline & Hrec).
  destruct line as [e|]; [|done]. unfold record_of in Hrec.
  simpl in Hrec. injection Hrec as <- <- <-.
  by exists e.
Qed.

(** A document as [compile_xml.py] assembles it, and an answer of the
    classifier for its one sentence. *)
Definition assembled_document : element string :=
  Element "debate"
    (<["date" := "2019-04-22"]>
       (<["election-date" := "2019-04-28"]> {["media" := "RTVE"]}))
    None
    [Element "participants" ∅ None
       [Element "participant"
          (<["id" := "p0"]> (<["full-name" := "Ana"]> {["party" := "A"]}))
          None []];
     Element "blocks" ∅ None
       [Element "block" (<["id" := "b0"]> {["topic" := "Economy"]}) None
          [Element "interventions" ∅ None
             [Element "intervention"
                (<["id" := "i000"]>
                   (<["participant-id" := "p0"]> {["topic" := "Pensiones"]}))
                None
                [Element "sentences" ∅ None
                   [Element "sentence" {["id" := "s0"]}
                      (Some "Buenas noches") []]]]]]].

Definition written_example : element string :=
  Element "debate" ∅ None
    [Element "intervention" {["id" := "i000"]} None
       [Element "sentence" (<["id" := "s0"]> {["emotions" := "joy"]})
          (Some "Buenas noches") []]].

(** C7 as stated fails: the document written for an assembled document
    differs from it in more than the [emotions] attributes; it has no
    participants and no blocks. *)
Lemma written_document_is_not_the_input :
  generate_emotions assembled_document [Some joy_record] = Some written_example
  ∧ erase_emotions written_example ≠ erase_emotions assembled_document
  ∧ ET.find assembled_document "participants" ≠ None
  ∧ ET.find written_example "participants" = None
  ∧ ET.find written_example "blocks" = None.
Proof.
  split_and!; [by vm_compute| |done..].
  intros H. apply (f_equal (λ e, length (children e))) in H.
  vm_compute in H. discriminate.
Qed.

(** C7, as the code has it.  The document written is the reduced
    document built from the input (an element per intervention with its
    [id], an element per sentence with a non-empty text with its [id]
    and stripped text), up to [emotions] attributes of sentences; and a
    sentence carries an [emotions] attribute only if a line of the answer
    names its intervention and itself and gives that value. *)
Theorem written_document_frame
    (doc : element string) (lines : list (option (element string)))
    (out : element string) :
  generate_emotions doc lines = Some out →
  erase_emotions (ET.lift out) = filtered_root doc
  ∧ ∀ i c j s v,
      children out !! i = Some c → children c !! j = Some s →
      ET.get s "emotions" = Some v →
      ∃ e, Some e ∈ lines
           ∧ ET.get e "int_id" = ET.get c "id"
           ∧ ET.get e "sent_id" = ET.get s "id"
           ∧ ET.get e "tags" = Some v.
Proof.
  unfold generate_emotions. intros Hout. apply serialize_lift in Hout.
  split.
  { by rewrite Hout, erase_merge_back, erase_filtered_root. }
  intros i c j s v Hc Hs Hv.
  assert (children (merge_back lines (filtered_root doc)) !! i
          = Some (ET.lift c)) as Hc'.
  { rewrite <- Hout. destruct out as [t a x cs]. simpl in *.
    by rewrite list_lookup_fmap, Hc. }
  assert (children (ET.lift c) !! j = Some (ET.lift s)) as Hs'.
  { destruct c as [t a x cs]. simpl in *. by rewrite list_lookup_fmap, Hs. }
  destruct (merge_back_lookup _ _ _ _ _ _ Hc' Hs')
    as (c0 & s0 & Hc0 & Hs0 & Hattr & Hcase).
  assert (attrib s0 !! "emotions" = None) as Hnone.
  { unfold filtered_root in Hc0. simpl in Hc0.
    apply list_lookup_fmap_Some in Hc0 as (iv & -> & _).
    simpl in Hs0. apply list_elem_of_lookup_2, list_elem_of_omap in Hs0
      as (sentence & _ & Hnew).
    by destruct (new_sentence_shape _ _ Hnew). }
  assert (∀ (e : element string) k, ET.tget (ET.lift e) k = ET.get e k) as Hget.
  { intros [t a x cs] k. unfold ET.tget, ET.get. simpl.
    rewrite lookup_fmap. by destruct (a !! k). }
  destruct Hcase as [Heq|(e & He & Hhc & Hhs & Heq)].
  - rewrite <- Hget, Heq in Hv. unfold ET.tget in Hv.
    by rewrite Hnone in Hv.
  - exists e. split; [done|].
    apply andb_prop in Hhc as [_ Hid%bool_decide_eq_true].
    apply andb_prop in Hhs as [_ Hsid%bool_decide_eq_true].
    split_and!.
    + rewrite <- (Hget c), <- Hid. unfold ET.tget. by rewrite Hattr.
    + rewrite <- (Hget s), Heq, <- Hsid. destruct s0 as [t a x cs].
      unfold ET.tget, ET.set. simpl. by rewrite lookup_insert_ne.
    + rewrite <- Hget, Heq in Hv. destruct s0 as [t a x cs].
      unfold ET.tget, ET.set in Hv. simpl in Hv.
      by rewrite lookup_insert_eq in Hv.
Qed.

Lemma written_document_frame_witness :
  generate_emotions assembled_document [Some joy_record] = Some written_example
  ∧ erase_emotions (ET.lift written_example) = filtered_root assembled_document
  ∧ ∀ i c j s v,
      children written_example !! i = Some c → children c !! j = Some s →
      ET.get s "emotions" = Some v →
      ∃ e, Some e ∈ [Some joy_record]
           ∧ ET.get e "int_id" = ET.get c "id"
           ∧ ET.get e "sent_id" = ET.get s "id"
           ∧ ET.get e "tags" = Some v.
Proof.
  assert (generate_emotions assembled_document [Some joy_record]
          = Some written_example) as H by (vm_compute; reflexivity).
  exact (conj H (written_document_frame _ _ _ H)).
Defined.
End merge_frame.

(** ** Aggregation: counts and text dictionaries *)

Section texts.
Import HtmlReports.

(** The three kinds of item that an intervention carries. *)
Inductive kind := Claim | Proposal | Fallacy.

Definition texts_of (k : kind) (t : totals) : gmap string origin :=
  match k with
  | Claim => claims_texts t
  | Proposal => proposals_texts t
  | Fallacy => fallacies_texts t
  end.

Definition count_of (k : kind) (t : totals) : nat :=
  match k with
  | Claim => claims t
  | Proposal => proposals t
  | Fallacy => fallacies t
  end.

Definition info_texts (k : kind) (i : info) : list text_entry :=
  match k with
  | Claim => info_claims_texts i
  | Proposal => info_proposals_texts i
  | Fallacy => info_fallacies_texts i
  end.

Definition info_count (k : kind) (i : info) : nat :=
  match k with
  | Claim => num_claims i
  | Proposal => num_proposals i
  | Fallacy => num_fallacies i
  end.

(** [participants_mapping.get(pid, {}).get("full_name", "Unknown")] *)
Definition speaker_name_of (intervention : element string)
    (participants_mapping : gmap (option string) participant) : string :=
  from_option full_name "Unknown"
    (participants_mapping !! ET.get intervention "participant-id").

Definition origin_of (debate_id : string) (i : info) : origin :=
  (debate_id, intervention_id i, full_intervention_text i).

Lemma record_texts_notin m l f :
  f ∉ te_formatted <$> l → record_texts m l !! f = m !! f.
Proof.
  revert m. induction l as [|e l IH]; intros m Hf; [done|].
  rewrite fmap_cons, not_elem_of_cons in Hf. destruct Hf as [Hne Hf].
  change (record_texts m (e :: l))
    with (record_texts
            (<[te_formatted e := (te_debate e, te_intervention e, te_full_text e)]> m) l).
  rewrite IH by done. by rewrite lookup_insert_ne.
Qed.

Lemma record_texts_in m l f o :
  (∀ e, e ∈ l → (te_debate e, te_intervention e, te_full_text e) = o) →
  f ∈ te_formatted <$> l → record_texts m l !! f = Some o.
Proof.
  revert m. induction l as [|e l IH]; intros m Ho Hf.
  { by apply elem_of_nil in Hf. }
  change (record_texts m (e :: l))
    with (record_texts
            (<[te_formatted e := (te_debate e, te_intervention e, te_full_text e)]> m) l).
  destruct (decide (f ∈ te_formatted <$> l)) as [Hin|Hnin].
  - apply IH; [|done]. intros e' He'. apply Ho. by right.
  - rewrite record_texts_notin by done.
    rewrite fmap_cons in Hf. apply elem_of_cons in Hf as [->|Hf]; [|done].
    rewrite lookup_insert_eq. f_equal. apply Ho. left.
Qed.

Lemma texts_of_add k d i t :
  texts_of k (add_intervention d i t)
  = record_texts (texts_of k t) (info_texts k i).
Proof. by destruct k. Qed.

Lemma count_of_add k d i t :
  count_of k (add_intervention d i t) = count_of k t + info_count k i.
Proof. by destruct k. Qed.

(** Every entry that an intervention yields carries its origin. *)
Lemma info_texts_origin k intervention participants_mapping debate_id i e :
  intervention_info intervention participants_mapping debate_id = Some i →
  e ∈ info_texts k i →
  (te_debate e, te_intervention e, te_full_text e) = origin_of debate_id i
  ∧ te_speaker e = speaker_name_of intervention participants_mapping.
Proof.
  unfold intervention_info.
  destruct (ET.find intervention "sentences") as [node|]; [|done].
  simpl. intros [= <-]. unfold origin_of. simpl.
  destruct k; simpl.
  - intros (x & _ & Hx)%list_elem_of_omap.
    destruct (_ && _); [|done]. by injection Hx as <-.
  - intros (x & _ & Hx)%list_elem_of_omap.
    destruct (_ && _); [|done]. by injection Hx as <-.
  - intros (x & -> & _)%list_elem_of_fmap. done.
Qed.

Lemma process_intervention_inv intervention participants_mapping sm pm d i sm' pm' :
  process_intervention intervention participants_mapping sm pm d
  = Some (i, sm', pm') →
  intervention_info intervention participants_mapping d = Some i
  ∧ (∃ sp, sm' !! speaker_key i = Some sp
           ∧ sp_totals sp
             = add_intervention d i
                 (from_option sp_totals new_totals (sm !! speaker_key i)))
  ∧ (∃ pt, pm' !! party_key i = Some pt
           ∧ pt_totals pt
             = add_intervention d i
                 (from_option pt_totals new_totals (pm !! party_key i))
           ∧ pt_participants pt
             = from_option pt_participants ∅ (pm !! party_key i)
               ∪ {[speaker_key i]})
  ∧ (∀ s, s ≠ speaker_key i → sm' !! s = sm !! s)
  ∧ (∀ p, p ≠ party_key i → pm' !! p = pm !! p).
Proof.
  unfold process_intervention.
  destruct (intervention_info _ _ _) as [i0|]; [|done]. simpl.
  intros [= <- <- <-]. split_and!; [done| | |..].
  - eexists. rewrite lookup_insert_eq. split; [done|]. simpl.
    by destruct (sm !! speaker_key i0).
  - eexists. rewrite lookup_insert_eq. split; [done|]. simpl.
    by destruct (pm !! party_key i0).
  - intros s Hs. by rewrite lookup_insert_ne.
  - intros p Hp. by rewrite lookup_insert_ne.
Qed.

(** The writes of one intervention to the dictionaries of its speaker
    and party, for one kind of item. *)
Lemma process_intervention_texts k intervention participants_mapping sm pm d
    i sm' pm' :
  process_intervention intervention participants_mapping sm pm d
  = Some (i, sm', pm') →
  ∃ sp pt,
    sm' !! speaker_key i = Some sp ∧ pm' !! party_key i = Some pt
    ∧ count_of k (sp_totals sp)
      = from_option (count_of k ∘ sp_totals) 0 (sm !! speaker_key i)
        + info_count k i
    ∧ count_of k (pt_totals pt)
      = from_option (count_of k ∘ pt_totals) 0 (pm !! party_key i)
        + info_count k i
    ∧ texts_of k (sp_totals sp)
      = record_texts
          (from_option (texts_of k ∘ sp_totals) ∅ (sm !! speaker_key i))
          (info_texts k i)
    ∧ texts_of k (pt_totals pt)
      = record_texts
          (from_option (texts_of k ∘ pt_totals) ∅ (pm !! party_key i))
          (info_texts k i).
Proof.
  intros (_ & (sp & Hsp & Hspt) & (pt & Hpt & Hptt & _) & _)%process_intervention_inv.
  exists sp, pt. rewrite Hspt, Hptt, !count_of_add, !texts_of_add.
  split_and!; [done..| | | |].
  - by destruct (sm !! speaker_key i), k.
  - by destruct (pm !! party_key i), k.
  - by destruct (sm !! speaker_key i), k.
  - by destruct (pm !! party_key i), k.
Qed.

(** Two interventions of one speaker, each with the claim "We need
    reform", and an intervention of the moderator with a claim, a
    proposal and a fallacy. *)
Definition reform_intervention (id sentence : string) : element string :=
  Element "intervention"
    (<["id" := id]> (<["participant-id" := "p0"]> {["topic" := "Reforma"]}))
    None
    [Element "claims" ∅ None
       [Element "claim" {["id" := "r0"]} (Some "We need reform") []];
     Element "sentences" ∅ None
       [Element "sentence" {["id" := "s0"]} (Some sentence) []]].

Definition moderator_intervention : element string :=
  Element "intervention"
    (<["id" := "i002"]> (<["participant-id" := "p1"]> {["topic" := "Reforma"]}))
    None
    [Element "proposals" ∅ None
       [Element "proposal" {["id" := "pr0"]} (Some "Cerrar el debate") []];
     Element "claims" ∅ None
       [Element "claim" {["id" := "r0"]} (Some "Son las diez") []];
     Element "fallacies" ∅ None
       [Element "fallacy" {["category" := "ad hominem"]} (Some "Usted miente") []];
     Element "sentences" ∅ None
       [Element "sentence" {["id" := "s0"]} (Some "Gracias a todos") []]].

Definition reform_participants : element string :=
  Element "participants" ∅ None
    [Element "participant"
       (<["id" := "p0"]> (<["full-name" := "Ana"]> {["party" := "A"]}))
       None [];
     Element "participant"
       (<["id" := "p1"]> (<["full-name" := "MODERADOR"]> {["party" := ""]}))
       None []].

Definition reform_document : element string :=
  Element "debate" {["date" := "2019-04-22"]} None
    [reform_participants;
     Element "blocks" ∅ None
       [Element "block" (<["id" := "b0"]> {["topic" := "Economy"]}) None
          [Element "interventions" ∅ None
             [reform_intervention "i000" "Primera frase";
              reform_intervention "i001" "Segunda frase";
              moderator_intervention]]]].

Definition reform_mapping : gmap (option string) participant :=
  parse_participants (Some reform_participants).

(** What the example reads from the final state: the count and the
    entry of a text, at the speaker, at the party and in the debate. *)
Definition read_texts (k : kind) (speaker party debate f : string)
    (st : state)
    : option (nat * option origin * nat * option origin * option debate_origin) :=
  sp ← speaker_metrics st !! speaker;
  pt ← party_metrics st !! party;
  di ← debates_info (global_metrics st) !! debate;
  Some (count_of k (sp_totals sp), texts_of k (sp_totals sp) !! f,
        count_of k (pt_totals pt), texts_of k (pt_totals pt) !! f,
        match k with
        | Claim => d_claims_texts di
        | Proposal => d_proposals_texts di
        | Fallacy => d_fallacies_texts di
        end !! f).

Lemma process_intervention_overwrites k iv mp sm pm d i sm' pm' f :
  process_intervention iv mp sm pm d = Some (i, sm', pm') →
  f ∈ te_formatted <$> info_texts k i →
  ∃ sp pt,
    sm' !! speaker_key i = Some sp ∧ pm' !! party_key i = Some pt
    ∧ texts_of k (sp_totals sp) !! f = Some (origin_of d i)
    ∧ texts_of k (pt_totals pt) !! f = Some (origin_of d i)
    ∧ count_of k (sp_totals sp)
      = from_option (count_of k ∘ sp_totals) 0 (sm !! speaker_key i)
        + info_count k i
    ∧ count_of k (pt_totals pt)
      = from_option (count_of k ∘ pt_totals) 0 (pm !! party_key i)
        + info_count k i.
Proof.
  intros Hstep Hf.
  destruct (process_intervention_texts k _ _ _ _ _ _ _ _ Hstep)
    as (sp & pt & Hsp & Hpt & Hcs & Hcp & Hts & Htp).
  apply process_intervention_inv in Hstep as (Hinfo & _).
  exists sp, pt. rewrite Hts, Htp.
  split_and!; [done|done| | |done|done];
    (apply record_texts_in; [|done]);
    intros e He; by destruct (info_texts_origin k _ _ _ _ e Hinfo He).
Qed.

(** Two participants of the name Ana, one for party A and one for party
    B, and an intervention of each with the claim "We need reform". *)
Definition two_party_participants : element string :=
  Element "participants" ∅ None
    [Element "participant"
       (<["id" := "p0"]> (<["full-name" := "Ana"]> {["party" := "A"]}))
       None [];
     Element "participant"
       (<["id" := "p2"]> (<["full-name" := "Ana"]> {["party" := "B"]}))
       None []].

Definition second_party_intervention : element string :=
  Element "intervention"
    (<["id" := "i001"]> (<["participant-id" := "p2"]> {["topic" := "Reforma"]}))
    None
    [Element "claims" ∅ None
       [Element "claim" {["id" := "r0"]} (Some "We need reform") []];
     Element "sentences" ∅ None
       [Element "sentence" {["id" := "s0"]} (Some "Segunda frase") []]].

Definition two_party_document : element string :=
  Element "debate" {["date" := "2019-04-22"]} None
    [two_party_participants;
     Element "blocks" ∅ None
       [Element "block" (<["id" := "b0"]> {["topic" := "Economy"]}) None
          [Element "interventions" ∅ None
             [reform_intervention "i000" "Primera frase";
              second_party_intervention]]]].

(** C4 as stated fails for the party.  The text "Ana: We need reform"
    occurs in the interventions i000 and i001 of the speaker Ana, who
    speaks for party A in the first and for party B in the second.  The
    entry of the speaker names i001 and her count is 2; the entry of
    party A still names i000, and the count of each party is 1. *)
Lemma party_entry_keeps_first_origin :
  main [("debate-2019-04-22.xml", Some two_party_document)]
    ≫= read_texts Claim "Ana" "A" "2019-04-22" "Ana: We need reform"
  = Some (2, Some ("2019-04-22", Some "i001", "Segunda frase"),
          1, Some ("2019-04-22", Some "i000", "Primera frase"),
          Some ("2019-04-22", Some "i001", "Segunda frase", "Ana"))
  ∧ main [("debate-2019-04-22.xml", Some two_party_document)]
      ≫= read_texts Claim "Ana" "B" "2019-04-22" "Ana: We need reform"
    = Some (2, Some ("2019-04-22", Some "i001", "Segunda frase"),
            1, Some ("2019-04-22", Some "i001", "Segunda frase"),
            Some ("2019-04-22", Some "i001", "Segunda frase", "Ana")).
Proof. split; by vm_compute. Qed.

(** C4, as the code has it.  Counts and text dictionaries are written
    independently.  An intervention adds the number of its items to the
    count of its speaker and party, and sets the entry of each recorded
    text to its own origin, whatever the entry was.  So when a text
    recurs in a second intervention counted under the same speaker, the
    entry of the speaker is the origin of the second and the count has
    grown by the items of both; the same holds for the party when both
    interventions are counted under the same party.  When the second is
    counted under another party, the party of the first keeps the origin
    of the first and has grown by the items of the first only.  For
    "Ana: We need reform" in the interventions i000 and i001 of Ana for
    party A, the entries name i001 and the counts of claims are 2. *)
Theorem count_and_origin_independent :
  (∀ k iv mp sm pm d i sm' pm' f,
     process_intervention iv mp sm pm d = Some (i, sm', pm') →
     f ∈ te_formatted <$> info_texts k i →
     ∃ sp pt,
       sm' !! speaker_key i = Some sp ∧ pm' !! party_key i = Some pt
       ∧ texts_of k (sp_totals sp) !! f = Some (origin_of d i)
       ∧ texts_of k (pt_totals pt) !! f = Some (origin_of d i)
       ∧ count_of k (sp_totals sp)
         = from_option (count_of k ∘ sp_totals) 0 (sm !! speaker_key i)
           + info_count k i
       ∧ count_of k (pt_totals pt)
         = from_option (count_of k ∘ pt_totals) 0 (pm !! party_key i)
           + info_count k i)
  ∧ (∀ k iv1 iv2 mp1 mp2 sm pm d1 d2 i1 sm1 pm1 i2 sm2 pm2 f,
       process_intervention iv1 mp1 sm pm d1 = Some (i1, sm1, pm1) →
       process_intervention iv2 mp2 sm1 pm1 d2 = Some (i2, sm2, pm2) →
       f ∈ te_formatted <$> info_texts k i1 →
       f ∈ te_formatted <$> info_texts k i2 →
       (speaker_key i1 = speaker_key i2 →
        ∃ sp,
          sm2 !! speaker_key i2 = Some sp
          ∧ texts_of k (sp_totals sp) !! f = Some (origin_of d2 i2)
          ∧ count_of k (sp_totals sp)
            = from_option (count_of k ∘ sp_totals) 0 (sm !! speaker_key i1)
              + info_count k i1 + info_count k i2)
       ∧ (party_key i1 = party_key i2 →
          ∃ pt,
            pm2 !! party_key i2 = Some pt
            ∧ texts_of k (pt_totals pt) !! f = Some (origin_of d2 i2)
            ∧ count_of k (pt_totals pt)
              = from_option (count_of k ∘ pt_totals) 0 (pm !! party_key i1)
                + info_count k i1 + info_count k i2)
       ∧ (party_key i1 ≠ party_key i2 →
          ∃ pt,
            pm2 !! party_key i1 = Some pt
            ∧ texts_of k (pt_totals pt) !! f = Some (origin_of d1 i1)
            ∧ count_of k (pt_totals pt)
              = from_option (count_of k ∘ pt_totals) 0 (pm !! party_key i1)
                + info_count k i1))
  ∧ main [("debate-2019-04-22.xml", Some reform_document)]
      ≫= read_texts Claim "Ana" "A" "2019-04-22" "Ana: We need reform"
    = Some (2, Some ("2019-04-22", Some "i001", "Segunda frase"),
            2, Some ("2019-04-22", Some "i001", "Segunda frase"),
            Some ("2019-04-22", Some "i001", "Segunda frase", "Ana")).
Proof.
  split_and!; [exact process_intervention_overwrites| |by vm_compute].
  intros k iv1 iv2 mp1 mp2 sm pm d1 d2 i1 sm1 pm1 i2 sm2 pm2 f
    Hstep1 Hstep2 Hf1 Hf2.
  destruct (process_intervention_overwrites k _ _ _ _ _ _ _ _ f Hstep1 Hf1)
    as (sp1 & pt1 & Hsp1 & Hpt1 & _ & Htp1 & Hc1 & Hp1).
  destruct (process_intervention_overwrites k _ _ _ _ _ _ _ _ f Hstep2 Hf2)
    as (sp2 & pt2 & Hsp2 & Hpt2 & Hts & Htp & Hc2 & Hp2).
  split_and!.
  - intros Hsk. exists sp2. split_and!; [done..|].
    rewrite Hc2, <- Hsk, Hsp1. simpl. by rewrite Hc1.
  - intros Hpk. exists pt2. split_and!; [done..|].
    rewrite Hp2, <- Hpk, Hpt1. simpl. by rewrite Hp1.
  - intros Hpk. exists pt1.
    apply process_intervention_inv in Hstep2 as (_ & _ & _ & _ & Hpm).
    by rewrite (Hpm _ Hpk).
Qed.

Lemma count_and_origin_independent_witness :
  ∃ i1 sm1 pm1 i2 sm2 pm2,
    process_intervention (reform_intervention "i000" "Primera frase")
      reform_mapping ∅ ∅ "2019-04-22" = Some (i1, sm1, pm1)
    ∧ process_intervention (reform_intervention "i001" "Segunda frase")
        reform_mapping sm1 pm1 "2019-04-22" = Some (i2, sm2, pm2)
    ∧ "Ana: We need reform" ∈ te_formatted <$> info_texts Claim i1
    ∧ "Ana: We need reform" ∈ te_formatted <$> info_texts Claim i2
    ∧ speaker_key i1 = speaker_key i2 ∧ party_key i1 = party_key i2
    ∧ (∃ sp,
         sm2 !! speaker_key i2 = Some sp
         ∧ texts_of Claim (sp_totals sp) !! "Ana: We need reform"
           = Some (origin_of "2019-04-22" i2)
         ∧ count_of Claim (sp_totals sp)
           = from_option (count_of Claim ∘ sp_totals) 0
               ((∅ : gmap string speaker_acc) !! speaker_key i1)
             + info_count Claim i1 + info_count Claim i2)
    ∧ (∃ pt,
         pm2 !! party_key i2 = Some pt
         ∧ texts_of Claim (pt_totals pt) !! "Ana: We need reform"
           = Some (origin_of "2019-04-22" i2)
         ∧ count_of Claim (pt_totals pt)
           = from_option (count_of Claim ∘ pt_totals) 0
               ((∅ : gmap string party_acc) !! party_key i1)
             + info_count Claim i1 + info_count Claim i2).
Proof.
  destruct (process_intervention (reform_intervention "i000" "Primera frase")
              reform_mapping ∅ ∅ "2019-04-22")
    as [[[i1 sm1] pm1]|] eqn:Hstep1; [|vm_compute in Hstep1; discriminate].
  destruct (process_intervention (reform_intervention "i001" "Segunda frase")
              reform_mapping sm1 pm1 "2019-04-22")
    as [[[i2 sm2] pm2]|] eqn:Hstep2.
  2: { exfalso. unfold process_intervention in Hstep2.
       destruct (intervention_info (reform_intervention "i001" "Segunda frase")
                   reform_mapping "2019-04-22") eqn:Hinfo;
         [discriminate|vm_compute in Hinfo; discriminate]. }
  pose proof (process_intervention_inv _ _ _ _ _ _ _ _ Hstep1) as (Hi1 & _).
  pose proof (process_intervention_inv _ _ _ _ _ _ _ _ Hstep2) as (Hi2 & _).
  assert ("Ana: We need reform" ∈ te_formatted <$> info_texts Claim i1) as Hf1.
  { clear -Hi1. vm_compute in Hi1. injection Hi1 as <-. vm_compute. left. }
  assert ("Ana: We need reform" ∈ te_formatted <$> info_texts Claim i2) as Hf2.
  { clear -Hi2. vm_compute in Hi2. injection Hi2 as <-. vm_compute. left. }
  assert (speaker_key i1 = speaker_key i2 ∧ party_key i1 = party_key i2)
    as [Hsk Hpk].
  { clear -Hi1 Hi2. vm_compute in Hi1, Hi2. injection Hi1 as <-.
    injection Hi2 as <-. by split. }
  exists i1, sm1, pm1, i2, sm2, pm2.
  destruct (proj1 (proj2 count_and_origin_independent) Claim _ _ _ _ _ _ _ _
              _ _ _ _ _ _ _ Hstep1 Hstep2 Hf1 Hf2) as (Hsp & Hpt & _).
  split_and!; [reflexivity|exact Hstep2|exact Hf1|exact Hf2|exact Hsk
              |exact Hpk|exact (Hsp Hsk)|exact (Hpt Hpk)].
Defined.

Lemma local_mapping_skip proj before i after :
  proj i = [] →
  local_mapping proj (before ++ i :: after)
  = local_mapping proj (before ++ after).
Proof.
  intros Hi. unfold local_mapping. rewrite !foldl_app. simpl. by rewrite Hi.
Qed.

Definition put_entry (m : gmap string debate_origin) (e : text_entry)
    : gmap string debate_origin :=
  <[te_formatted e :=
      (te_debate e, te_intervention e, te_full_text e, te_speaker e)]> m.

Lemma local_mapping_unfold proj l :
  local_mapping proj l = foldl (λ m i, foldl put_entry m (proj i)) ∅ l.
Proof. reflexivity. Qed.

Lemma local_entries_keep (m : gmap string debate_origin) l f :
  is_Some (m !! f) ∨ f ∈ te_formatted <$> l →
  is_Some (foldl put_entry m l !! f).
Proof.
  revert m. induction l as [|e l IH]; intros m [Hm|Hf]; simpl.
  - done.
  - by apply elem_of_nil in Hf.
  - apply IH. left. unfold put_entry. rewrite lookup_insert.
    case_decide; [by eauto|done].
  - rewrite fmap_cons in Hf. apply elem_of_cons in Hf as [->|Hf].
    + apply IH. left. unfold put_entry. rewrite lookup_insert_eq. by eauto.
    + apply IH. by right.
Qed.

Lemma local_mapping_keeps proj before i after e :
  e ∈ proj i →
  is_Some (local_mapping proj (before ++ i :: after) !! te_formatted e).
Proof.
  intros He. rewrite local_mapping_unfold, foldl_app. simpl.
  generalize (foldl (λ m i0, foldl put_entry m (proj i0)) ∅ before).
  intros m.
  assert (is_Some (foldl put_entry m (proj i) !! te_formatted e)) as Hm.
  { apply local_entries_keep. right. by apply list_elem_of_fmap_2. }
  revert Hm. generalize (foldl put_entry m (proj i)).
  induction after as [|i' after IH]; intros m' Hm'; [done|].
  simpl. apply IH. apply local_entries_keep. by left.
Qed.

Lemma pseudo_speaker_info iv mp d i :
  intervention_info iv mp d = Some i →
  speaker_name_of iv mp ∈ ["MODERADOR"; "DECLARACIONES"] →
  info_claims_texts i = [] ∧ info_proposals_texts i = [].
Proof.
  unfold intervention_info. fold (speaker_name_of iv mp).
  destruct (ET.find iv "sentences") as [node|]; [|done]. simpl.
  intros [= <-] Hpseudo. simpl.
  assert (not_pseudo_speaker (speaker_name_of iv mp) = false) as Hnot.
  { unfold not_pseudo_speaker. by rewrite bool_decide_eq_true_2. }
  rewrite Hnot. split.
  - generalize (from_option (λ n, ET.findall n "claim") [] (ET.find iv "claims")).
    intros l. induction l as [|c l IH]; [done|]. simpl.
    by rewrite andb_false_r.
  - generalize (from_option (λ n, ET.findall n "proposal") []
                  (ET.find iv "proposals")).
    intros l. induction l as [|c l IH]; [done|]. simpl.
    by rewrite andb_false_r.
Qed.

Lemma fallacy_recorded iv mp d i fallacies_node fallacy :
  intervention_info iv mp d = Some i →
  ET.find iv "fallacies" = Some fallacies_node →
  fallacy ∈ ET.findall fallacies_node "fallacy" →
  speaker_name_of iv mp +:+ " ("
    +:+ PyStr.format_opt (ET.get fallacy "category")
    +:+ "): " +:+ item_text fallacy
  ∈ te_formatted <$> info_fallacies_texts i.
Proof.
  unfold intervention_info. fold (speaker_name_of iv mp).
  destruct (ET.find iv "sentences") as [node|]; [|done]. simpl.
  intros [= <-] -> Hin. simpl. rewrite <- list_fmap_compose.
  apply list_elem_of_fmap. by exists fallacy.
Qed.

(** C9.  For an intervention of the speaker named MODERADOR or
    DECLARACIONES no claim and no proposal is recorded: the lists that
    the intervention returns are empty, the claim and proposal
    dictionaries of its speaker and party stay as they were, and the
    dictionaries of the debate are as if the intervention were absent.
    Each of its fallacies is recorded, at the speaker, at the party and
    in the debate.  In the example the moderator has a claim, a proposal
    and a fallacy: the counts are 1 each and only the fallacy has an
    entry. *)
Theorem pseudo_speaker_texts :
  (∀ iv mp sm pm d i sm' pm',
     process_intervention iv mp sm pm d = Some (i, sm', pm') →
     speaker_name_of iv mp ∈ ["MODERADOR"; "DECLARACIONES"] →
     info_claims_texts i = [] ∧ info_proposals_texts i = []
     ∧ (∃ sp pt,
          sm' !! speaker_key i = Some sp ∧ pm' !! party_key i = Some pt
          ∧ claims_texts (sp_totals sp)
            = from_option (claims_texts ∘ sp_totals) ∅ (sm !! speaker_key i)
          ∧ proposals_texts (sp_totals sp)
            = from_option (proposals_texts ∘ sp_totals) ∅ (sm !! speaker_key i)
          ∧ claims_texts (pt_totals pt)
            = from_option (claims_texts ∘ pt_totals) ∅ (pm !! party_key i)
          ∧ proposals_texts (pt_totals pt)
            = from_option (proposals_texts ∘ pt_totals) ∅ (pm !! party_key i)
          ∧ ∀ fallacies_node fallacy,
              ET.find iv "fallacies" = Some fallacies_node →
              fallacy ∈ ET.findall fallacies_node "fallacy" →
              let f := speaker_name_of iv mp +:+ " ("
                         +:+ PyStr.format_opt (ET.get fallacy "category")
                         +:+ "): " +:+ item_text fallacy in
              fallacies_texts (sp_totals sp) !! f = Some (origin_of d i)
              ∧ fallacies_texts (pt_totals pt) !! f = Some (origin_of d i)
              ∧ ∀ before after,
                  is_Some (local_mapping info_fallacies_texts
                             (before ++ i :: after) !! f))
     ∧ ∀ before after,
         local_mapping info_claims_texts (before ++ i :: after)
         = local_mapping info_claims_texts (before ++ after)
         ∧ local_mapping info_proposals_texts (before ++ i :: after)
           = local_mapping info_proposals_texts (before ++ after))
  ∧ main [("debate-2019-04-22.xml", Some reform_document)]
      ≫= read_texts Claim "MODERADOR" "No party" "2019-04-22"
            "MODERADOR: Son las diez"
    = Some (1, None, 1, None, None)
  ∧ main [("debate-2019-04-22.xml", Some reform_document)]
      ≫= read_texts Proposal "MODERADOR" "No party" "2019-04-22"
            "MODERADOR: Cerrar el debate"
    = Some (1, None, 1, None, None)
  ∧ main [("debate-2019-04-22.xml", Some reform_document)]
      ≫= read_texts Fallacy "MODERADOR" "No party" "2019-04-22"
            "MODERADOR (ad hominem): Usted miente"
    = Some (1, Some ("2019-04-22", Some "i002", "Gracias a todos"),
            1, Some ("2019-04-22", Some "i002", "Gracias a todos"),
            Some ("2019-04-22", Some "i002", "Gracias a todos", "MODERADOR")).
Proof.
  split_and!; [|by vm_compute..].
  intros iv mp sm pm d i sm' pm' Hstep Hpseudo.
  pose proof (process_intervention_inv _ _ _ _ _ _ _ _ Hstep) as (Hinfo & _).
  destruct (pseudo_speaker_info _ _ _ _ Hinfo Hpseudo) as [Hc Hp].
  split_and!; [done..| |].
  - destruct (process_intervention_texts Claim _ _ _ _ _ _ _ _ Hstep)
      as (sp & pt & Hsp & Hpt & _ & _ & Hcs & Hcp).
    destruct (process_intervention_texts Proposal _ _ _ _ _ _ _ _ Hstep)
      as (sp' & pt' & Hsp' & Hpt' & _ & _ & Hps & Hpp).
    rewrite Hsp in Hsp'. rewrite Hpt in Hpt'.
    injection Hsp' as <-. injection Hpt' as <-.
    simpl in Hcs, Hcp, Hps, Hpp. rewrite Hc in Hcs, Hcp. rewrite Hp in Hps, Hpp.
    exists sp, pt. split_and!; [done..|].
    intros fallacies_node fallacy Hnode Hin f.
    pose proof (fallacy_recorded _ _ _ _ _ _ Hinfo Hnode Hin) as Hf.
    fold f in Hf.
    destruct (process_intervention_overwrites Fallacy _ _ _ _ _ _ _ _ f
                Hstep Hf)
      as (sp2 & pt2 & Hsp2 & Hpt2 & Hts & Htp & _).
    rewrite Hsp in Hsp2. rewrite Hpt in Hpt2.
    injection Hsp2 as <-. injection Hpt2 as <-.
    split_and!; [done..|]. intros before after.
    apply list_elem_of_fmap in Hf as (e & -> & He).
    by apply local_mapping_keeps.
  - intros before after. by rewrite !local_mapping_skip.
Qed.

Lemma pseudo_speaker_texts_witness :
  ∃ i sm' pm',
    process_intervention moderator_intervention reform_mapping ∅ ∅
      "2019-04-22" = Some (i, sm', pm')
    ∧ speaker_name_of moderator_intervention reform_mapping
      ∈ ["MODERADOR"; "DECLARACIONES"]
    ∧ info_claims_texts i = [] ∧ info_proposals_texts i = []
    ∧ ∀ before after,
        local_mapping info_claims_texts (before ++ i :: after)
        = local_mapping info_claims_texts (before ++ after)
        ∧ local_mapping info_proposals_texts (before ++ i :: after)
          = local_mapping info_proposals_texts (before ++ after).
Proof.
  destruct (process_intervention moderator_intervention reform_mapping ∅ ∅
              "2019-04-22")
    as [[[i sm'] pm']|] eqn:Hstep; [|vm_compute in Hstep; discriminate].
  assert (speaker_name_of moderator_intervention reform_mapping
          ∈ ["MODERADOR"; "DECLARACIONES"]) as Hpseudo.
  { assert (speaker_name_of moderator_intervention reform_mapping
            = "MODERADOR") as -> by (vm_compute; reflexivity).
    left. }
  exists i, sm', pm'. split; [reflexivity|]. split; [exact Hpseudo|].
  destruct (proj1 pseudo_speaker_texts _ _ _ _ _ _ _ _ Hstep Hpseudo)
    as (Hc & Hp & _ & Hlocal).
  exact (conj Hc (conj Hp Hlocal)).
Defined.
End texts.

(** ** Aggregation: totals across scopes *)

Section consistency.
Import HtmlReports.

(** The sum, over the participants of a party, of the interventions
    counted for each as a speaker. *)
Definition party_speakers_sum (st : state) (pt : party_acc) : nat :=
  sum_list_with
    (λ s, from_option (interventions ∘ sp_totals) 0 (speaker_metrics st !! s))
    (elements (pt_participants pt)).

(** The sum of the interventions of the debates of [debates_info]. *)
Definition debates_sum (st : state) : nat :=
  sum_list_with (λ kv : string * debate_info, d_interventions kv.2)
    (map_to_list (debates_info (global_metrics st))).

(** The debate identifiers of the files that parse, in processing order. *)
Definition debate_ids (files : list (string * option (element string)))
    : list string :=
  omap (λ file : string * option (element string),
          (λ root, ET.get_default root "date" file.1) <$> file.2) files.

(** One for a true proposition, zero for a false one. *)
Definition ind (P : Prop) `{!Decision P} : nat := if decide P then 1 else 0.

Lemma ind_true (P : Prop) `{!Decision P} : P → ind P = 1.
Proof. intros. unfold ind. by rewrite decide_True. Qed.

Lemma ind_false (P : Prop) `{!Decision P} : ¬ P → ind P = 0.
Proof. intros. unfold ind. by rewrite decide_False. Qed.

Lemma ind_iff (P Q : Prop) `{!Decision P, !Decision Q} :
  (P ↔ Q) → ind P = ind Q.
Proof.
  intros HPQ. destruct (decide P) as [HP|HP].
  - rewrite !ind_true; [done|by apply HPQ|done].
  - rewrite !ind_false; [done|by rewrite <- HPQ|done].
Qed.

Lemma sum_list_with_ext_in {A} (f g : A → nat) l :
  (∀ x, x ∈ l → f x = g x) → sum_list_with f l = sum_list_with g l.
Proof.
  induction l as [|x l IH]; intros H; simpl; [done|].
  rewrite (H x) by left. rewrite IH; [done|]. intros y Hy. apply H. by right.
Qed.

Lemma sum_list_with_add {A} (f g : A → nat) l :
  sum_list_with (λ x, f x + g x) l = sum_list_with f l + sum_list_with g l.
Proof. induction l as [|x l IH]; simpl; [done|]. rewrite IH. lia. Qed.

Lemma sum_ind_elem (x : string) (L : list string) :
  NoDup L → sum_list_with (λ s, ind (x = s)) L = ind (x ∈ L).
Proof.
  induction 1 as [|s L Hs Hnd IH]; simpl.
  - rewrite ind_false; [done|apply not_elem_of_nil].
  - rewrite IH. destruct (decide (x = s)) as [->|Hne].
    + rewrite (ind_true (s = s)) by done.
      rewrite (ind_false (s ∈ L)) by done.
      by rewrite (ind_true (s ∈ s :: L)) by left.
    + rewrite (ind_false (x = s)) by done. simpl.
      apply ind_iff. rewrite elem_of_cons. split; [by right|by intros [?|?]].
Qed.

Lemma sum_ind_swap (L : list string) (ks : list (string * string)) :
  NoDup L →
  sum_list_with (λ s, sum_list_with (λ k, ind (k.1 = s)) ks) L
  = sum_list_with (λ k, ind (k.1 ∈ L)) ks.
Proof.
  intros Hnd. induction ks as [|k ks IH]; simpl.
  - clear Hnd. induction L as [|s L IHL]; simpl; [done|]. by rewrite IHL.
  - by rewrite sum_list_with_add, IH, sum_ind_elem.
Qed.

(** The speakers and parties of the interventions processed so far,
    [ks], account for the counts and the participants. *)
Definition trace_inv (ks : list (string * string))
    (sm : gmap string speaker_acc) (pm : gmap string party_acc) : Prop :=
  (∀ s, from_option (interventions ∘ sp_totals) 0 (sm !! s)
        = sum_list_with (λ k, ind (k.1 = s)) ks)
  ∧ (∀ p, from_option (interventions ∘ pt_totals) 0 (pm !! p)
          = sum_list_with (λ k, ind (k.2 = p)) ks)
  ∧ (∀ p s, s ∈ from_option pt_participants ∅ (pm !! p) ↔ (s, p) ∈ ks).

Lemma trace_inv_step ks iv mp sm pm d i sm' pm' :
  process_intervention iv mp sm pm d = Some (i, sm', pm') →
  trace_inv ks sm pm →
  trace_inv (ks ++ [(speaker_key i, party_key i)]) sm' pm'.
Proof.
  intros (_ & (sp & Hsp & Hspt) & (pt & Hpt & Hptt & Hptp) & Hsm & Hpm)
           %process_intervention_inv (Hs & Hp & Hmem).
  split_and!.
  - intros s. rewrite sum_list_with_app. simpl.
    destruct (decide (speaker_key i = s)) as [<-|Hne].
    + rewrite Hsp, (ind_true (speaker_key i = speaker_key i)) by done.
      simpl. rewrite Hspt. simpl. rewrite <- Hs.
      destruct (sm !! speaker_key i); simpl; lia.
    + rewrite Hsm, (ind_false (speaker_key i = s)) by done.
      rewrite Hs. lia.
  - intros p. rewrite sum_list_with_app. simpl.
    destruct (decide (party_key i = p)) as [<-|Hne].
    + rewrite Hpt, (ind_true (party_key i = party_key i)) by done.
      simpl. rewrite Hptt. simpl. rewrite <- Hp.
      destruct (pm !! party_key i); simpl; lia.
    + rewrite Hpm, (ind_false (party_key i = p)) by done.
      rewrite Hp. lia.
  - intros p s. rewrite elem_of_app, list_elem_of_singleton.
    destruct (decide (party_key i = p)) as [<-|Hne].
    + rewrite Hpt. simpl. rewrite Hptp, elem_of_union, elem_of_singleton.
      rewrite Hmem.
      split; (intros [?|?]; [by left|right; congruence]).
    + rewrite Hpm by done. rewrite Hmem.
      split; [by left|intros [?|?]; [done|congruence]].
Qed.

Lemma process_interventions_trace ivs mp d acc st infos st' ks :
  process_interventions ivs mp d acc st = Some (infos, st') →
  trace_inv ks (speaker_metrics st) (party_metrics st) →
  ∃ ks', trace_inv (ks ++ ks') (speaker_metrics st') (party_metrics st').
Proof.
  revert acc st ks. induction ivs as [|iv ivs IH]; intros acc st ks; simpl.
  - intros [= <- <-] Hinv. exists []. by rewrite app_nil_r.
  - destruct (process_intervention _ _ _ _ _) as [[[i sm] pm]|] eqn:Hstep;
      [|done]. simpl. intros Hrest Hinv.
    pose proof (trace_inv_step _ _ _ _ _ _ _ _ _ Hstep Hinv) as Hinv'.
    destruct (IH _ _ _ Hrest Hinv') as (ks' & Hks').
    exists ((speaker_key i, party_key i) :: ks').
    by rewrite <- (assoc_L (++) ks [_] ks') in Hks'.
Qed.

Lemma process_interventions_counts ivs mp d acc st infos st' :
  process_interventions ivs mp d acc st = Some (infos, st') →
  ∃ news, infos = acc ++ news
          ∧ g_interventions (global_metrics st')
            = g_interventions (global_metrics st) + length news
          ∧ debates_info (global_metrics st')
            = debates_info (global_metrics st).
Proof.
  revert acc st. induction ivs as [|iv ivs IH]; intros acc st; simpl.
  - intros [= <- <-]. exists []. rewrite app_nil_r. simpl.
    split_and!; [done|lia|done].
  - destruct (process_intervention _ _ _ _ _) as [[[i sm] pm]|]; [|done].
    simpl. intros Hrest.
    destruct (IH _ _ Hrest) as (news & -> & Hg & Hd).
    exists (i :: news). rewrite <- (assoc_L (++)). simpl in *.
    split_and!; [done|lia|done].
Qed.

Lemma process_block_trace block mp d st infos st' ks :
  process_block block mp d st = Some (infos, st') →
  trace_inv ks (speaker_metrics st) (party_metrics st) →
  ∃ ks', trace_inv (ks ++ ks') (speaker_metrics st') (party_metrics st').
Proof.
  unfold process_block. destruct (ET.find block "interventions") as [node|].
  - apply process_interventions_trace.
  - intros [= <- <-] Hinv. exists []. by rewrite app_nil_r.
Qed.

Lemma process_block_counts block mp d st infos st' :
  process_block block mp d st = Some (infos, st') →
  g_interventions (global_metrics st')
  = g_interventions (global_metrics st) + length infos
  ∧ debates_info (global_metrics st') = debates_info (global_metrics st).
Proof.
  unfold process_block. destruct (ET.find block "interventions") as [node|].
  - intros (news & Hnews & ? & ?)%process_interventions_counts.
    simpl in Hnews. by subst news.
  - intros [= <- <-]. simpl. split; [lia|done].
Qed.

Lemma process_blocks_trace blocks mp d acc st infos st' ks :
  process_blocks blocks mp d acc st = Some (infos, st') →
  trace_inv ks (speaker_metrics st) (party_metrics st) →
  ∃ ks', trace_inv (ks ++ ks') (speaker_metrics st') (party_metrics st').
Proof.
  revert acc st ks. induction blocks as [|block blocks IH];
    intros acc st ks; simpl.
  - intros [= <- <-] Hinv. exists []. by rewrite app_nil_r.
  - destruct (process_block _ _ _ _) as [[binfos st1]|] eqn:Hblock; [|done].
    simpl. intros Hrest Hinv.
    destruct (process_block_trace _ _ _ _ _ _ _ Hblock Hinv) as (ks1 & Hks1).
    destruct (IH _ _ _ Hrest Hks1) as (ks' & Hks').
    exists (ks1 ++ ks'). by rewrite (assoc_L (++)).
Qed.

Lemma process_blocks_counts blocks mp d acc st infos st' :
  process_blocks blocks mp d acc st = Some (infos, st') →
  ∃ news, infos = acc ++ news
          ∧ g_interventions (global_metrics st')
            = g_interventions (global_metrics st) + length news
          ∧ debates_info (global_metrics st')
            = debates_info (global_metrics st).
Proof.
  revert acc st. induction blocks as [|block blocks IH]; intros acc st; simpl.
  - intros [= <- <-]. exists []. rewrite app_nil_r. simpl.
    split_and!; [done|lia|done].
  - destruct (process_block _ _ _ _) as [[binfos st1]|] eqn:Hblock; [|done].
    simpl. intros Hrest.
    destruct (process_block_counts _ _ _ _ _ _ Hblock) as [Hg1 Hd1].
    destruct (IH _ _ Hrest) as (news & -> & Hg & Hd).
    exists (binfos ++ news). rewrite <- (assoc_L (++)), length_app.
    split_and!; [done|lia|congruence].
Qed.

Lemma process_xml_trace basename root st st' ks :
  process_xml basename root st = Some st' →
  trace_inv ks (speaker_metrics st) (party_metrics st) →
  ∃ ks', trace_inv (ks ++ ks') (speaker_metrics st') (party_metrics st').
Proof.
  unfold process_xml.
  destruct (process_blocks _ _ _ _ _) as [[infos st1]|] eqn:Hblocks; [|done].
  simpl. intros [= <-] Hinv. simpl.
  by apply (process_blocks_trace _ _ _ _ _ _ _ _ Hblocks).
Qed.

Lemma process_xml_counts basename root st st' :
  process_xml basename root st = Some st' →
  ∃ di, debates_info (global_metrics st')
        = <[ET.get_default root "date" basename := di]>
            (debates_info (global_metrics st))
        ∧ g_interventions (global_metrics st')
          = g_interventions (global_metrics st) + d_interventions di.
Proof.
  unfold process_xml.
  destruct (process_blocks _ _ _ _ _) as [[infos st1]|] eqn:Hblocks; [|done].
  simpl. intros [= <-]. simpl.
  destruct (process_blocks_counts _ _ _ _ _ _ _ Hblocks)
    as (news & Hnews & Hg & Hd).
  simpl in Hnews, Hg, Hd. subst news.
  eexists. rewrite Hd. split; [done|]. simpl. lia.
Qed.

Lemma process_files_trace files st st' ks :
  process_files files st = Some st' →
  trace_inv ks (speaker_metrics st) (party_metrics st) →
  ∃ ks', trace_inv ks' (speaker_metrics st') (party_metrics st').
Proof.
  revert st ks. induction files as [|[basename [root|]] files IH];
    intros st ks; simpl.
  - intros [= <-] ?. by exists ks.
  - destruct (process_xml basename root st) as [st1|] eqn:Hxml; [|done].
    simpl. intros Hrest Hinv.
    destruct (process_xml_trace _ _ _ _ _ Hxml Hinv) as (ks' & Hks').
    by apply (IH _ _ Hrest Hks').
  - apply IH.
Qed.

Lemma process_files_debates files st st' (seen : list string) :
  process_files files st = Some st' →
  NoDup (seen ++ debate_ids files) →
  (∀ d, is_Some (debates_info (global_metrics st) !! d) → d ∈ seen) →
  debates_sum st = g_interventions (global_metrics st) →
  debates_sum st' = g_interventions (global_metrics st').
Proof.
  revert st seen. induction files as [|[basename [root|]] files IH];
    intros st seen; simpl.
  - by intros [= <-].
  - destruct (process_xml basename root st) as [st1|] eqn:Hxml; [|done].
    simpl. intros Hrest Hnd Hseen Hsum.
    unfold debate_ids in Hnd. simpl in Hnd. fold (debate_ids files) in Hnd.
    destruct (process_xml_counts _ _ _ _ Hxml) as (di & Hd & Hg).
    set (id := ET.get_default root "date" basename) in *.
    assert (debates_info (global_metrics st) !! id = None) as Hfresh.
    { apply eq_None_not_Some. intros Hin%Hseen.
      apply NoDup_app in Hnd as (_ & Hdisj & _).
      apply (Hdisj id Hin). left. }
    apply (IH st1 (seen ++ [id])); [done| | |].
    + by rewrite <- (assoc_L (++)).
    + intros d. rewrite Hd, lookup_insert. case_decide as Hid.
      * intros _. subst d. apply elem_of_app. right. left.
      * intros Hin%Hseen. apply elem_of_app. by left.
    + unfold debates_sum. rewrite Hd, Hg.
      rewrite (map_to_list_insert _ _ _ Hfresh). simpl.
      fold (debates_sum st). rewrite Hsum. lia.
  - apply IH.
Qed.

Lemma trace_inv_empty : trace_inv [] ∅ ∅.
Proof.
  split_and!; intros; rewrite ?lookup_empty; simpl; [done..|].
  by rewrite elem_of_nil, elem_of_empty.
Qed.

(** Two files of the same date, in which Ana speaks for party A and
    then for party B. *)
Definition ana_document (party : string) : element string :=
  Element "debate" {["date" := "2019-04-22"]} None
    [Element "participants" ∅ None
       [Element "participant"
          (<["id" := "p0"]> (<["full-name" := "Ana"]> {["party" := party]}))
          None []];
     Element "blocks" ∅ None
       [Element "block" (<["id" := "b0"]> {["topic" := "Economy"]}) None
          [Element "interventions" ∅ None
             [reform_intervention "i000" "Primera frase"]]]].

Definition ana_files : list (string * option (element string)) :=
  [("a.xml", Some (ana_document "A")); ("b.xml", Some (ana_document "B"))].

(** What the stated property compares: per party, the count of the party
    and the sum over its participants; the global count and the sum over
    the debates. *)
Definition party_comparison (st : state) (p : string) : option (nat * nat) :=
  pt ← party_metrics st !! p;
  Some (interventions (pt_totals pt), party_speakers_sum st pt).

(** C3 as stated fails.  Ana has two interventions, one for each party:
    party A counts 1 and the sum over its participants is 2.  The two
    files share their date: the global count is 2 and [debates_info]
    holds the one debate of the second file, with 1. *)
Lemma totals_differ_across_scopes :
  (λ st, (party_comparison st "A", g_interventions (global_metrics st),
          debates_sum st)) <$> main ana_files
  = Some (Some (1, 2), 2, 1).
Proof. by vm_compute. Qed.

(** C3, as the code has it.  After all files are processed: for a party
    none of whose participants is a participant of another party, the
    sum of the interventions of its participants is the count of the
    party; and when the processed files have distinct debate identifiers,
    the sum of the interventions of the debates is the global count. *)
Theorem totals_consistent
    (files : list (string * option (element string))) (st : state) :
  main files = Some st →
  (∀ p pt,
     party_metrics st !! p = Some pt →
     (∀ p' pt' s, party_metrics st !! p' = Some pt' →
                  s ∈ pt_participants pt → s ∈ pt_participants pt' → p' = p) →
     party_speakers_sum st pt = interventions (pt_totals pt))
  ∧ (NoDup (debate_ids files) →
     debates_sum st = g_interventions (global_metrics st)).
Proof.
  unfold main. intros Hmain. split.
  - intros p pt Hpt Honly.
    destruct (process_files_trace _ _ _ [] Hmain trace_inv_empty)
      as (ks & Hs & Hp & Hmem).
    unfold party_speakers_sum.
    rewrite (sum_list_with_ext_in _
               (λ s, sum_list_with (λ k, ind (k.1 = s)) ks))
      by (intros; apply Hs).
    rewrite sum_ind_swap by apply NoDup_elements.
    specialize (Hp p). rewrite Hpt in Hp. simpl in Hp. rewrite Hp.
    apply sum_list_with_ext_in. intros [s q] Hk. simpl.
    apply ind_iff. rewrite elem_of_elements.
    pose proof (Hmem p s) as Hps. rewrite Hpt in Hps. simpl in Hps.
    split.
    + intros Hin. pose proof (proj2 (Hmem q s) Hk) as Hq.
      destruct (party_metrics st !! q) as [pt'|] eqn:Hpt'; simpl in Hq.
      * by apply (Honly q pt' s).
      * by apply elem_of_empty in Hq.
    + intros ->. by apply Hps.
  - intros Hnd. apply (process_files_debates files initial_state st []).
    + done.
    + done.
    + intros d. simpl. rewrite lookup_empty. by intros [].
    + done.
Qed.

Definition reform_files : list (string * option (element string)) :=
  [("debate-2019-04-22.xml", Some reform_document)].

Lemma totals_consistent_witness :
  ∃ st pt,
    main reform_files = Some st ∧ party_metrics st !! "A" = Some pt
    ∧ party_speakers_sum st pt = interventions (pt_totals pt)
    ∧ debates_sum st = g_interventions (global_metrics st).
Proof.
  destruct (main reform_files) as [st|] eqn:Hmain;
    [|vm_compute in Hmain; discriminate].
  assert (dom (party_metrics st) = {["A"]} ∪ {["No party"]}) as Hdom.
  { vm_compute in Hmain. injection Hmain as <-. vm_compute. reflexivity. }
  assert (∃ pt, party_metrics st !! "A" = Some pt
                ∧ pt_participants pt = {["Ana"]}) as (pt & HA & HAp).
  { vm_compute in Hmain. injection Hmain as <-. eexists.
    split; vm_compute; reflexivity. }
  assert (∀ pt', party_metrics st !! "No party" = Some pt' →
                 pt_participants pt' = {["MODERADOR"]}) as HN.
  { vm_compute in Hmain. injection Hmain as <-. intros pt' H.
    vm_compute in H. injection H as <-. vm_compute. reflexivity. }
  destruct (totals_consistent reform_files st Hmain) as [Hparty Hdebates].
  exists st, pt. split; [reflexivity|]. split; [exact HA|]. split.
  - apply (Hparty "A" pt HA). intros p' pt' s Hp' Hs Hs'.
    assert (p' ∈ dom (party_metrics st)) as Hin.
    { apply elem_of_dom. by exists pt'. }
    rewrite Hdom in Hin. apply elem_of_union in Hin as [Hin|Hin];
      apply elem_of_singleton in Hin; [exact Hin|].
    subst p'. rewrite (HN pt' Hp') in Hs'. rewrite HAp in Hs.
    apply elem_of_singleton in Hs, Hs'. congruence.
  - apply Hdebates. vm_compute. apply NoDup_singleton.
Defined.
End consistency.

(** * Further properties of the code *)

(** ** The run of [main] over the files *)

Section report_run.
Import HtmlReports.

(** The interventions that [process_block] visits in a block, that
    [process_xml] visits in a document, and that [main] visits in all the
    files that parse. *)
Definition interventions_of_block (block : element string)
    : list (element string) :=
  from_option (λ node, ET.findall node "intervention") []
              (ET.find block "interventions").

Definition interventions_of (root : element string) : list (element string) :=
  block ← blocks_of root; interventions_of_block block.

Definition visited_interventions
    (files : list (string * option (element string)))
    : list (element string) :=
  file ← files; from_option interventions_of [] file.2.

Definition has_sentences (intervention : element string) : Prop :=
  is_Some (ET.find intervention "sentences").

Lemma process_intervention_is_Some iv mp sm pm d :
  is_Some (process_intervention iv mp sm pm d) ↔ has_sentences iv.
Proof.
  unfold process_intervention, intervention_info, has_sentences.
  destruct (ET.find iv "sentences"); simpl; split; intros H; eauto;
    by destruct H.
Qed.

Lemma process_interventions_is_Some ivs mp d acc st :
  is_Some (process_interventions ivs mp d acc st) ↔ Forall has_sentences ivs.
Proof.
  revert acc st. induction ivs as [|iv ivs IH]; intros acc st; simpl.
  - split; [by constructor|by eauto].
  - rewrite Forall_cons, <- (process_intervention_is_Some iv mp
      (speaker_metrics st) (party_metrics st) d).
    destruct (process_intervention _ _ _ _ _) as [[[i sm] pm]|]; simpl.
    + rewrite IH. split; [by eauto|by intros [_ ?]].
    + split; [by intros []|by intros [[] _]].
Qed.

Lemma process_block_is_Some block mp d st :
  is_Some (process_block block mp d st)
  ↔ Forall has_sentences (interventions_of_block block).
Proof.
  unfold process_block, interventions_of_block.
  destruct (ET.find block "interventions"); simpl.
  - apply process_interventions_is_Some.
  - split; [by constructor|by eauto].
Qed.

Lemma process_blocks_is_Some blocks mp d acc st :
  is_Some (process_blocks blocks mp d acc st)
  ↔ Forall has_sentences (block ← blocks; interventions_of_block block).
Proof.
  revert acc st. induction blocks as [|block blocks IH]; intros acc st; simpl.
  - split; [by constructor|by eauto].
  - rewrite Forall_app, <- (process_block_is_Some block mp d st).
    destruct (process_block _ _ _ _) as [[infos st1]|]; simpl.
    + rewrite IH. split; [by eauto|by intros [_ ?]].
    + split; [by intros []|by intros [[] _]].
Qed.

Lemma process_xml_is_Some basename root st :
  is_Some (process_xml basename root st)
  ↔ Forall has_sentences (interventions_of root).
Proof.
  unfold process_xml, interventions_of.
  rewrite <- (process_blocks_is_Some (blocks_of root)
                (parse_participants (ET.find root "participants"))
                (ET.get_default root "date" basename) []
                (State
                   (GlobalAcc (g_debates (global_metrics st) + 1)
                      (g_blocks (global_metrics st) + length (blocks_of root))
                      (g_interventions (global_metrics st))
                      (g_sentences (global_metrics st))
                      (g_claims (global_metrics st))
                      (g_proposals (global_metrics st))
                      (g_fallacies (global_metrics st))
                      (debates_info (global_metrics st)))
                   (speaker_metrics st) (party_metrics st))).
  destruct (process_blocks _ _ _ _ _) as [[infos st1]|]; simpl.
  - split; by eauto.
  - split; by intros [].
Qed.

Lemma process_files_is_Some files st :
  is_Some (process_files files st)
  ↔ Forall has_sentences (visited_interventions files).
Proof.
  unfold visited_interventions.
  revert st. induction files as [|[basename [root|]] files IH]; intros st; simpl.
  - split; [by constructor|by eauto].
  - rewrite Forall_app, <- (process_xml_is_Some basename root st).
    destruct (process_xml _ _ _) as [st1|]; simpl.
    + rewrite IH. split; [by eauto|by intros [_ ?]].
    + split; [by intros []|by intros [[] _]].
  - apply IH.
Qed.

(** X1.  The loop of [main] over the files, the writing of the
    transcripts left aside, ends with the three dictionaries exactly when
    every intervention it visits has a [sentences] child; one
    intervention without it raises and ends the whole run. *)
Theorem main_completes_iff_sentences
    (files : list (string * option (element string))) :
  is_Some (main files)
  ↔ ∀ iv, iv ∈ visited_interventions files → is_Some (ET.find iv "sentences").
Proof.
  unfold main. rewrite process_files_is_Some, Forall_forall. done.
Qed.
End report_run.

(** ** Invariants of the accumulators *)

Section report_invariants.
Import HtmlReports.

(** The five counts that a speaker, a party and the global dictionary
    share. *)
Inductive counter := Interventions | Sentences | Claims | Proposals | Fallacies.

Definition total_of (c : counter) (t : totals) : nat :=
  match c with
  | Interventions => interventions t
  | Sentences => sentences t
  | Claims => claims t
  | Proposals => proposals t
  | Fallacies => fallacies t
  end.

Definition global_of (c : counter) (g : global_acc) : nat :=
  match c with
  | Interventions => g_interventions g
  | Sentences => g_sentences g
  | Claims => g_claims g
  | Proposals => g_proposals g
  | Fallacies => g_fallacies g
  end.

Definition info_of (c : counter) (i : info) : nat :=
  match c with
  | Interventions => 1
  | Sentences => intervention_sentence_count i
  | Claims => num_claims i
  | Proposals => num_proposals i
  | Fallacies => num_fallacies i
  end.

Definition speakers_sum (c : counter) (st : state) : nat :=
  sum_list_with (λ kv : string * speaker_acc, total_of c (sp_totals kv.2))
    (map_to_list (speaker_metrics st)).

Definition parties_sum (c : counter) (st : state) : nat :=
  sum_list_with (λ kv : string * party_acc, total_of c (pt_totals kv.2))
    (map_to_list (party_metrics st)).

(** A property of the state that each intervention keeps, and that does
    not look at the debates and blocks of the global dictionary, holds
    after the run.  The step may rely on the debate identifier being one
    of the files' and on the mapping being one that [parse_participants]
    returns. *)
Lemma run_invariant (D : string → Prop) (J : state → Prop) :
  (∀ st iv node d i sm' pm',
     J st → D d →
     process_intervention iv (parse_participants node)
       (speaker_metrics st) (party_metrics st) d
     = Some (i, sm', pm') →
     J (State (count_intervention i (global_metrics st)) sm' pm')) →
  (∀ st g',
     J st → (∀ c, global_of c g' = global_of c (global_metrics st)) →
     J (State g' (speaker_metrics st) (party_metrics st))) →
  ∀ files st st',
    Forall D (debate_ids files) →
    J st → process_files files st = Some st' → J st'.
Proof.
  intros Hstep Hglobal.
  assert (∀ ivs node d acc st infos st',
            D d → J st →
            process_interventions ivs (parse_participants node) d acc st
            = Some (infos, st') →
            J st') as Hivs.
  { induction ivs as [|iv ivs IH]; intros node d acc st infos st' Hd HJ; simpl.
    - by intros [= _ <-].
    - destruct (process_intervention _ _ _ _ _) as [[[i sm] pm]|] eqn:Hiv;
        [|done]. simpl. apply IH; [done|]. by eapply Hstep. }
  assert (∀ blocks node d acc st infos st',
            D d → J st →
            process_blocks blocks (parse_participants node) d acc st
            = Some (infos, st') →
            J st') as Hblocks.
  { induction blocks as [|block blocks IH];
      intros node d acc st infos st' Hd HJ; simpl.
    - by intros [= _ <-].
    - destruct (process_block _ _ _ _) as [[binfos st1]|] eqn:Hblock; [|done].
      simpl. apply IH; [done|]. unfold process_block in Hblock.
      destruct (ET.find block "interventions").
      + by eapply Hivs.
      + by injection Hblock as _ <-. }
  induction files as [|[basename [root|]] files IH]; intros st st' HD HJ;
    simpl.
  - by intros [= <-].
  - destruct (process_xml basename root st) as [st1|] eqn:Hxml; [|done].
    unfold debate_ids in HD. simpl in HD. apply Forall_cons in HD as [Hd HD].
    simpl. apply IH; [done|]. unfold process_xml in Hxml.
    destruct (process_blocks _ _ _ _ _) as [[infos st2]|] eqn:Hb; [|done].
    simpl in Hxml. injection Hxml as <-.
    apply Hblocks in Hb; [|done|].
    + apply (Hglobal st2); [done|]. by intros [].
    + apply (Hglobal st); [done|]. by intros [].
  - by apply IH.
Qed.

(** The same without a condition on the identifiers: the step may rely
    on the mapping being one that [parse_participants] returns. *)
Lemma run_invariant_parsed (J : state → Prop) :
  (∀ st iv node d i sm' pm',
     J st →
     process_intervention iv (parse_participants node)
       (speaker_metrics st) (party_metrics st) d
     = Some (i, sm', pm') →
     J (State (count_intervention i (global_metrics st)) sm' pm')) →
  (∀ st g',
     J st → (∀ c, global_of c g' = global_of c (global_metrics st)) →
     J (State g' (speaker_metrics st) (party_metrics st))) →
  ∀ files st st', J st → process_files files st = Some st' → J st'.
Proof.
  intros Hstep Hglobal files st st'.
  apply (run_invariant (λ _, True) J); [|done|].
  - intros st0 iv node d i sm' pm' HJ _. by apply Hstep.
  - by apply Forall_true.
Qed.

(** The same for a step that holds with any mapping. *)
Lemma run_invariant_any (J : state → Prop) :
  (∀ st iv mp d i sm' pm',
     J st →
     process_intervention iv mp (speaker_metrics st) (party_metrics st) d
     = Some (i, sm', pm') →
     J (State (count_intervention i (global_metrics st)) sm' pm')) →
  (∀ st g',
     J st → (∀ c, global_of c g' = global_of c (global_metrics st)) →
     J (State g' (speaker_metrics st) (party_metrics st))) →
  ∀ files st st', J st → process_files files st = Some st' → J st'.
Proof.
  intros Hstep Hglobal files st st'.
  apply (run_invariant (λ _, True) J); [|done|].
  - intros st0 iv node d i sm' pm' HJ _. by apply Hstep.
  - by apply Forall_true.
Qed.

Lemma sum_map_insert {A} (f : A → nat) (m : gmap string A) k v :
  sum_list_with (λ kv : string * A, f kv.2) (map_to_list (<[k := v]> m))
  + from_option f 0 (m !! k)
  = sum_list_with (λ kv : string * A, f kv.2) (map_to_list m) + f v.
Proof.
  destruct (m !! k) as [x|] eqn:Hk; simpl.
  - rewrite <- (insert_delete_eq m k v).
    rewrite map_to_list_insert by apply lookup_delete_eq.
    rewrite <- (map_to_list_delete m k x Hk). simpl. lia.
  - rewrite map_to_list_insert by done. simpl. lia.
Qed.

Lemma total_of_add c d i t :
  total_of c (add_intervention d i t) = total_of c t + info_of c i.
Proof. by destruct c. Qed.

(** X2.  After the run, each of the five global counts (interventions,
    sentences, claims, proposals, fallacies) equals the sum of that count
    over all speakers and the sum of that count over all parties. *)
Theorem global_counts_are_sums
    (files : list (string * option (element string))) (st : state)
    (c : counter) :
  main files = Some st →
  speakers_sum c st = global_of c (global_metrics st)
  ∧ parties_sum c st = global_of c (global_metrics st).
Proof.
  intros Hmain. revert c.
  apply (run_invariant_any
           (λ st, ∀ c, speakers_sum c st = global_of c (global_metrics st)
                       ∧ parties_sum c st = global_of c (global_metrics st))
           ) with (files := files) (st := initial_state); [| | |done].
  - intros st0 iv mp d i sm' pm' HJ Hstep c.
    destruct (HJ c) as [Hs Hp].
    apply process_intervention_inv in Hstep
      as (_ & (sp & Hsp & Hspt) & (pt & Hpt & Hptt & _) & Hsm & Hpm).
    assert (sm' = <[speaker_key i := sp]> (speaker_metrics st0)) as ->.
    { apply map_eq. intros s. rewrite lookup_insert. case_decide as Hk.
      - by subst s. - by apply Hsm. }
    assert (pm' = <[party_key i := pt]> (party_metrics st0)) as ->.
    { apply map_eq. intros p. rewrite lookup_insert. case_decide as Hk.
      - by subst p. - by apply Hpm. }
    unfold speakers_sum, parties_sum in *. simpl.
    pose proof (sum_map_insert (λ sp, total_of c (sp_totals sp))
                  (speaker_metrics st0) (speaker_key i) sp) as Hsi.
    pose proof (sum_map_insert (λ pt, total_of c (pt_totals pt))
                  (party_metrics st0) (party_key i) pt) as Hpi.
    simpl in Hsi, Hpi.
    rewrite Hspt, total_of_add in Hsi. rewrite Hptt, total_of_add in Hpi.
    assert (global_of c (count_intervention i (global_metrics st0))
            = global_of c (global_metrics st0) + info_of c i) as ->
      by (by destruct c).
    split.
    + destruct (speaker_metrics st0 !! speaker_key i); simpl in Hsi;
        destruct c; simpl in *; lia.
    + destruct (party_metrics st0 !! party_key i); simpl in Hpi;
        destruct c; simpl in *; lia.
  - intros st0 g' HJ Hg c. unfold speakers_sum, parties_sum in *. simpl.
    rewrite Hg. apply HJ.
  - intros c. unfold speakers_sum, parties_sum. simpl.
    rewrite !map_to_list_empty. by destruct c.
Qed.

(** One file with one intervention of Ana for party A. *)
Definition ana_file : list (string * option (element string)) :=
  [("a.xml", Some (ana_document "A"))].

Lemma global_counts_are_sums_witness :
  ∃ st, main ana_file = Some st
        ∧ speakers_sum Claims st = global_of Claims (global_metrics st)
        ∧ parties_sum Claims st = global_of Claims (global_metrics st).
Proof.
  destruct (main ana_file) as [st|] eqn:Hmain;
    [|vm_compute in Hmain; discriminate].
  exists st. split; [reflexivity|].
  exact (global_counts_are_sums ana_file st Claims Hmain).
Defined.

Lemma process_intervention_names iv mp sm pm d i sm' pm' :
  process_intervention iv mp sm pm d = Some (i, sm', pm') →
  ∃ sp, sm' !! speaker_key i = Some sp
        ∧ sp_full_name sp
          = from_option sp_full_name (speaker_key i) (sm !! speaker_key i)
        ∧ sp_party sp
          = from_option sp_party (stored_party iv mp) (sm !! speaker_key i).
Proof.
  unfold process_intervention.
  destruct (intervention_info _ _ _) as [i0|]; [|done]. simpl.
  intros [= <- <- <-]. eexists. rewrite lookup_insert_eq. split; [done|].
  by destruct (sm !! speaker_key i0).
Qed.

Lemma truthy_nonempty s : PyStr.truthy s = true → s ≠ "".
Proof. by destruct s. Qed.

Lemma info_keys_nonempty iv mp d i :
  intervention_info iv mp d = Some i → speaker_key i ≠ "" ∧ party_key i ≠ "".
Proof.
  unfold intervention_info.
  destruct (ET.find iv "sentences"); [|done]. simpl. intros [= <-]. simpl.
  split.
  - destruct (PyStr.truthy (PyStr.strip _)) eqn:Ht; [|done].
    by apply truthy_nonempty.
  - destruct (PyStr.truthy (PyStr.strip _)) eqn:Ht; [|done].
    by apply truthy_nonempty.
Qed.

(** The state of the keys: a speaker dictionary carries its key as name,
    no key is empty, every dictionary has counted an intervention, every
    speaker is a participant of a party and every participant is a
    speaker. *)
Definition keys_inv (sm : gmap string speaker_acc)
    (pm : gmap string party_acc) : Prop :=
  (∀ s sp, sm !! s = Some sp →
           sp_full_name sp = s ∧ s ≠ "" ∧ 1 ≤ interventions (sp_totals sp)
           ∧ ∃ p pt, pm !! p = Some pt ∧ s ∈ pt_participants pt)
  ∧ (∀ p pt, pm !! p = Some pt →
             p ≠ "" ∧ 1 ≤ interventions (pt_totals pt)
             ∧ ∀ s, s ∈ pt_participants pt → is_Some (sm !! s)).

Lemma keys_inv_step iv mp sm pm d i sm' pm' :
  process_intervention iv mp sm pm d = Some (i, sm', pm') →
  keys_inv sm pm → keys_inv sm' pm'.
Proof.
  intros Hstep [Hs Hp].
  destruct (process_intervention_names _ _ _ _ _ _ _ _ Hstep)
    as (sp & Hsp & Hname & _).
  apply process_intervention_inv in Hstep
    as (Hinfo & (sp' & Hsp' & Hspt) & (pt & Hpt & Hptt & Hptp) & Hsm & Hpm).
  rewrite Hsp in Hsp'. injection Hsp' as <-.
  destruct (info_keys_nonempty _ _ _ _ Hinfo) as [Hsk Hpk].
  split.
  - intros s sp0 Hs0. destruct (decide (s = speaker_key i)) as [->|Hne].
    + rewrite Hsp in Hs0. injection Hs0 as <-. split_and!.
      * rewrite Hname. destruct (sm !! speaker_key i) as [old|] eqn:Hold;
          [|done]. simpl. by destruct (Hs _ _ Hold).
      * done.
      * rewrite Hspt. simpl. lia.
      * exists (party_key i), pt. split; [done|]. rewrite Hptp.
        apply elem_of_union. right. by apply elem_of_singleton.
    + rewrite Hsm in Hs0 by done.
      destruct (Hs _ _ Hs0) as (? & ? & ? & p & pt0 & Hp0 & Hin).
      split_and!; [done..|].
      destruct (decide (p = party_key i)) as [->|Hnp].
      * exists (party_key i), pt. split; [done|]. rewrite Hptp, Hp0. simpl.
        apply elem_of_union. by left.
      * exists p, pt0. by rewrite Hpm.
  - intros p pt0 Hp0. destruct (decide (p = party_key i)) as [->|Hne].
    + rewrite Hpt in Hp0. injection Hp0 as <-. split_and!.
      * done.
      * rewrite Hptt. simpl. lia.
      * intros s. rewrite Hptp, elem_of_union, elem_of_singleton.
        intros [Hin| ->]; [|by rewrite Hsp].
        destruct (pm !! party_key i) as [old|] eqn:Hold; simpl in Hin;
          [|by apply elem_of_empty in Hin].
        destruct (Hp _ _ Hold) as (_ & _ & Hall).
        destruct (decide (s = speaker_key i)) as [->|Hns];
          [by rewrite Hsp|]. rewrite Hsm by done. by apply Hall.
    + rewrite Hpm in Hp0 by done.
      destruct (Hp _ _ Hp0) as (? & ? & Hall). split_and!; [done..|].
      intros s Hin. destruct (decide (s = speaker_key i)) as [->|Hns];
        [by rewrite Hsp|]. rewrite Hsm by done. by apply Hall.
Qed.

(** X3.  After the run: the name stored in a speaker dictionary is its
    key; no speaker key and no party key is the empty string (an empty
    name becomes "Unknown", an empty party "No party"); every speaker and
    every party has at least one intervention; every speaker is among the
    participants of some party and every participant of a party has a
    speaker dictionary. *)
Theorem accumulator_keys
    (files : list (string * option (element string))) (st : state) :
  main files = Some st →
  (∀ s sp, speaker_metrics st !! s = Some sp →
           sp_full_name sp = s ∧ s ≠ "" ∧ 1 ≤ interventions (sp_totals sp)
           ∧ ∃ p pt, party_metrics st !! p = Some pt ∧ s ∈ pt_participants pt)
  ∧ (∀ p pt, party_metrics st !! p = Some pt →
             p ≠ "" ∧ 1 ≤ interventions (pt_totals pt)
             ∧ ∀ s, s ∈ pt_participants pt → is_Some (speaker_metrics st !! s)).
Proof.
  intros Hmain.
  apply (run_invariant_any
           (λ st, keys_inv (speaker_metrics st) (party_metrics st)))
    with (files := files) (st := initial_state); [| | |done].
  - intros st0 iv mp d i sm' pm' HJ Hstep. simpl.
    by apply (keys_inv_step _ _ _ _ _ _ _ _ Hstep).
  - intros st0 g' HJ _. done.
  - split; intros ? ?; simpl; by rewrite lookup_empty.
Qed.

Lemma accumulator_keys_witness :
  ∃ st, main ana_file = Some st
        ∧ (∀ s sp, speaker_metrics st !! s = Some sp →
                   sp_full_name sp = s ∧ s ≠ ""
                   ∧ 1 ≤ interventions (sp_totals sp)
                   ∧ ∃ p pt, party_metrics st !! p = Some pt
                             ∧ s ∈ pt_participants pt)
        ∧ (∀ p pt, party_metrics st !! p = Some pt →
                   p ≠ "" ∧ 1 ≤ interventions (pt_totals pt)
                   ∧ ∀ s, s ∈ pt_participants pt →
                          is_Some (speaker_metrics st !! s)).
Proof.
  destruct (main ana_file) as [st|] eqn:Hmain;
    [|vm_compute in Hmain; discriminate].
  exists st. split; [reflexivity|].
  exact (accumulator_keys ana_file st Hmain).
Defined.
End report_invariants.

(** ** The counts and the documents *)

Section report_documents.
Import HtmlReports.

(** What one intervention element adds to a count: itself, the
    [sentence] children of its [sentences] child, the [claim] children of
    its [claims] child, and so on; a missing child adds nothing. *)
Definition items (node item : string) (intervention : element string) : nat :=
  from_option (λ n, length (ET.findall n item)) 0 (ET.find intervention node).

Definition count_in (c : counter) (intervention : element string) : nat :=
  match c with
  | Interventions => 1
  | Sentences => items "sentences" "sentence" intervention
  | Claims => items "claims" "claim" intervention
  | Proposals => items "proposals" "proposal" intervention
  | Fallacies => items "fallacies" "fallacy" intervention
  end.

Definition debate_of (c : counter) (di : debate_info) : nat :=
  match c with
  | Interventions => d_interventions di
  | Sentences => d_sentences di
  | Claims => d_num_claims di
  | Proposals => d_num_proposals di
  | Fallacies => d_num_fallacies di
  end.

(** The blocks of the files that parse. *)
Definition visited_blocks (files : list (string * option (element string)))
    : list (element string) :=
  file ← files; from_option blocks_of [] file.2.

Lemma info_of_count_in iv mp d i c :
  intervention_info iv mp d = Some i → info_of c i = count_in c iv.
Proof.
  unfold intervention_info, count_in, items.
  destruct (ET.find iv "sentences") as [node|]; [|done]. simpl.
  intros [= <-]. destruct c; simpl; try done.
  - by destruct (ET.find iv "claims").
  - by destruct (ET.find iv "proposals").
  - by destruct (ET.find iv "fallacies").
Qed.

(** The part of the global dictionary that the interventions leave
    alone. *)
Definition same_debates (g g' : global_acc) : Prop :=
  g_debates g' = g_debates g ∧ g_blocks g' = g_blocks g
  ∧ debates_info g' = debates_info g.

Lemma process_interventions_infos ivs mp d acc st infos st' :
  process_interventions ivs mp d acc st = Some (infos, st') →
  ∃ news, infos = acc ++ news
          ∧ Forall2 (λ iv i, intervention_info iv mp d = Some i) ivs news
          ∧ (∀ c, global_of c (global_metrics st')
                  = global_of c (global_metrics st)
                    + sum_list_with (count_in c) ivs)
          ∧ same_debates (global_metrics st) (global_metrics st').
Proof.
  revert acc st. induction ivs as [|iv ivs IH]; intros acc st; simpl.
  - intros [= <- <-]. exists []. rewrite app_nil_r.
    split_and!; [done|constructor|intros c; lia|done].
  - destruct (process_intervention _ _ _ _ _) as [[[i sm] pm]|] eqn:Hstep;
      [|done]. simpl. intros Hrest.
    apply process_intervention_inv in Hstep as (Hinfo & _).
    destruct (IH _ _ Hrest) as (news & -> & Hall & Hg & Hsame).
    exists (i :: news). rewrite <- (assoc_L (++)).
    split_and!; [done|by constructor| |done].
    intros c. rewrite (Hg c), <- (info_of_count_in _ _ _ _ c Hinfo).
    destruct c; simpl; lia.
Qed.

Lemma process_block_infos block mp d st infos st' :
  process_block block mp d st = Some (infos, st') →
  Forall2 (λ iv i, intervention_info iv mp d = Some i)
          (interventions_of_block block) infos
  ∧ (∀ c, global_of c (global_metrics st')
          = global_of c (global_metrics st)
            + sum_list_with (count_in c) (interventions_of_block block))
  ∧ same_debates (global_metrics st) (global_metrics st').
Proof.
  unfold process_block, interventions_of_block.
  destruct (ET.find block "interventions") as [node|]; simpl.
  - intros (news & Hnews & ? & ? & ?)%process_interventions_infos.
    simpl in Hnews. by subst news.
  - intros [= <- <-]. split_and!; [constructor|intros c; simpl; lia|done].
Qed.

Lemma process_blocks_infos blocks mp d acc st infos st' :
  process_blocks blocks mp d acc st = Some (infos, st') →
  ∃ news, infos = acc ++ news
          ∧ Forall2 (λ iv i, intervention_info iv mp d = Some i)
                    (blocks ≫= interventions_of_block) news
          ∧ (∀ c, global_of c (global_metrics st')
                  = global_of c (global_metrics st)
                    + sum_list_with (count_in c)
                        (blocks ≫= interventions_of_block))
          ∧ same_debates (global_metrics st) (global_metrics st').
Proof.
  revert acc st. induction blocks as [|block blocks IH]; intros acc st; simpl.
  - intros [= <- <-]. exists []. rewrite app_nil_r.
    split_and!; [done|constructor|intros c; lia|done].
  - destruct (process_block _ _ _ _) as [[binfos st1]|] eqn:Hblock; [|done].
    simpl. intros Hrest.
    destruct (process_block_infos _ _ _ _ _ _ Hblock)
      as (Hall1 & Hg1 & Hd1 & Hb1 & Hi1).
    destruct (IH _ _ Hrest) as (news & -> & Hall & Hg & Hd & Hb & Hi).
    exists (binfos ++ news). rewrite <- (assoc_L (++)).
    split_and!; [done|by apply Forall2_app| |].
    + intros c. rewrite (Hg c), (Hg1 c), sum_list_with_app.
      symmetry. apply Nat.add_assoc.
    + split_and!; congruence.
Qed.

Lemma sum_list_fmap_with {A} (f : A → nat) l :
  sum_list (f <$> l) = sum_list_with f l.
Proof. induction l as [|x l IH]; [done|]. rewrite fmap_cons. simpl. by rewrite IH. Qed.

Lemma sum_infos_counts mp d c ivs infos :
  Forall2 (λ iv i, intervention_info iv mp d = Some i) ivs infos →
  sum_list_with (info_of c) infos = sum_list_with (count_in c) ivs.
Proof.
  induction 1 as [|iv i ivs infos Hinfo _ IH]; simpl; [done|].
  by rewrite IH, (info_of_count_in _ _ _ _ c Hinfo).
Qed.

(** What [process_xml] does to the global dictionary. *)
Lemma process_xml_global basename root st st' :
  process_xml basename root st = Some st' →
  let g := global_metrics st in
  let g' := global_metrics st' in
  let debate_id := ET.get_default root "date" basename in
  g_debates g' = g_debates g + 1
  ∧ g_blocks g' = g_blocks g + length (blocks_of root)
  ∧ (∀ c, global_of c g'
          = global_of c g + sum_list_with (count_in c) (interventions_of root))
  ∧ ∃ di, debates_info g' = <[debate_id := di]> (debates_info g)
          ∧ d_debate_id di = debate_id
          ∧ d_blocks di = length (blocks_of root)
          ∧ ∀ c, debate_of c di
                 = sum_list_with (count_in c) (interventions_of root).
Proof.
  unfold process_xml.
  destruct (process_blocks _ _ _ _ _) as [[infos st1]|] eqn:Hblocks; [|done].
  simpl. intros [= <-]. simpl.
  destruct (process_blocks_infos _ _ _ _ _ _ _ Hblocks)
    as (news & Hnews & Hall & Hg & Hd & Hb & Hi).
  simpl in Hnews, Hg, Hd, Hb, Hi. subst news.
  fold (interventions_of root) in Hall, Hg.
  split_and!; [done..| |].
  - intros c. specialize (Hg c). by destruct c.
  - eexists. rewrite Hi. split_and!; [done..|].
    intros c. pose proof (sum_infos_counts _ _ c _ _ Hall) as Hsum.
    transitivity (sum_list_with (info_of c) infos); [|exact Hsum].
    destruct c; simpl; rewrite ?sum_list_fmap_with; [|done..].
    clear. induction infos; simpl; congruence.
Qed.

Lemma process_files_global files st st' :
  process_files files st = Some st' →
  let g := global_metrics st in
  let g' := global_metrics st' in
  g_debates g' = g_debates g + length (debate_ids files)
  ∧ g_blocks g' = g_blocks g + length (visited_blocks files)
  ∧ (∀ c, global_of c g'
          = global_of c g
            + sum_list_with (count_in c) (visited_interventions files))
  ∧ (∀ d, is_Some (debates_info g' !! d)
          ↔ is_Some (debates_info g !! d) ∨ d ∈ debate_ids files)
  ∧ (∀ d, d ∉ debate_ids files → debates_info g' !! d = debates_info g !! d).
Proof.
  revert st. induction files as [|[basename [root|]] files IH];
    intros st; simpl.
  - intros [= <-]. split_and!; [lia|lia|intros c; lia| |done].
    intros d. split; [by left|]. intros [?|Hin]; [done|].
    by apply elem_of_nil in Hin.
  - destruct (process_xml basename root st) as [st1|] eqn:Hxml; [|done].
    simpl. intros Hrest.
    destruct (process_xml_global _ _ _ _ Hxml)
      as (Hd1 & Hb1 & Hg1 & di & Hi1 & _).
    destruct (IH _ Hrest) as (Hd & Hb & Hg & Hi & Hk).
    unfold debate_ids, visited_blocks, visited_interventions in *.
    simpl. split_and!.
    + lia.
    + rewrite length_app. lia.
    + intros c. rewrite (Hg c), (Hg1 c), sum_list_with_app. lia.
    + intros d. rewrite (Hi d), Hi1, lookup_insert, elem_of_cons.
      case_decide as Hid.
      * subst d. split; [tauto|]. intros _. left. by eexists.
      * split; [tauto|]. intros [?|[?|?]]; [tauto|congruence|tauto].
    + intros d [Hne Hnin]%not_elem_of_cons.
      rewrite (Hk d Hnin), Hi1. by apply lookup_insert_ne.
  - apply IH.
Qed.

(** X4.  After the run the global dictionary counts the documents: the
    debates are the files that parse, the blocks their [blocks/block]
    elements, the interventions the intervention elements visited, and
    the sentences, claims, proposals and fallacies the elements of that
    name in them; [debates_info] has a key for a debate identifier
    exactly when some parsed file has that identifier. *)
Theorem global_counts_of_documents
    (files : list (string * option (element string))) (st : state) :
  main files = Some st →
  g_debates (global_metrics st) = length (debate_ids files)
  ∧ g_blocks (global_metrics st) = length (visited_blocks files)
  ∧ (∀ c, global_of c (global_metrics st)
          = sum_list_with (count_in c) (visited_interventions files))
  ∧ (∀ d, is_Some (debates_info (global_metrics st) !! d)
          ↔ d ∈ debate_ids files).
Proof.
  intros (Hd & Hb & Hg & Hi & _)%process_files_global. simpl in *.
  split_and!; [done..| |].
  - intros c. rewrite (Hg c). by destruct c.
  - intros d. rewrite (Hi d), lookup_empty. split; [|by right].
    intros [[? [=]]|?]; done.
Qed.

Lemma global_counts_of_documents_witness :
  ∃ st, main reform_files = Some st
        ∧ g_debates (global_metrics st) = 1
        ∧ global_of Claims (global_metrics st) = 3.
Proof.
  destruct (main reform_files) as [st|] eqn:Hmain;
    [|vm_compute in Hmain; discriminate].
  exists st. split; [reflexivity|].
  destruct (global_counts_of_documents reform_files st Hmain)
    as (Hd & _ & Hg & _).
  rewrite Hd, (Hg Claims). split; vm_compute; reflexivity.
Defined.

(** X5.  The record of a debate describes the last file with its
    identifier: for a file after which no parsed file has the same
    identifier, the record stored under the identifier carries it, and
    its counts of blocks, interventions, sentences, claims, proposals and
    fallacies are those of that one document, whatever the earlier files
    with the identifier held. *)
Theorem debate_record_of_last_file
    (before after : list (string * option (element string)))
    (basename : string) (root : element string) (st : state) :
  let debate_id := ET.get_default root "date" basename in
  main (before ++ (basename, Some root) :: after) = Some st →
  debate_id ∉ debate_ids after →
  ∃ di, debates_info (global_metrics st) !! debate_id = Some di
        ∧ d_debate_id di = debate_id
        ∧ d_blocks di = length (blocks_of root)
        ∧ ∀ c, debate_of c di
               = sum_list_with (count_in c) (interventions_of root).
Proof.
  intros debate_id. unfold main. generalize initial_state.
  induction before as [|[b [r|]] before IH]; intros st0; simpl.
  - destruct (process_xml basename root st0) as [st1|] eqn:Hxml; [|done].
    simpl. intros Hrest Hnin.
    destruct (process_xml_global _ _ _ _ Hxml)
      as (_ & _ & _ & di & Hi1 & Hdi).
    destruct (process_files_global _ _ _ Hrest) as (_ & _ & _ & _ & Hk).
    exists di. split; [|done].
    rewrite (Hk _ Hnin), Hi1. apply lookup_insert_eq.
  - destruct (process_xml b r st0) as [st1|]; [|done]. simpl. apply IH.
  - apply IH.
Qed.

Lemma debate_record_of_last_file_witness :
  ∃ di, (debates_info ∘ global_metrics <$> main ana_files)
          ≫= (.!! "2019-04-22") = Some di
        ∧ d_blocks di = 1 ∧ debate_of Interventions di = 1.
Proof.
  destruct (main ana_files) as [st|] eqn:Hmain;
    [|vm_compute in Hmain; discriminate].
  destruct (debate_record_of_last_file
              [("a.xml", Some (ana_document "A"))] [] "b.xml"
              (ana_document "B") st Hmain)
    as (di & Hdi & _ & Hb & Hc).
  { vm_compute. apply not_elem_of_nil. }
  exists di. split; [exact Hdi|]. rewrite Hb, (Hc Interventions).
  split; vm_compute; reflexivity.
Defined.
End report_documents.

(** ** The text dictionaries after the run *)

Section report_texts.
Import HtmlReports.

Definition debate_texts (k : kind) (di : debate_info)
    : gmap string debate_origin :=
  match k with
  | Claim => d_claims_texts di
  | Proposal => d_proposals_texts di
  | Fallacy => d_fallacies_texts di
  end.

Lemma record_texts_lookup m l f o :
  record_texts m l !! f = Some o →
  m !! f = Some o
  ∨ ∃ e, e ∈ l ∧ te_formatted e = f
         ∧ o = (te_debate e, te_intervention e, te_full_text e).
Proof.
  revert m. induction l as [|e l IH]; intros m; [by left|].
  change (record_texts m (e :: l))
    with (record_texts
            (<[te_formatted e := (te_debate e, te_intervention e, te_full_text e)]> m) l).
  intros [Hm|(e' & He' & Hf & Ho)]%IH.
  - rewrite lookup_insert in Hm. case_decide as Hk; [|by left].
    right. exists e. split_and!; [left|done|congruence].
  - right. exists e'. split_and!; [by right|done..].
Qed.

Lemma put_entries_lookup (m : gmap string debate_origin) l f o :
  foldl put_entry m l !! f = Some o →
  m !! f = Some o
  ∨ ∃ e, e ∈ l ∧ te_formatted e = f
         ∧ o = (te_debate e, te_intervention e, te_full_text e, te_speaker e).
Proof.
  revert m. induction l as [|e l IH]; intros m; [by left|]. simpl.
  intros [Hm|(e' & He' & Hf & Ho)]%IH.
  - unfold put_entry in Hm. rewrite lookup_insert in Hm.
    case_decide as Hk; [|by left].
    right. exists e. split_and!; [left|done|congruence].
  - right. exists e'. split_and!; [by right|done..].
Qed.

Lemma local_mapping_lookup proj infos f o :
  local_mapping proj infos !! f = Some o →
  ∃ i e, i ∈ infos ∧ e ∈ proj i ∧ te_formatted e = f
         ∧ o = (te_debate e, te_intervention e, te_full_text e, te_speaker e).
Proof.
  rewrite local_mapping_unfold.
  assert (∀ m : gmap string debate_origin,
            foldl (λ m i, foldl put_entry m (proj i)) m infos !! f = Some o →
            m !! f = Some o
            ∨ ∃ i e, i ∈ infos ∧ e ∈ proj i ∧ te_formatted e = f
                     ∧ o = (te_debate e, te_intervention e, te_full_text e,
                            te_speaker e)) as Hgen.
  { induction infos as [|i infos IH]; intros m; [by left|]. simpl.
    intros [Hm|(i' & e & Hi' & He & Hf & Ho)]%IH.
    - apply put_entries_lookup in Hm as [Hm|(e & He & Hf & Ho)]; [by left|].
      right. exists i, e. split_and!; [left|done..].
    - right. exists i', e. split_and!; [by right|done..]. }
  intros [Hm|Hin]%Hgen; [|done]. by rewrite lookup_empty in Hm.
Qed.

(** An entry of a claim or a proposal: its speaker is neither of the two
    pseudo-speakers, it has an intervention identifier and a text, and
    its key is the speaker, a colon and the text. *)
Definition item_entry (e : text_entry) : Prop :=
  not_pseudo_speaker (te_speaker e) = true
  ∧ PyStr.truthy_opt (te_intervention e) = true
  ∧ ∃ item_text, item_text ≠ ""
                 ∧ te_formatted e = te_speaker e +:+ ": " +:+ item_text.

Lemma info_entry iv mp d i k e :
  intervention_info iv mp d = Some i → e ∈ info_texts k i →
  te_debate e = d ∧ (k ≠ Fallacy → item_entry e).
Proof.
  unfold intervention_info.
  destruct (ET.find iv "sentences") as [node|]; [|done]. simpl.
  intros [= <-]. destruct k; simpl.
  - intros (x & _ & Hx)%list_elem_of_omap.
    destruct (PyStr.truthy (item_text x)) eqn:Ht; [|done].
    destruct (PyStr.truthy_opt (ET.get iv "id")) eqn:Hid; [|done].
    destruct (not_pseudo_speaker _) eqn:Hps; [|done].
    simpl in Hx. injection Hx as <-. split; [done|]. intros _.
    split_and!; [done..|]. exists (item_text x). split; [|done].
    by apply truthy_nonempty.
  - intros (x & _ & Hx)%list_elem_of_omap.
    destruct (PyStr.truthy (item_text x)) eqn:Ht; [|done].
    destruct (PyStr.truthy_opt (ET.get iv "id")) eqn:Hid; [|done].
    destruct (not_pseudo_speaker _) eqn:Hps; [|done].
    simpl in Hx. injection Hx as <-. split; [done|]. intros _.
    split_and!; [done..|]. exists (item_text x). split; [|done].
    by apply truthy_nonempty.
  - intros (x & -> & _)%list_elem_of_fmap. done.
Qed.

Lemma process_xml_texts basename root st st' :
  process_xml basename root st = Some st' →
  let debate_id := ET.get_default root "date" basename in
  ∃ infos di,
    Forall2 (λ iv i,
               intervention_info iv
                 (parse_participants (ET.find root "participants")) debate_id
               = Some i)
            (interventions_of root) infos
    ∧ debates_info (global_metrics st')
      = <[debate_id := di]> (debates_info (global_metrics st))
    ∧ ∀ k, debate_texts k di = local_mapping (info_texts k) infos.
Proof.
  unfold process_xml.
  destruct (process_blocks _ _ _ _ _) as [[infos st1]|] eqn:Hblocks; [|done].
  simpl. intros [= <-]. simpl.
  destruct (process_blocks_infos _ _ _ _ _ _ _ Hblocks)
    as (news & Hnews & Hall & _ & _ & _ & Hi).
  simpl in Hnews, Hi. subst news.
  exists infos. eexists. rewrite Hi. split_and!; [done..|]. by intros [].
Qed.

(** A property of the records of the debates that each file establishes
    for its own record holds for all records after the run. *)
Lemma process_files_records (P : string → debate_info → Prop) files st st' :
  (∀ basename root st0 st1 di,
     process_xml basename root st0 = Some st1 →
     debates_info (global_metrics st1) !! ET.get_default root "date" basename
     = Some di →
     P (ET.get_default root "date" basename) di) →
  (∀ d di, debates_info (global_metrics st) !! d = Some di → P d di) →
  process_files files st = Some st' →
  ∀ d di, debates_info (global_metrics st') !! d = Some di → P d di.
Proof.
  intros Hfile. revert st.
  induction files as [|[basename [root|]] files IH]; intros st HP; simpl.
  - by intros [= <-].
  - destruct (process_xml basename root st) as [st1|] eqn:Hxml; [|done].
    simpl. apply IH. intros d di Hd.
    destruct (process_xml_texts _ _ _ _ Hxml) as (infos & di' & _ & Hi & _).
    destruct (decide (d = ET.get_default root "date" basename)) as [->|Hne].
    + by apply (Hfile _ _ _ _ _ Hxml).
    + rewrite Hi, lookup_insert_ne in Hd by done. by apply HP.
  - by apply IH.
Qed.

(** X6.  In the record of a debate, every entry of the claims and of the
    proposals dictionary was made by a speaker other than MODERADOR and
    DECLARACIONES, in an intervention with a non-empty identifier, for an
    item with a non-empty text: its key is the stored speaker name, a
    colon and that text; and the debate identifier stored in any entry,
    fallacies included, is the key of the record. *)
Theorem debate_entries
    (files : list (string * option (element string))) (st : state)
    (k : kind) (d : string) (di : debate_info) (f : string)
    (o : debate_origin) :
  main files = Some st →
  debates_info (global_metrics st) !! d = Some di →
  debate_texts k di !! f = Some o →
  o.1.1.1 = d
  ∧ (k ≠ Fallacy →
     not_pseudo_speaker o.2 = true
     ∧ PyStr.truthy_opt o.1.1.2 = true
     ∧ ∃ item_text, item_text ≠ "" ∧ f = o.2 +:+ ": " +:+ item_text).
Proof.
  intros Hmain Hd. revert f o.
  apply (process_files_records
           (λ d di, ∀ f o, debate_texts k di !! f = Some o →
                           o.1.1.1 = d
                           ∧ (k ≠ Fallacy →
                              not_pseudo_speaker o.2 = true
                              ∧ PyStr.truthy_opt o.1.1.2 = true
                              ∧ ∃ item_text,
                                  item_text ≠ ""
                                  ∧ f = o.2 +:+ ": " +:+ item_text))
           files initial_state st); [| |done|done].
  - intros basename root st0 st1 di0 Hxml Hdi0 f o Ho.
    destruct (process_xml_texts _ _ _ _ Hxml) as (infos & di' & Hall & Hi & Hk).
    rewrite Hi, lookup_insert_eq in Hdi0. injection Hdi0 as <-.
    rewrite (Hk k) in Ho.
    apply local_mapping_lookup in Ho as (i & e & Hin & He & Hf & ->).
    apply list_elem_of_lookup in Hin as [n Hn].
    destruct (Forall2_lookup_r _ _ _ _ _ Hall Hn) as (iv & _ & Hinfo).
    destruct (info_entry _ _ _ _ k e Hinfo He) as [Hdeb Hitem].
    simpl. split; [done|]. intros Hk'.
    destruct (Hitem Hk') as (? & ? & text & ? & Hform).
    split_and!; [done..|]. exists text. by rewrite <- Hf.
  - intros d0 di0. simpl. by rewrite lookup_empty.
Qed.

Lemma debate_entries_witness :
  ∃ st di o,
    main ana_file = Some st
    ∧ debates_info (global_metrics st) !! "2019-04-22" = Some di
    ∧ debate_texts Claim di !! "Ana: We need reform" = Some o
    ∧ o.1.1.1 = "2019-04-22" ∧ not_pseudo_speaker o.2 = true.
Proof.
  assert (∃ st di o,
            main ana_file = Some st
            ∧ debates_info (global_metrics st) !! "2019-04-22" = Some di
            ∧ debate_texts Claim di !! "Ana: We need reform" = Some o)
    as (st & di & o & Hmain & Hd & Ho).
  { eexists _, _, _. split_and!; vm_compute; reflexivity. }
  exists st, di, o. split_and!; [exact Hmain|exact Hd|exact Ho| |].
  - exact (proj1 (debate_entries ana_file st Claim _ di _ o Hmain Hd Ho)).
  - destruct (debate_entries ana_file st Claim _ di _ o Hmain Hd Ho)
      as [_ Hitem].
    destruct Hitem as [Hps _]; [discriminate|exact Hps].
Defined.
(** The origins stored under the shared keys of a speaker or a party:
    the debate of each is one of the debates of the dictionary, and an
    origin of a claim or a proposal has an intervention identifier. *)
Definition origins_ok (D : string → Prop) (t : totals) : Prop :=
  (∀ d, d ∈ debates t → D d)
  ∧ ∀ k f o, texts_of k t !! f = Some o →
             o.1.1 ∈ debates t
             ∧ (k ≠ Fallacy → PyStr.truthy_opt o.1.2 = true).

Lemma origins_ok_new D : origins_ok D new_totals.
Proof.
  split.
  - intros d Hd. by apply elem_of_empty in Hd.
  - intros k f o. destruct k; simpl; by rewrite lookup_empty.
Qed.

Lemma origins_ok_add D iv mp d i t :
  D d → intervention_info iv mp d = Some i →
  origins_ok D t → origins_ok D (add_intervention d i t).
Proof.
  intros Hd Hinfo [Hdeb Htexts]. split.
  - intros d'. simpl. rewrite elem_of_union, elem_of_singleton.
    intros [Hin| ->]; [by apply Hdeb|done].
  - intros k f o. rewrite texts_of_add.
    intros [Hold|(e & He & _ & ->)]%record_texts_lookup.
    + destruct (Htexts _ _ _ Hold) as [Hin Hid]. split; [|done].
      simpl. apply elem_of_union. by left.
    + destruct (info_entry _ _ _ _ k e Hinfo He) as [Hdeb' Hitem]. simpl.
      split.
      * apply elem_of_union. right. by apply elem_of_singleton.
      * intros Hk. by destruct (Hitem Hk) as (_ & ? & _).
Qed.

(** X7.  Every origin stored at a speaker or at a party points into the
    run: the debate identifiers of a dictionary are identifiers of
    parsed files, the debate of each stored claim, proposal or fallacy
    is one of them, and a stored claim or proposal has a non-empty
    intervention identifier. *)
Theorem stored_origins
    (files : list (string * option (element string))) (st : state) :
  main files = Some st →
  (∀ s sp, speaker_metrics st !! s = Some sp →
           origins_ok (.∈ debate_ids files) (sp_totals sp))
  ∧ (∀ p pt, party_metrics st !! p = Some pt →
             origins_ok (.∈ debate_ids files) (pt_totals pt)).
Proof.
  intros Hmain.
  apply (run_invariant (.∈ debate_ids files)
           (λ st, (∀ s sp, speaker_metrics st !! s = Some sp →
                           origins_ok (.∈ debate_ids files) (sp_totals sp))
                  ∧ (∀ p pt, party_metrics st !! p = Some pt →
                             origins_ok (.∈ debate_ids files) (pt_totals pt))))
    with (files := files) (st := initial_state); [| | | |done].
  - intros st0 iv node d i sm' pm' [Hs Hp] Hd Hstep. simpl.
    apply process_intervention_inv in Hstep
      as (Hinfo & (sp & Hsp & Hspt) & (pt & Hpt & Hptt & _) & Hsm & Hpm).
    split.
    + intros s sp0 Hs0. destruct (decide (s = speaker_key i)) as [->|Hne].
      * rewrite Hsp in Hs0. injection Hs0 as <-. rewrite Hspt.
        apply (origins_ok_add _ _ _ _ _ _ Hd Hinfo).
        destruct (speaker_metrics st0 !! speaker_key i) as [old|] eqn:Hold;
          simpl; [by apply (Hs _ _ Hold)|apply origins_ok_new].
      * rewrite Hsm in Hs0 by done. by apply (Hs _ _ Hs0).
    + intros p pt0 Hp0. destruct (decide (p = party_key i)) as [->|Hne].
      * rewrite Hpt in Hp0. injection Hp0 as <-. rewrite Hptt.
        apply (origins_ok_add _ _ _ _ _ _ Hd Hinfo).
        destruct (party_metrics st0 !! party_key i) as [old|] eqn:Hold;
          simpl; [by apply (Hp _ _ Hold)|apply origins_ok_new].
      * rewrite Hpm in Hp0 by done. by apply (Hp _ _ Hp0).
  - intros st0 g' HJ _. done.
  - by apply Forall_forall.
  - split; intros ? ?; simpl; by rewrite lookup_empty.
Qed.

Lemma stored_origins_witness :
  ∃ st, main ana_file = Some st
        ∧ (∀ s sp, speaker_metrics st !! s = Some sp →
                   origins_ok (.∈ debate_ids ana_file) (sp_totals sp))
        ∧ (∀ p pt, party_metrics st !! p = Some pt →
                   origins_ok (.∈ debate_ids ana_file) (pt_totals pt)).
Proof.
  destruct (main ana_file) as [st|] eqn:Hmain;
    [|vm_compute in Hmain; discriminate].
  exists st. split; [reflexivity|].
  exact (stored_origins ana_file st Hmain).
Defined.
End report_texts.

(** ** The participants of a document *)

Section report_participants.
Import HtmlReports.

(** The dictionary entry made from one [participant] element. *)
Definition participant_of (p : element string) : participant :=
  Participant (PyStr.strip (ET.get_default p "full-name" "Unknown"))
              (PyStr.strip (ET.get_default p "party" "No party")).

Lemma parse_participants_unfold node :
  parse_participants (Some node)
  = foldl (λ m p, <[ET.get p "id" := participant_of p]> m) ∅
          (ET.findall node "participant").
Proof. reflexivity. Qed.

Lemma parse_participants_lookup
    (participants_node : option (element string)) (pid : option string) :
  parse_participants participants_node !! pid
  = participant_of
      <$> last (filter (λ p, ET.get p "id" = pid)
                  (from_option (λ node, ET.findall node "participant") []
                     participants_node)).
Proof.
  destruct participants_node as [node|]; [|done].
  rewrite parse_participants_unfold. simpl.
  induction (ET.findall node "participant") as [|p l IH] using rev_ind;
    [done|].
  rewrite foldl_app, filter_app. simpl.
  rewrite lookup_insert. case_decide as Hid.
  - rewrite filter_cons_True, filter_nil by done. by rewrite last_snoc.
  - rewrite filter_cons_False, filter_nil, app_nil_r by done. exact IH.
Qed.

(** X8.  The participants dictionary holds, for an identifier (or for
    the missing identifier), the entry of the last [participant] element
    that carries it, with name and party stripped and with the defaults
    "Unknown" and "No party" for a missing attribute; it has no entry
    for an identifier that no element carries, and none at all without a
    [participants] node. *)
Theorem parse_participants_last
    (participants_node : option (element string)) (pid : option string) :
  parse_participants participants_node !! pid
  = participant_of
      <$> last (filter (λ p, ET.get p "id" = pid)
                  (from_option (λ node, ET.findall node "participant") []
                     participants_node)).
Proof. apply parse_participants_lookup. Qed.
End report_participants.

(** ** Stripped names and the two pseudo-speakers *)

Section report_pseudo_speakers.
Import HtmlReports.

Lemma string_app_assoc (a b c : string) : (a +:+ b) +:+ c = a +:+ (b +:+ c).
Proof.
  induction a as [|x a IH]; [done|].
  change (String x ((a +:+ b) +:+ c) = String x (a +:+ (b +:+ c))).
  by rewrite IH.
Qed.

Lemma string_app_empty_r (s : string) : s +:+ "" = s.
Proof.
  induction s as [|x s IH]; [done|].
  change (String x (s +:+ "") = String x s). by rewrite IH.
Qed.

Lemma string_rev_app_spec (s1 s2 : string) :
  String.rev_app s1 s2 = String.rev s1 +:+ s2.
Proof.
  unfold String.rev. revert s2.
  induction s1 as [|x s1 IH]; intros s2; simpl; [done|].
  rewrite (IH (String x s2)), (IH (String x "")).
  by rewrite string_app_assoc.
Qed.

Lemma string_rev_cons (x : ascii) (s : string) :
  String.rev (String x s) = String.rev s +:+ String x "".
Proof. unfold String.rev at 1. simpl. apply string_rev_app_spec. Qed.

Lemma string_rev_app (a b : string) :
  String.rev (a +:+ b) = String.rev b +:+ String.rev a.
Proof.
  induction a as [|x a IH].
  - change (String.rev b = String.rev b +:+ "").
    by rewrite string_app_empty_r.
  - change (String.rev (String x (a +:+ b))
            = String.rev b +:+ String.rev (String x a)).
    by rewrite !string_rev_cons, IH, string_app_assoc.
Qed.

Lemma string_rev_involutive (s : string) : String.rev (String.rev s) = s.
Proof.
  induction s as [|x s IH]; [done|].
  by rewrite string_rev_cons, string_rev_app, IH.
Qed.

(** A string that does not begin with white space. *)
Definition no_leading_space (s : string) : Prop :=
  match s with
  | String c _ => PyStr.isspace c = false
  | EmptyString => True
  end.

Lemma lstrip_no_leading_space s : no_leading_space (PyStr.lstrip s).
Proof.
  induction s as [|c s IH]; simpl; [done|].
  by destruct (PyStr.isspace c) eqn:Hc.
Qed.

Lemma lstrip_fixed s : no_leading_space s → PyStr.lstrip s = s.
Proof. destruct s as [|c s]; simpl; [done|]. by intros ->. Qed.

Lemma lstrip_suffix s : ∃ w, s = w +:+ PyStr.lstrip s.
Proof.
  induction s as [|c s [w IH]]; [by exists ""|].
  cbn [PyStr.lstrip]. destruct (PyStr.isspace c).
  - exists (String c w).
    change (String c s = String c (w +:+ PyStr.lstrip s)). by rewrite <- IH.
  - by exists "".
Qed.

Lemma rstrip_prefix s : ∃ w, s = PyStr.rstrip s +:+ w.
Proof.
  destruct (lstrip_suffix (String.rev s)) as [w Hw].
  exists (String.rev w). unfold PyStr.rstrip.
  by rewrite <- string_rev_app, <- Hw, string_rev_involutive.
Qed.

Lemma rstrip_no_leading_space s :
  no_leading_space s → no_leading_space (PyStr.rstrip s).
Proof.
  destruct (rstrip_prefix s) as [w Hw]. revert Hw.
  generalize (PyStr.rstrip s). intros r ->. by destruct r.
Qed.

Lemma rstrip_idemp s : PyStr.rstrip (PyStr.rstrip s) = PyStr.rstrip s.
Proof.
  unfold PyStr.rstrip. rewrite string_rev_involutive.
  by rewrite (lstrip_fixed _ (lstrip_no_leading_space _)).
Qed.

(** [s.strip().strip() == s.strip()] *)
Lemma strip_idemp s : PyStr.strip (PyStr.strip s) = PyStr.strip s.
Proof.
  unfold PyStr.strip.
  rewrite (lstrip_fixed (PyStr.rstrip (PyStr.lstrip s))).
  - apply rstrip_idemp.
  - apply rstrip_no_leading_space, lstrip_no_leading_space.
Qed.

(** The names of a participants dictionary are stripped. *)
Lemma parse_participants_stripped node pid p :
  parse_participants node !! pid = Some p →
  PyStr.strip (full_name p) = full_name p.
Proof.
  rewrite parse_participants_lookup.
  destruct (last _) as [x|]; [|done]. simpl. intros [= <-]. simpl.
  apply strip_idemp.
Qed.

Lemma info_speaker_key iv mp d i :
  intervention_info iv mp d = Some i →
  speaker_key i
  = if PyStr.truthy (PyStr.strip (speaker_name_of iv mp))
    then PyStr.strip (speaker_name_of iv mp) else "Unknown".
Proof.
  unfold intervention_info. fold (speaker_name_of iv mp).
  destruct (ET.find iv "sentences"); [|done]. simpl. by intros [= <-].
Qed.

(** With a dictionary of [parse_participants], a speaker key that is one
    of the two pseudo-speakers belongs to a speaker of that very name. *)
Lemma pseudo_speaker_key iv node d i :
  intervention_info iv (parse_participants node) d = Some i →
  speaker_key i ∈ ["MODERADOR"; "DECLARACIONES"] →
  speaker_name_of iv (parse_participants node)
  ∈ ["MODERADOR"; "DECLARACIONES"].
Proof.
  intros Hinfo. rewrite (info_speaker_key _ _ _ _ Hinfo).
  assert (PyStr.strip (speaker_name_of iv (parse_participants node))
          = speaker_name_of iv (parse_participants node)) as ->.
  { unfold speaker_name_of.
    destruct (parse_participants node !! ET.get iv "participant-id")
      as [p|] eqn:Hp; simpl.
    - by apply (parse_participants_stripped _ _ _ Hp).
    - by vm_compute. }
  destruct (PyStr.truthy _); [done|].
  intros Hin. exfalso. revert Hin. rewrite !elem_of_cons, elem_of_nil.
  intros [?|[?|[]]]; discriminate.
Qed.

(** X9.  The dictionaries of the speakers MODERADOR and DECLARACIONES
    never hold a claim or a proposal text, whatever the documents hold:
    the names of the participants are stored stripped, so an
    intervention counted under one of the two keys is one of a speaker
    of exactly that name, whose claims and proposals are counted and
    not recorded. *)
Theorem pseudo_speaker_dictionaries
    (files : list (string * option (element string))) (st : state)
    (s : string) (sp : speaker_acc) :
  main files = Some st →
  s ∈ ["MODERADOR"; "DECLARACIONES"] →
  speaker_metrics st !! s = Some sp →
  claims_texts (sp_totals sp) = ∅ ∧ proposals_texts (sp_totals sp) = ∅.
Proof.
  intros Hmain Hs. revert sp.
  apply (run_invariant_parsed
           (λ st, ∀ sp, speaker_metrics st !! s = Some sp →
                        claims_texts (sp_totals sp) = ∅
                        ∧ proposals_texts (sp_totals sp) = ∅))
    with (files := files) (st := initial_state); [| | |done].
  - intros st0 iv node d i sm' pm' HJ Hstep sp. simpl.
    apply process_intervention_inv in Hstep
      as (Hinfo & (sp' & Hsp & Hspt) & _ & Hsm & _).
    destruct (decide (s = speaker_key i)) as [->|Hne].
    + rewrite Hsp. intros [= <-]. rewrite Hspt. simpl.
      destruct (pseudo_speaker_info _ _ _ _ Hinfo
                  (pseudo_speaker_key _ _ _ _ Hinfo Hs)) as [-> ->].
      simpl.
      destruct (speaker_metrics st0 !! speaker_key i) as [old|] eqn:Hold;
        simpl; [by apply HJ|done].
    + rewrite Hsm by done. apply HJ.
  - intros st0 g' HJ _. done.
  - intros sp. simpl. by rewrite lookup_empty.
Qed.

Lemma pseudo_speaker_dictionaries_witness :
  ∃ st sp,
    main reform_files = Some st
    ∧ speaker_metrics st !! "MODERADOR" = Some sp
    ∧ claims (sp_totals sp) = 1
    ∧ claims_texts (sp_totals sp) = ∅ ∧ proposals_texts (sp_totals sp) = ∅.
Proof.
  assert (∃ st sp,
            main reform_files = Some st
            ∧ speaker_metrics st !! "MODERADOR" = Some sp
            ∧ claims (sp_totals sp) = 1) as (st & sp & Hmain & Hsp & Hc).
  { eexists _, _. split_and!; vm_compute; reflexivity. }
  destruct (pseudo_speaker_dictionaries reform_files st "MODERADOR" sp Hmain)
    as [Hclaims Hproposals]; [left|exact Hsp|].
  exists st, sp. by split_and!.
Defined.
End report_pseudo_speakers.

(** ** The merge of a whole answer *)

Section merge_batch.
Import ClassifyEmotions.

(** The position at which the loop over the sentences of an intervention
    stops for [sent_id]: that of the first sentence child with that
    [id]. *)
Fixpoint hit_index (sent_id : option string) (cs : list tree) : option nat :=
  match cs with
  | [] => None
  | s :: rest =>
      if hits_sentence sent_id s then Some 0
      else S <$> hit_index sent_id rest
  end.

(** The record [r] writes to the sentence at position [j] of the child
    [c] of the root. *)
Definition writes_to (c : tree) (j : nat)
    (r : option string * option string * option string) : Prop :=
  hits_intervention r.1.1 c = true ∧ hit_index r.1.2 (children c) = Some j.

Local Instance writes_to_dec c j r : Decision (writes_to c j r).
Proof. unfold writes_to. apply _. Defined.

(** The sentence [s] at position [j] of [c] after all records. *)
Definition written (c : tree) (j : nat)
    (rs : list (option string * option string * option string)) (s : tree)
    : tree :=
  match last (filter (writes_to c j) rs) with
  | Some r => ET.set s "emotions" r.2
  | None => s
  end.

Lemma filter_fmap_list {A B} (f : A → B) (P : B → Prop)
    `{!∀ x, Decision (P x)} (l : list A) :
  filter P (f <$> l) = f <$> filter (λ x, P (f x)) l.
Proof.
  induction l as [|x l IH]; [done|]. rewrite fmap_cons.
  destruct (decide (P (f x))) as [HP|HP].
  - rewrite !filter_cons_True by done. by rewrite fmap_cons, IH.
  - by rewrite !filter_cons_False by done.
Qed.

Lemma tag_all_at ops cs j s :
  cs !! j = Some s →
  tag_all ops cs !! j
  = Some (match last (filter (λ op, hit_index op.1 cs = Some j) ops) with
          | Some op => ET.set s "emotions" op.2
          | None => s
          end).
Proof.
  revert ops j. induction cs as [|s0 rest IH]; intros ops j Hj; [done|].
  rewrite (tag_all_cons (λ sid, hits_sentence sid s0)) by done.
  destruct j as [|j]; simpl in Hj.
  - injection Hj as ->. simpl. rewrite set_all_last_hit. unfold last_hit.
    rewrite fmap_last.
    rewrite (list_filter_iff _ (λ op, hit_index op.1 (s :: rest) = Some 0)).
    + by destruct (last _).
    + intros op. simpl. destruct (hits_sentence op.1 s); [done|].
      split; [done|]. by destruct (hit_index op.1 rest).
  - simpl. rewrite (IH _ _ Hj), list_filter_filter.
    rewrite (list_filter_iff _
               (λ op, hit_index op.1 (s0 :: rest) = Some (S j))); [done|].
    intros op. simpl. destruct (hits_sentence op.1 s0).
    + split; [by intros [_ ?]|done].
    + destruct (hit_index op.1 rest) as [n|]; simpl.
      * split; [by intros [[= ->] _]|]. by intros [= ->].
      * split; [by intros [? _]|done].
Qed.

Lemma length_tag_all ops cs : length (tag_all ops cs) = length cs.
Proof.
  revert cs. induction ops as [|op ops IH]; intros cs; [done|].
  change (tag_all (op :: ops) cs)
    with (tag_all ops (tag_sentence op.1 op.2 cs)).
  by rewrite IH, length_tag_sentence.
Qed.

Lemma merge_back_written
    (lines : list (option (element string))) (root c s : tree) (i j : nat) :
  children root !! i = Some c → children c !! j = Some s →
  ∃ c', children (merge_back lines root) !! i = Some c'
        ∧ tag c' = tag c ∧ attrib c' = attrib c
        ∧ length (children c') = length (children c)
        ∧ children c' !! j = Some (written c j (records lines) s).
Proof.
  intros Hc Hs. rewrite merge_back_children.
  destruct root as [t a x cs]. simpl in *.
  rewrite list_lookup_fmap, Hc. simpl. eexists. split; [done|].
  rewrite visit_all_children. destruct c as [tc ac xc csc]. simpl in *.
  split_and!; [done..| |].
  - apply length_tag_all.
  - rewrite (tag_all_at _ _ _ _ Hs). unfold written, ops_for.
    rewrite filter_fmap_list, fmap_last, list_filter_filter. simpl.
    rewrite (list_filter_iff _ (writes_to (Element tc ac xc csc) j)).
    + by destruct (last _).
    + intros r. unfold writes_to. simpl. tauto.
Qed.

(** X10.  The merge of a whole answer, sentence by sentence: the
    sentence at position [j] of a child [c] of the root ends with the
    [tags] of the last line that names the [id] of [c] and whose
    [sent_id] is first carried, among the sentences of [c], by the one
    at position [j]; without such a line the sentence is as it was.  A
    later line overrides an earlier one; a line that names no
    intervention or no sentence of the tree writes nothing; a sentence
    whose [id] an earlier sentence of the same intervention carries is
    never written. *)
Theorem merge_back_last_record
    (lines : list (option (element string))) (root c s : tree) (i j : nat) :
  children root !! i = Some c → children c !! j = Some s →
  ∃ c', children (merge_back lines root) !! i = Some c'
        ∧ tag c' = tag c ∧ attrib c' = attrib c
        ∧ length (children c') = length (children c)
        ∧ children c' !! j = Some (written c j (records lines) s).
Proof. apply merge_back_written. Qed.

Lemma merge_back_last_record_witness :
  ∃ c', children (merge_back [Some joy_record]
                    (filtered_root duplicate_id_document)) !! 1 = Some c'
        ∧ (λ s, ET.tget s "emotions") <$> children c' !! 0
          = Some (Some "joy").
Proof.
  destruct (merge_back_last_record [Some joy_record]
              (filtered_root duplicate_id_document)
              (new_intervention
                 (Element "intervention" {["id" := "i000"]} None
                    [Element "sentences" ∅ None
                       [Element "sentence" {["id" := "s0"]}
                          (Some "Muchas gracias") []]]))
              (Element "sentence" {["id" := Some "s0"]}
                 (Some "Muchas gracias") [])
              1 0) as (c' & Hc' & _ & _ & _ & Hs');
    [by vm_compute..|].
  exists c'. split; [exact Hc'|]. rewrite Hs'. by vm_compute.
Defined.
Lemma serialize_is_Some (e : tree) :
  is_Some (ET.serialize e)
  ↔ map_Forall (λ _ v, is_Some v) (attrib e)
    ∧ Forall (λ c, is_Some (ET.serialize c)) (children e).
Proof.
  destruct e as [t a x cs]. rewrite serialize_unfold. simpl.
  unfold ET.str_attrib. destruct (decide _) as [Ha|Ha]; simpl.
  - pose proof (mapM_is_Some ET.serialize cs) as Hm.
    destruct (mapM ET.serialize cs) as [cs'|]; simpl.
    + split; [|by eauto]. intros _. split; [done|].
      apply (proj1 Hm). by eexists.
    + split; [by intros [? [=]]|]. intros [_ Hcs].
      by destruct (proj2 Hm Hcs) as [? [=]].
  - split; [by intros [? [=]]|]. by intros [? _].
Qed.

Lemma merge_back_child lines root i :
  children (merge_back lines root) !! i
  = visit_all (records lines) <$> children root !! i.
Proof.
  rewrite merge_back_children. destruct root as [t a x cs]. simpl.
  apply list_lookup_fmap.
Qed.

(** The shape of the reduced document. *)
Lemma filtered_root_shape doc i c :
  children (filtered_root doc) !! i = Some c →
  map_Forall (λ _ v, is_Some v) (attrib c)
  ∧ ∀ j s, children c !! j = Some s →
           map_Forall (λ _ v, is_Some v) (attrib s) ∧ children s = [].
Proof.
  unfold filtered_root. simpl.
  intros (iv & -> & _)%list_lookup_fmap_Some. simpl. split.
  - by apply map_Forall_singleton.
  - intros j s (sentence & _ & Hnew)%list_elem_of_lookup_2%list_elem_of_omap.
    unfold new_sentence in Hnew. destruct (text sentence) as [x|]; [|done].
    destruct (PyStr.truthy x); [|done]. injection Hnew as <-. simpl.
    split; [|done]. by apply map_Forall_singleton.
Qed.

(** X11.  The annotated document is written exactly when, for every
    sentence of the reduced document, the last line of the answer that
    writes to it carries a [tags] attribute.  A line without [tags]
    stores [None] in the sentence and makes the final serialisation
    raise, unless a later line writes to the same sentence. *)
Theorem generate_emotions_completes
    (doc : element string) (lines : list (option (element string))) :
  is_Some (generate_emotions doc lines)
  ↔ ∀ i c j s r,
      children (filtered_root doc) !! i = Some c →
      children c !! j = Some s →
      last (filter (writes_to c j) (records lines)) = Some r →
      is_Some r.2.
Proof.
  unfold generate_emotions. rewrite serialize_is_Some. split.
  - intros [_ Hcs] i c j s r Hc Hs Hlast.
    destruct (merge_back_written lines _ _ _ _ _ Hc Hs)
      as (c' & Hc' & _ & _ & _ & Hs').
    unfold written in Hs'. rewrite Hlast in Hs'.
    rewrite Forall_lookup in Hcs. apply (Hcs _ _) in Hc'.
    apply serialize_is_Some in Hc' as [_ Hss].
    rewrite Forall_lookup in Hss. apply (Hss _ _) in Hs'.
    apply serialize_is_Some in Hs' as [Ha _].
    apply (Ha "emotions"). destruct s. unfold ET.set. simpl.
    apply lookup_insert_eq.
  - intros Hlines. split.
    { rewrite merge_back_children. simpl. apply map_Forall_empty. }
    apply Forall_lookup. intros i c' Hc'.
    assert (∃ c, children (filtered_root doc) !! i = Some c) as [c Hc].
    { rewrite merge_back_child in Hc'.
      destruct (children (filtered_root doc) !! i) as [c|]; [|done].
      by exists c. }
    destruct (filtered_root_shape _ _ _ Hc) as [Hattr Hsent].
    apply serialize_is_Some. split.
    + destruct (children c !! 0) as [s|] eqn:Hs.
      * destruct (merge_back_written lines _ _ _ _ _ Hc Hs)
          as (c'' & Hc'' & _ & Ha & _).
        rewrite Hc' in Hc''. injection Hc'' as <-. by rewrite Ha.
      * rewrite merge_back_child, Hc in Hc'. injection Hc' as <-.
        rewrite visit_all_children. by destruct c.
    + apply Forall_lookup. intros j s' Hs'.
      assert (∃ s, children c !! j = Some s) as [s Hs].
      { apply lookup_lt_is_Some. apply lookup_lt_Some in Hs'.
        rewrite merge_back_child, Hc in Hc'. injection Hc' as <-.
        rewrite visit_all_children in Hs'. destruct c. simpl in Hs'.
        by rewrite length_tag_all in Hs'. }
      destruct (merge_back_written lines _ _ _ _ _ Hc Hs)
        as (c'' & Hc'' & _ & _ & _ & Hs'').
      rewrite Hc' in Hc''. injection Hc'' as <-.
      rewrite Hs' in Hs''. injection Hs'' as ->.
      destruct (Hsent _ _ Hs) as [Has Hnil].
      apply serialize_is_Some. unfold written.
      destruct (last _) as [r|] eqn:Hlast.
      * destruct s as [ts as_ xs css]. unfold ET.set. simpl in *.
        split; [|by rewrite Hnil].
        apply map_Forall_insert_2; [|done].
        by apply (Hlines _ _ _ _ _ Hc Hs Hlast).
      * split; [done|]. by rewrite Hnil.
Qed.

(** A line for the one sentence of the assembled document that carries
    no [tags]. *)
Definition untagged_record : element string :=
  Element "emotion" (<["int_id" := "i000"]> {["sent_id" := "s0"]}) None [].

Lemma generate_emotions_completes_witness :
  generate_emotions assembled_document [Some joy_record; Some untagged_record]
  = None
  ∧ is_Some (generate_emotions assembled_document
               [Some untagged_record; Some joy_record]).
Proof.
  split; [by vm_compute|].
  apply (proj2 (generate_emotions_completes assembled_document
                  [Some untagged_record; Some joy_record])).
  intros i c j s r Hc Hs.
  destruct i as [|i]; [|by vm_compute in Hc]. vm_compute in Hc.
  injection Hc as <-.
  destruct j as [|j]; [|by vm_compute in Hs].
  vm_compute. intros [= <-]. by eexists.
Defined.
End merge_batch.

(** ** The assembly of the interventions *)

Section assembly.
Import CompileXml.

Lemma assign_from_elem time l label :
  assign_from time l = Some label → label ∈ l.*1.
Proof.
  induction l as [|[label0 start] [|[label1 next] rest] IH]; [done| |].
  - simpl. intros [= ->]. left.
  - rewrite assign_from_cons.
    destruct (PrimFloat.leb start time && PrimFloat.ltb time next).
    + intros [= ->]. rewrite fmap_cons. left.
    + intros Hrest. rewrite fmap_cons. right. by apply IH.
Qed.

Lemma assign_from_None time l : assign_from time l = None ↔ l = [].
Proof.
  induction l as [|[label0 start] [|[label1 next] rest] IH]; [done|done|].
  rewrite assign_from_cons.
  destruct (PrimFloat.leb start time && PrimFloat.ltb time next); [done|].
  rewrite IH. done.
Qed.

Lemma blocks_dict_snoc l label start :
  blocks_dict (l ++ [(label, start)]) = <[label := length l]> (blocks_dict l).
Proof.
  unfold blocks_dict. rewrite imap_app, foldl_app. simpl.
  by rewrite Nat.add_0_r.
Qed.

Lemma blocks_dict_is_Some blocks label :
  is_Some (blocks_dict blocks !! label) ↔ label ∈ blocks.*1.
Proof.
  induction blocks as [|[label0 start] blocks IH] using rev_ind.
  - unfold blocks_dict. simpl. rewrite lookup_empty, elem_of_nil.
    split; [by intros [? [=]]|done].
  - rewrite blocks_dict_snoc, fmap_app, elem_of_app, lookup_insert.
    simpl. rewrite list_elem_of_singleton, <- IH.
    case_decide as Hl.
    + subst. split; [by right|]. intros _. by eexists.
    + split; [by left|]. intros [?|?]; [done|congruence].
Qed.

(** X12.  [assign_block] and [assign_topic] return [None] only on the
    empty list.  On any other list, sorted or not and for any time, the
    result is a label of the list; it is therefore a key of
    [blocks_dict], so that the lookup of the block of a row cannot
    raise. *)
Theorem assign_block_label (time : float) (blocks : list (string * float)) :
  (assign_block time blocks = None ↔ blocks = [])
  ∧ (assign_topic time blocks = None ↔ blocks = [])
  ∧ ∀ label, assign_block time blocks = Some label →
             label ∈ blocks.*1 ∧ is_Some (blocks_dict blocks !! label).
Proof.
  change (assign_topic time blocks) with (assign_block time blocks).
  rewrite assign_block_from. split_and!; [apply assign_from_None..|].
  intros label Hl%assign_from_elem. split; [done|].
  by apply blocks_dict_is_Some.
Qed.

(** [for i, row in df.iterrows()], from the state [st]. *)
Fixpoint place_rows (blocks topics : list (string * float))
    (entities : list (float * list (string * string)))
    (proposals fact_checking : list (float * list string))
    (participants_dict : gmap string string)
    (st : nat * list (string * tree)) (rows : list row)
    : option (nat * list (string * tree)) :=
  match rows with
  | [] => Some st
  | r :: rest =>
      st' ← place_turn blocks topics entities proposals fact_checking
               participants_dict st r;
      place_rows blocks topics entities proposals fact_checking
        participants_dict st' rest
  end.

(** The block of a row that passes the test [if block_topic:]. *)
Definition row_label (blocks : list (string * float)) (r : row)
    : option string :=
  label ← assign_block (inicio r) blocks;
  if PyStr.truthy label then Some label else None.

Section rows.
Variables (blocks topics : list (string * float)).
Variable entities : list (float * list (string * string)).
Variables (proposals fact_checking : list (float * list string)).
Variable participants_dict : gmap string string.

Local Abbreviation place_turn' :=
  (place_turn blocks topics entities proposals fact_checking participants_dict).
Local Abbreviation place_rows' :=
  (place_rows blocks topics entities proposals fact_checking participants_dict).

Lemma place_turn_cases st r :
  match row_label blocks r with
  | None => place_turn' st r = Some st
  | Some label =>
      match participants_dict !! nombre r with
      | None => place_turn' st r = None
      | Some pid =>
          ∃ iv, place_turn' st r = Some (S st.1, st.2 ++ [(label, iv)])
                ∧ tag iv = "intervention"
                ∧ ET.tget iv "id" = Some ("i" +:+ PyStr.format_03d st.1)
                ∧ ET.tget iv "participant-id" = Some pid
                ∧ ET.tget iv "topic" = assign_topic (inicio r) topics
      end
  end.
Proof.
  unfold row_label, place_turn.
  destruct (assign_block (inicio r) blocks) as [label|]; simpl; [|done].
  destruct (PyStr.truthy label); [|done].
  destruct (participants_dict !! nombre r) as [pid|]; simpl; [|done].
  eexists. split; [done|]. split_and!; [done|..].
  - unfold ET.tget. simpl. by rewrite lookup_insert_eq.
  - unfold ET.tget. simpl.
    by rewrite lookup_insert_ne, lookup_insert_eq.
  - unfold ET.tget. simpl.
    rewrite lookup_insert_ne, lookup_insert_ne, lookup_insert_eq by done.
    done.
Qed.

(** X13.  The loop over the rows, for rows whose start time has been
    parsed, runs to its end exactly when every row that gets a non-empty
    block label has a registered speaker; a row without a label is
    skipped, whoever speaks, and with an empty list of blocks the loop
    skips every row and cannot fail. *)
Theorem place_rows_completes (st : nat * list (string * tree))
    (rows : list row) :
  (is_Some (place_rows' st rows)
   ↔ ∀ r, r ∈ rows → is_Some (row_label blocks r) →
          is_Some (participants_dict !! nombre r))
  ∧ (blocks = [] → place_rows' st rows = Some st).
Proof.
  split.
  - revert st. induction rows as [|r rows IH]; intros st.
    { simpl. split; [|by eauto]. intros _ r Hr. by apply elem_of_nil in Hr. }
    cbn [place_rows]. pose proof (place_turn_cases st r) as Hcase.
    destruct (row_label blocks r) as [label|] eqn:Hlabel.
    + destruct (participants_dict !! nombre r) as [pid|] eqn:Hpid.
      * destruct Hcase as (iv & -> & _). simpl. rewrite IH. split.
        -- intros Hall r' [->|Hr']%elem_of_cons; [by rewrite Hpid|].
           by apply Hall.
        -- intros Hall r' Hr'. apply Hall. by right.
      * cbv beta iota in Hcase. rewrite Hcase. simpl.
        split; [by intros [? [=]]|].
        intros Hall. destruct (Hall r) as [? Hr]; [left|by rewrite Hlabel|].
        by rewrite Hpid in Hr.
    + cbv beta iota in Hcase. rewrite Hcase. simpl. rewrite IH. split.
      * intros Hall r' [->|Hr']%elem_of_cons; [|by apply Hall].
        rewrite Hlabel. by intros [? [=]].
      * intros Hall r' Hr'. apply Hall. by right.
  - intros Hempty. induction rows as [|r rows IH]; [done|].
    cbn [place_rows]. pose proof (place_turn_cases st r) as Hcase.
    assert (row_label blocks r = None) as Hlabel
      by (unfold row_label; by rewrite Hempty).
    destruct (row_label blocks r); [done|]. by rewrite Hcase.
Qed.

Lemma place_rows_numbering st rows n placed :
  place_rows' st rows = Some (n, placed) →
  ∃ news, placed = st.2 ++ news
          ∧ n = st.1 + length news
          ∧ news.*1 = omap (row_label blocks) rows
          ∧ ∀ k label iv, news !! k = Some (label, iv) →
              tag iv = "intervention"
              ∧ ET.tget iv "id" = Some ("i" +:+ PyStr.format_03d (st.1 + k)).
Proof.
  revert st. induction rows as [|r rows IH]; intros st.
  { destruct st as [n0 placed0]. simpl. intros [= <- <-]. exists [].
    rewrite app_nil_r. simpl. split_and!; [done|lia|done|].
    by intros k label iv. }
  cbn [place_rows]. pose proof (place_turn_cases st r) as Hcase.
  destruct (row_label blocks r) as [label|] eqn:Hlabel.
  - destruct (participants_dict !! nombre r) as [pid|] eqn:Hpid.
    + destruct Hcase as (iv & -> & Htag & Hid & _). simpl.
      intros (news & -> & -> & Hlabels & Hids)%IH. simpl in *.
      exists ((label, iv) :: news). rewrite <- (assoc_L (++)). simpl.
      rewrite Hlabel. split_and!; [done|lia|by f_equal|].
      intros [|k] label' iv'; simpl.
      * intros [= <- <-]. by rewrite Nat.add_0_r.
      * intros Hk. destruct (Hids _ _ _ Hk) as [? Hid'].
        split; [done|]. rewrite Hid'. do 3 f_equal. lia.
    + cbv beta iota in Hcase. by rewrite Hcase.
  - cbv beta iota in Hcase. rewrite Hcase. simpl.
    intros (news & ? & ? & Hlabels & Hids)%IH.
    exists news. by rewrite Hlabel.
Qed.
End rows.
End assembly.

(** ** The identifiers of a document *)

Section identifiers.
Import CompileXml.

Lemma pretty_N_go_head (x : N) (s : string) :
  (0 < x)%N →
  ∃ c rest, pretty_N_go x s = String c rest ∧ c ≠ "0"%char.
Proof.
  revert s. induction (N.lt_wf_0 x) as [x _ IH]. intros s Hx.
  rewrite pretty_N_go_step by done.
  destruct (decide (x < 10)%N) as [Hsmall|Hbig].
  - rewrite N.div_small, N.mod_small, pretty_N_go_0 by done.
    eexists _, _. split; [done|].
    assert (x = 1 ∨ x = 2 ∨ x = 3 ∨ x = 4 ∨ x = 5 ∨ x = 6
            ∨ x = 7 ∨ x = 8 ∨ x = 9)%N as Hcases by lia.
    destruct Hcases as [->|[->|[->|[->|[->|[->|[->|[->| ->]]]]]]]]; done.
  - apply IH.
    + apply N.div_lt; lia.
    + apply N.div_str_pos. lia.
Qed.

(** A decimal numeral is "0" or begins with another digit. *)
Lemma pretty_nat_head (n : nat) :
  pretty n = "0" ∨ ∃ c rest, pretty n = String c rest ∧ c ≠ "0"%char.
Proof.
  unfold pretty, pretty_nat, pretty, pretty_N.
  case_decide as Hn; [by left|]. right. apply pretty_N_go_head. lia.
Qed.

(** The numeral without the zeros added on the left. *)
Fixpoint unpad (s : string) : string :=
  match s with
  | String c rest =>
      if Ascii.eqb c "0" && negb (bool_decide (rest = ""))
      then unpad rest else s
  | EmptyString => EmptyString
  end.

Lemma unpad_numeral (n : nat) : unpad (pretty n) = pretty n.
Proof.
  destruct (pretty_nat_head n) as [->|(c & rest & -> & Hc)]; [done|].
  simpl. apply Ascii.eqb_neq in Hc. by rewrite Hc.
Qed.

Lemma zeros_succ (k : nat) :
  String.concat "" (replicate (S k) "0")
  = String "0" (String.concat "" (replicate k "0")).
Proof. by destruct k. Qed.

Lemma unpad_zeros (k : nat) (s : string) :
  s ≠ "" → unpad (String.concat "" (replicate k "0") +:+ s) = unpad s.
Proof.
  intros Hs. induction k as [|k IH]; [done|].
  rewrite zeros_succ.
  change (String "0" ?a +:+ s) with (String "0" (a +:+ s)).
  cbn [unpad]. rewrite Ascii.eqb_refl. simpl.
  rewrite bool_decide_eq_false_2; [done|].
  destruct (String.concat "" (replicate k "0")); [done|discriminate].
Qed.

Lemma pretty_nat_nonempty (n : nat) : pretty n ≠ "".
Proof.
  destruct (pretty_nat_head n) as [->|(c & rest & -> & _)]; done.
Qed.

(** [f"{n:03d}"] of different numbers differ. *)
Lemma format_03d_inj (n m : nat) :
  PyStr.format_03d n = PyStr.format_03d m → n = m.
Proof.
  unfold PyStr.format_03d. intros H%(f_equal unpad).
  rewrite !unpad_zeros, !unpad_numeral in H by apply pretty_nat_nonempty.
  by apply (inj pretty).
Qed.

Lemma string_app_inj_l (p a b : string) : p +:+ a = p +:+ b → a = b.
Proof. apply (inj (String.app p)). Qed.

(** X14.  The interventions that the loop appends are numbered in the
    order of the rows, from [i000]: after the loop the counter is the
    number of interventions appended, their blocks are the labels of the
    rows that have one, in row order, each label is a key of
    [blocks_dict], the intervention at position [k] has the identifier
    [i] followed by [k] on three digits or more, and no two
    interventions share an identifier. *)
Theorem intervention_identifiers
    (blocks topics : list (string * float))
    (entities : list (float * list (string * string)))
    (proposals fact_checking : list (float * list string))
    (participants_dict : gmap string string)
    (rows : list row) (n : nat) (placed : list (string * tree)) :
  place_rows blocks topics entities proposals fact_checking participants_dict
    (0, []) rows = Some (n, placed) →
  n = length placed
  ∧ placed.*1 = omap (row_label blocks) rows
  ∧ (∀ k label iv, placed !! k = Some (label, iv) →
       tag iv = "intervention"
       ∧ ET.tget iv "id" = Some ("i" +:+ PyStr.format_03d k)
       ∧ is_Some (blocks_dict blocks !! label))
  ∧ NoDup ((λ p, ET.tget p.2 "id") <$> placed).
Proof.
  intros (news & -> & -> & Hlabels & Hids)%place_rows_numbering.
  simpl in *. split_and!; [done..| |].
  - intros k label iv Hk. destruct (Hids _ _ _ Hk) as [Htag Hid].
    split_and!; [done..|].
    apply blocks_dict_is_Some.
    assert (label ∈ news.*1) as Hin.
    { apply list_elem_of_fmap. exists (label, iv).
      split; [done|]. by apply list_elem_of_lookup_2 in Hk. }
    rewrite Hlabels in Hin.
    apply list_elem_of_omap in Hin as (r & _ & Hr). unfold row_label in Hr.
    destruct (assign_block (inicio r) blocks) as [label'|] eqn:Hb; [|done].
    simpl in Hr. destruct (PyStr.truthy label'); [|done].
    injection Hr as ->.
    rewrite assign_block_from in Hb. by apply assign_from_elem in Hb.
  - apply NoDup_alt. intros k k' x.
    rewrite !list_lookup_fmap.
    destruct (news !! k) as [[label iv]|] eqn:Hk; [|done].
    destruct (news !! k') as [[label' iv']|] eqn:Hk'; [|done].
    simpl. destruct (Hids _ _ _ Hk) as [_ ->].
    destruct (Hids _ _ _ Hk') as [_ ->].
    intros [= <-] [= H%string_app_inj_l]. by apply format_03d_inj.
Qed.
Lemma intervention_identifiers_witness :
  ∃ n placed,
    place_rows example_blocks example_blocks example_entities [] []
      {["Ana" := "p0"]} (0, []) [example_row; example_row]
    = Some (n, placed)
    ∧ n = 2 ∧ placed.*1 = ["Economy"; "Economy"]
    ∧ NoDup ((λ p, ET.tget p.2 "id") <$> placed).
Proof.
  destruct (place_rows example_blocks example_blocks example_entities [] []
              {["Ana" := "p0"]} (0, []) [example_row; example_row])
    as [[n placed]|] eqn:Hrows; [|vm_compute in Hrows; discriminate].
  exists n, placed. split; [reflexivity|].
  destruct (intervention_identifiers _ _ _ _ _ _ _ _ _ Hrows)
    as (Hn & Hlabels & _ & Hnodup).
  split_and!; [|by rewrite Hlabels|exact Hnodup].
  vm_compute in Hrows. by injection Hrows as <- _.
Defined.

(** An element without children whose attributes all have a value, and
    an element without attributes, can be written when its children
    can. *)
Lemma leaf_written t (a : gmap string (option string)) x :
  map_Forall (λ _ v, is_Some v) a → is_Some (ET.serialize (Element t a x [])).
Proof. intros Ha. apply serialize_is_Some. by split. Qed.

Lemma node_written t x cs :
  Forall (λ c, is_Some (ET.serialize c)) cs →
  is_Some (ET.serialize (Element t ∅ x cs)).
Proof.
  intros Hcs. apply serialize_is_Some. split; [apply map_Forall_empty|done].
Qed.

Lemma Forall_imap {A B} (P : B → Prop) (f : nat → A → B) (l : list A) :
  (∀ k x, P (f k x)) → Forall P (imap f l).
Proof.
  intros Hf. apply Forall_lookup. intros k y.
  rewrite list_lookup_imap. destruct (l !! k); [|done]. by intros [= <-].
Qed.

Lemma sentence_elements_written texto :
  Forall (λ c, is_Some (ET.serialize c)) (sentence_elements texto).
Proof.
  unfold sentence_elements. apply Forall_forall.
  intros s ([sent_id sentence] & _ & Hs)%list_elem_of_omap.
  destruct (PyStr.truthy sentence); [|done]. injection Hs as <-.
  apply leaf_written. by apply map_Forall_singleton.
Qed.

Lemma intervention_element_written gid pid topic ents props facts r :
  is_Some (ET.serialize (intervention_element gid pid topic ents props facts r))
  ↔ is_Some topic.
Proof.
  rewrite serialize_is_Some. unfold intervention_element.
  cbn [attrib children]. split.
  - intros [Ha _]. apply (Ha "topic").
    by rewrite lookup_insert_ne, lookup_insert_ne, lookup_insert_eq.
  - intros Htopic. split.
    { repeat (apply map_Forall_insert_2; [by eauto|]).
      apply map_Forall_empty. }
    repeat apply Forall_app_2.
    + destruct ents as [|e ents]; [done|]. apply Forall_singleton.
      apply node_written, (Forall_imap _ mention_element (e :: ents)).
      intros k m. apply leaf_written.
      repeat (apply map_Forall_insert_2; [by eauto|]).
      apply map_Forall_empty.
    + destruct props as [[|p ps]|]; [done| |done]. apply Forall_singleton.
      apply node_written, (Forall_imap _ proposal_element (p :: ps)).
      intros k m. apply leaf_written.
      by apply map_Forall_singleton.
    + destruct facts as [[|c cs]|]; [done| |done]. apply Forall_singleton.
      apply node_written, (Forall_imap _ claim_element (c :: cs)).
      intros k m. apply leaf_written.
      by apply map_Forall_singleton.
    + apply Forall_singleton, leaf_written. intros k v.
      rewrite lookup_fmap. destruct (ling_stats r !! k); [|done].
      intros [= <-]. by eexists.
    + apply Forall_singleton, node_written, sentence_elements_written.
Qed.

(** X15.  An intervention that the loop appends can be written to the
    output file exactly when the list of topics is not empty: with no
    topics its [topic] attribute is [None], on which the serialisation
    raises; every other attribute of the intervention and of the elements
    below it has a value. *)
Theorem placed_intervention_written
    (blocks topics : list (string * float))
    (entities : list (float * list (string * string)))
    (proposals fact_checking : list (float * list string))
    (participants_dict : gmap string string)
    (st : nat * list (string * tree)) (r : row) (label : string) (iv : tree) :
  place_turn blocks topics entities proposals fact_checking participants_dict
    st r = Some (S st.1, st.2 ++ [(label, iv)]) →
  is_Some (ET.serialize iv) ↔ topics ≠ [].
Proof.
  unfold place_turn.
  destruct (assign_block (inicio r) blocks) as [label'|]; simpl.
  - destruct (PyStr.truthy label').
    + destruct (participants_dict !! nombre r) as [pid|]; simpl; [|done].
      intros [= Hplaced%app_inv_head]. injection Hplaced as <- <-.
      rewrite intervention_element_written.
      change (assign_topic (inicio r) topics)
        with (assign_block (inicio r) topics).
      rewrite assign_block_from, <- (assign_from_None (inicio r) topics).
      by rewrite <- not_eq_None_Some.
    + intros [= Hst%(f_equal fst)]. simpl in Hst. lia.
  - intros [= Hst%(f_equal fst)]. simpl in Hst. lia.
Qed.

Lemma placed_intervention_written_witness :
  ∃ iv, place_turn example_blocks [] example_entities [] []
          {["Ana" := "p0"]} (0, []) example_row
        = Some (1, [("Economy", iv)])
        ∧ ET.serialize iv = None.
Proof.
  eexists. split; [vm_compute; reflexivity|].
  apply eq_None_not_Some. intros Hw.
  by apply (placed_intervention_written example_blocks [] example_entities
              [] [] {["Ana" := "p0"]} (0, []) example_row "Economy") in Hw;
    [|vm_compute; reflexivity].
Defined.
(** The identifier of an element. *)
Definition id_of (e : tree) : option string := ET.tget e "id".

Lemma numbered_ids_NoDup {A} (prefix : string) (f : nat → A → tree)
    (l : list A) :
  (∀ k x, id_of (f k x) = Some (prefix +:+ pretty k)) →
  NoDup (id_of <$> imap f l).
Proof.
  intros Hf. apply NoDup_alt. intros k k' x.
  rewrite !list_lookup_fmap, !list_lookup_imap.
  destruct (l !! k) as [y|]; [|done]. destruct (l !! k') as [y'|]; [|done].
  simpl. rewrite !Hf. intros [= <-] [= H%string_app_inj_l].
  by apply (inj pretty).
Qed.

(** The sentences made from the pieces numbered from [n] on. *)
Definition sentences_from (n : nat) (pieces : list string) : list tree :=
  omap (λ '(sent_id, sentence),
          if PyStr.truthy sentence
          then Some (Element "sentence" {["id" := Some ("s" +:+ pretty sent_id)]}
                       (Some (PyStr.strip sentence)) [])
          else None)
       (imap (λ k x, (n + k, x)) pieces).

Lemma sentences_from_cons n piece pieces :
  sentences_from n (piece :: pieces)
  = (if PyStr.truthy piece
     then [Element "sentence" {["id" := Some ("s" +:+ pretty n)]}
             (Some (PyStr.strip piece)) []]
     else []) ++ sentences_from (S n) pieces.
Proof.
  unfold sentences_from. rewrite imap_cons. cbn [omap list_omap].
  rewrite Nat.add_0_r.
  rewrite (imap_ext _ (λ k x, (S n + k, x)) pieces)
    by (intros; simpl; f_equal; lia).
  by destruct (PyStr.truthy piece).
Qed.

Lemma sentences_from_ids n pieces :
  NoDup (id_of <$> sentences_from n pieces)
  ∧ ∀ s, s ∈ sentences_from n pieces →
         ∃ m, n ≤ m < n + length pieces ∧ id_of s = Some ("s" +:+ pretty m).
Proof.
  revert n. induction pieces as [|piece pieces IH]; intros n.
  { split; [constructor|]. intros s Hs. by apply elem_of_nil in Hs. }
  rewrite sentences_from_cons. destruct (IH (S n)) as [Hnd Hids].
  destruct (PyStr.truthy piece); cbn [app].
  - split.
    + rewrite fmap_cons. apply NoDup_cons. split; [|done].
      intros (s & Hs & Hin)%list_elem_of_fmap.
      destruct (Hids _ Hin) as (m & Hm & Hid). rewrite Hid in Hs.
      unfold id_of, ET.tget in Hs. simpl in Hs.
      rewrite lookup_singleton_eq in Hs. simpl in Hs.
      injection Hs as Hs%string_app_inj_l%(inj pretty). lia.
    + intros s [->|Hin]%elem_of_cons.
      * exists n. split; [simpl; lia|]. unfold id_of, ET.tget. simpl.
        by rewrite lookup_singleton_eq.
      * destruct (Hids _ Hin) as (m & Hm & Hid). exists m.
        split; [simpl; lia|done].
  - split; [done|]. intros s Hin.
    destruct (Hids _ Hin) as (m & Hm & Hid). exists m.
    split; [simpl; lia|done].
Qed.

Lemma sentence_elements_from texto :
  sentence_elements texto = sentences_from 0 (PyStr.split ". " texto).
Proof. reflexivity. Qed.

(** X16.  Below one intervention no two elements of a group share an
    identifier: the mentions, the proposals, the claims and the
    sentences each carry distinct identifiers.  A sentence is numbered
    by the position of its piece of the text, so an empty piece leaves a
    gap in the numbers and no duplicate. *)
Theorem identifiers_within_intervention
    (gid : nat) (pid : string) (topic : option string)
    (ents : list (string * string)) (props facts : option (list string))
    (r : row) (group : tree) :
  group ∈ children (intervention_element gid pid topic ents props facts r) →
  NoDup (id_of <$> children group).
Proof.
  unfold intervention_element. cbn [children].
  rewrite !elem_of_app.
  intros [Hg|[Hg|[Hg|[Hg|Hg]]]].
  - destruct ents as [|e ents]; [by apply elem_of_nil in Hg|].
    apply list_elem_of_singleton in Hg as ->. cbn [children].
    apply (numbered_ids_NoDup "e"). intros k x. unfold id_of, ET.tget.
    simpl. by rewrite lookup_insert_eq.
  - destruct props as [[|p ps]|]; [by apply elem_of_nil in Hg|
                                   |by apply elem_of_nil in Hg].
    apply list_elem_of_singleton in Hg as ->. cbn [children].
    apply (numbered_ids_NoDup "pr"). intros k x. unfold id_of, ET.tget.
    simpl. by rewrite lookup_singleton_eq.
  - destruct facts as [[|c cs]|]; [by apply elem_of_nil in Hg|
                                   |by apply elem_of_nil in Hg].
    apply list_elem_of_singleton in Hg as ->. cbn [children].
    apply (numbered_ids_NoDup "r"). intros k x. unfold id_of, ET.tget.
    simpl. by rewrite lookup_singleton_eq.
  - apply list_elem_of_singleton in Hg as ->. simpl. constructor.
  - apply list_elem_of_singleton in Hg as ->. cbn [children].
    rewrite sentence_elements_from. apply sentences_from_ids.
Qed.

(** A text with an empty piece between two sentences. *)
Definition gap_row : row := Row 0%float "Ana" "Hola. . Buenas noches" ∅.

Definition gap_sentences : tree :=
  Element "sentences" ∅ None (sentence_elements (texto gap_row)).

Lemma identifiers_within_intervention_witness :
  gap_sentences
  ∈ children (intervention_element 0 "p0" None [] None None gap_row)
  ∧ NoDup (id_of <$> children gap_sentences)
  ∧ id_of <$> children gap_sentences = [Some "s0"; Some "s2"].
Proof.
  assert (gap_sentences
          ∈ children (intervention_element 0 "p0" None [] None None gap_row))
    as Hgroup.
  { unfold intervention_element. cbn [children]. rewrite !elem_of_app.
    do 4 right. by apply list_elem_of_singleton. }
  split_and!; [exact Hgroup| |by vm_compute].
  exact (identifiers_within_intervention _ _ _ _ _ _ _ _ Hgroup).
Defined.
End identifiers.

(** ** File names of the report *)

Module FileNames.

(** A code point below 256 that [\w] matches: a letter, a digit or the
    underscore. *)
Definition isword (c : ascii) : bool :=
  let n := N_of_ascii c in
  ((48 <=? n) && (n <=? 57) || (65 <=? n) && (n <=? 90) || (n =? 95)
   || (97 <=? n) && (n <=? 122) || (n =? 170) || (178 <=? n) && (n <=? 179)
   || (n =? 181) || (185 <=? n) && (n <=? 186) || (188 <=? n) && (n <=? 190)
   || (192 <=? n) && (n <=? 214) || (216 <=? n) && (n <=? 246)
   || (248 <=? n) && (n <=? 255))%N.

(** [re.sub(r'\W+', '_', name)]: every maximal run of characters that are
    not word characters becomes one underscore.  [in_run] tells that the
    previous character belonged to such a run. *)
Fixpoint sanitize_go (in_run : bool) (name : string) : string :=
  match name with
  | EmptyString => EmptyString
  | String c rest =>
      if isword c then String c (sanitize_go false rest)
      else if in_run then sanitize_go true rest
      else String "_" (sanitize_go true rest)
  end.

Definition sanitize_filename (name : string) : string :=
  sanitize_go false name.

(** [f"debate_{sanitize_filename(debate_id)}_transcription.html"] *)
Definition transcription_filename (debate_id : string) : string :=
  "debate_" +:+ sanitize_filename debate_id +:+ "_transcription.html".

End FileNames.

Section file_names.
Import FileNames.

Fixpoint all_chars (P : ascii → bool) (s : string) : bool :=
  match s with
  | EmptyString => true
  | String c rest => P c && all_chars P rest
  end.

Lemma sanitize_go_word in_run name :
  all_chars isword (sanitize_go in_run name) = true.
Proof.
  revert in_run. induction name as [|c rest IH]; intros in_run; [done|].
  cbn [sanitize_go]. destruct (isword c) eqn:Hc.
  - cbn [all_chars]. by rewrite Hc, IH.
  - destruct in_run; [apply IH|]. cbn [all_chars]. by rewrite IH.
Qed.

Lemma sanitize_go_fixed in_run name :
  all_chars isword name = true → sanitize_go in_run name = name.
Proof.
  revert in_run. induction name as [|c rest IH]; intros in_run; [done|].
  cbn [all_chars sanitize_go]. intros [Hc Hrest]%andb_prop.
  by rewrite Hc, IH.
Qed.

Lemma sanitize_go_length in_run name :
  String.length (sanitize_go in_run name) ≤ String.length name.
Proof.
  revert in_run. induction name as [|c rest IH]; intros in_run; [done|].
  cbn [sanitize_go]. destruct (isword c); [|destruct in_run]; simpl.
  - specialize (IH false). lia.
  - specialize (IH true). lia.
  - specialize (IH true). lia.
Qed.

(** X17.  A sanitized name holds only letters, digits and underscores
    and is not longer than the name; a name of such characters is left
    as it is, so that sanitizing twice is sanitizing once. *)
Theorem sanitize_filename_safe (name : string) :
  all_chars isword (sanitize_filename name) = true
  ∧ String.length (sanitize_filename name) ≤ String.length name
  ∧ (all_chars isword name = true → sanitize_filename name = name)
  ∧ sanitize_filename (sanitize_filename name) = sanitize_filename name.
Proof.
  unfold sanitize_filename. split_and!.
  - apply sanitize_go_word.
  - apply sanitize_go_length.
  - apply sanitize_go_fixed.
  - apply sanitize_go_fixed, sanitize_go_word.
Qed.
End file_names.

(** ** The rate limiter of the classifier calls *)

Module GeminiApi.

(** What [rate_limited_api_call] does with the counter and the clock.
    [now] holds the two readings of [time.time()] that the call makes
    when the counter has reached [max_calls]; [interval] is the interval
    as the float it is compared with.  The result is the argument of
    [time.sleep] when the call sleeps, and the counter and the start time
    that the call returns. *)
Definition rate_limited_api_call (now : float * float) (call_count : Z)
    (start_time : float) (max_calls : Z) (interval : float)
    : option float * Z * float :=
  if (max_calls <=? call_count)%Z then
    let elapsed_time := PrimFloat.sub now.1 start_time in
    (if PrimFloat.ltb elapsed_time interval
     then Some (PrimFloat.sub interval elapsed_time) else None,
     (0 + 1)%Z, now.2)
  else (None, (call_count + 1)%Z, start_time).

(** The calls of a run, one clock per call, threading the counter and the
    start time as [classify_emotions.py] does; the result lists, per
    call, whether the call started a new window. *)
Fixpoint calls (clock : list (float * float)) (call_count : Z)
    (start_time : float) (max_calls : Z) (interval : float)
    : list bool * Z * float :=
  match clock with
  | [] => ([], call_count, start_time)
  | now :: rest =>
      let '(_, call_count', start_time') :=
        rate_limited_api_call now call_count start_time max_calls interval in
      let '(windows, n, t) :=
        calls rest call_count' start_time' max_calls interval in
      ((max_calls <=? call_count)%Z :: windows, n, t)
  end.

End GeminiApi.

Section rate_limit.
Import GeminiApi.

Lemma calls_counter clock call_count start_time max_calls interval :
  (1 ≤ max_calls)%Z → (0 ≤ call_count ≤ max_calls)%Z →
  let '(windows, n, _) :=
    calls clock call_count start_time max_calls interval in
  length windows = length clock
  ∧ (clock ≠ [] → (1 ≤ n ≤ max_calls)%Z)
  ∧ (n = 1 + (call_count + Z.of_nat (length clock) - 1) `mod` max_calls
     ∨ clock = [] ∧ n = call_count)%Z
  ∧ ∀ k, windows !! k = Some true
         ↔ k < length clock
           ∧ ((call_count + Z.of_nat k) `mod` max_calls = 0
              ∧ 0 < call_count + Z.of_nat k)%Z.
Proof.
  intros Hmax. revert call_count start_time.
  induction clock as [|now rest IH]; intros call_count start_time Hc.
  { simpl. split_and!; [done|done|by right|].
    intros k. split; [done|]. intros [? _]. lia. }
  cbn [calls]. unfold rate_limited_api_call.
  destruct (Z.leb_spec max_calls call_count) as [Hfull|Hroom].
  - assert (call_count = max_calls) as -> by lia.
    specialize (IH (0 + 1)%Z now.2 ltac:(lia)).
    destruct (calls rest (0 + 1)%Z now.2 max_calls interval)
      as [[windows n] t]. destruct IH as (Hlen & Hn & Hform & Hwin).
    split_and!.
    + simpl. by rewrite Hlen.
    + intros _. destruct rest as [|now' rest]; [|by apply Hn].
      destruct Hform as [->|[_ ->]]; simpl; [|lia].
      rewrite Z.mod_small by lia. lia.
    + left. destruct Hform as [->|[-> ->]]; simpl length.
      * f_equal.
        replace (max_calls + Z.of_nat (S (length rest)) - 1)%Z
          with (0 + 1 + Z.of_nat (length rest) - 1 + 1 * max_calls)%Z
          by lia.
        by rewrite Z.mod_add by lia.
      * replace (max_calls + Z.of_nat 1 - 1)%Z with (0 + 1 * max_calls)%Z
          by lia.
        rewrite Z.mod_add by lia. rewrite Z.mod_small by lia. lia.
    + intros [|k]; simpl.
      * rewrite Z.add_0_r, Z.mod_same by lia. split; [|done].
        intros _. split_and!; lia.
      * rewrite (Hwin k).
        replace (max_calls + Z.of_nat (S k))%Z
          with (0 + 1 + Z.of_nat k + 1 * max_calls)%Z by lia.
        rewrite Z.mod_add by lia. split; intros (? & ? & ?);
          split_and!; lia.
  - specialize (IH (call_count + 1)%Z start_time ltac:(lia)).
    destruct (calls rest (call_count + 1)%Z start_time max_calls interval)
      as [[windows n] t]. destruct IH as (Hlen & Hn & Hform & Hwin).
    split_and!.
    + simpl. by rewrite Hlen.
    + intros _. destruct rest as [|now' rest]; [|by apply Hn].
      destruct Hform as [->|[_ ->]]; simpl; [|lia].
      replace (call_count + 1 + 0 - 1)%Z with call_count by lia.
      rewrite Z.mod_small by lia. lia.
    + left. destruct Hform as [->|[-> ->]]; simpl length.
      * do 2 f_equal. lia.
      * replace (call_count + Z.of_nat 1 - 1)%Z with call_count by lia.
        rewrite Z.mod_small by lia. lia.
    + intros [|k]; simpl.
      * rewrite Z.add_0_r. split; [done|]. intros (_ & Hmod & Hpos).
        rewrite Z.mod_small in Hmod by lia. lia.
      * rewrite (Hwin k).
        replace (call_count + 1 + Z.of_nat k)%Z
          with (call_count + Z.of_nat (S k))%Z by lia.
        split; intros (? & ? & ?); split_and!; lia.
Qed.

(** X18.  In a run of calls that starts with the counter at zero and a
    limit of at least one call, the counter returned after [n] calls is
    [1 + (n - 1) mod max_calls], never above the limit; a call starts a
    new window, after sleeping out the rest of the interval, exactly
    when the number of calls made before it is a positive multiple of
    the limit: no window holds more than [max_calls] calls. *)
Theorem rate_limit_windows (clock : list (float * float))
    (start_time : float) (max_calls : Z) (interval : float) :
  (1 ≤ max_calls)%Z →
  let '(windows, n, _) := calls clock 0 start_time max_calls interval in
  length windows = length clock
  ∧ (clock ≠ [] →
     (1 ≤ n ≤ max_calls)%Z
     ∧ n = (1 + (Z.of_nat (length clock) - 1) `mod` max_calls)%Z)
  ∧ ∀ k, windows !! k = Some true
         ↔ k < length clock
           ∧ (Z.of_nat k `mod` max_calls = 0)%Z ∧ 0 < k.
Proof.
  intros Hmax.
  pose proof (calls_counter clock 0 start_time max_calls interval Hmax
                ltac:(lia)) as Hcalls.
  destruct (calls clock 0 start_time max_calls interval) as [[windows n] t].
  destruct Hcalls as (Hlen & Hn & Hform & Hwin).
  split_and!; [done| |].
  - intros Hne. split; [by apply Hn|].
    destruct Hform as [->|[? _]]; [|done]. by rewrite Z.add_0_l.
  - intros k. rewrite (Hwin k), Z.add_0_l. split; intros (? & ? & ?);
      split_and!; [done|done|lia|done|done|lia].
Qed.

Lemma rate_limit_windows_witness :
  (calls (replicate 5 (0%float, 0%float)) 0 0%float 2 69%float).1.1
  = [false; false; true; false; true]
  ∧ ∀ k, (calls (replicate 5 (0%float, 0%float)) 0 0%float 2 69%float).1.1
           !! k = Some true
         ↔ k < 5 ∧ (Z.of_nat k `mod` 2 = 0)%Z ∧ 0 < k.
Proof.
  split; [by vm_compute|].
  pose proof (rate_limit_windows (replicate 5 (0%float, 0%float)) 0%float 2
                69%float ltac:(lia)) as Hrun.
  destruct (calls (replicate 5 (0%float, 0%float)) 0 0%float 2 69%float)
    as [[windows n] t]. destruct Hrun as (_ & _ & Hwin). exact Hwin.
Defined.
End rate_limit.
